(** * CardSense: the statement-extraction route, embedded in Rocq

    The functions of [src/app/api/chat/route.ts] that extract the data of a
    credit-card statement are translated into Rocq functions over a model
    of JavaScript values: the pattern extractors, the Validator
    [isValidData], the recovery of JSON from the response of the language
    model, the merge [robustDataMerging], the finalization
    [finalValidationAndCalculation] and the pipeline
    [extract10DataPointsWithGemini]; then the request to the language
    model [callGeminiApi] and the handlers of the route, with what they
    receive from the network as an input.

    Conventions of the model.
    - A JavaScript number is a binary64 float, represented by [spec_float]
      with precision 53 and maximal exponent 1024; the arithmetic is the
      one of the Standard Library's [SpecFloat].
    - A JavaScript string is a [string]; every [ascii] is one code unit in
      the range 0..255.  Texts with code units above 255 are outside the
      model (the rupee sign of the amount patterns, for instance).
    - An object is an association list from property names to values, in
      insertion order; reading takes the first binding of a name and writing
      replaces it, or appends a new binding.  The engine's reordering of
      integer-like property names is not modelled: nothing here observes
      the order of the properties of a parsed object.
    - Values are compared by their contents.  Where the route updates an
      object in place, the function of the model returns the updated
      object; the object that the caller passed is not observed again.
    - A thrown exception is the [Throws] result of the [completion] type.
    - The request to the language model is an input: the pipeline takes
      what [await callGeminiApi(prompt)] evaluates to. *)

From Stdlib Require Import ZArith List String Ascii Bool Lia.
From Stdlib Require Import Floats.SpecFloat.
Import ListNotations.

Local Open Scope string_scope.
Local Open Scope Z_scope.

(** ** Characters and strings *)

Module Str.

Definition code (c : ascii) : Z := Z.of_nat (nat_of_ascii c).

Definition chr (z : Z) : ascii := ascii_of_nat (Z.to_nat z).

Definition between (lo hi : Z) (c : ascii) : bool :=
  (lo <=? code c) && (code c <=? hi).

Definition is_digit : ascii -> bool := between 48 57.
Definition is_upper : ascii -> bool := between 65 90.
Definition is_lower : ascii -> bool := between 97 122.
Definition is_alpha (c : ascii) : bool := is_upper c || is_lower c.

(** [\w] of a regular expression. *)
Definition is_word (c : ascii) : bool :=
  is_alpha c || is_digit c || (code c =? 95).

(** WhiteSpace and LineTerminator code units below 256: TAB, LF, VT, FF,
    CR, SPACE and NO-BREAK SPACE.  This is [\s], and what [trim] strips. *)
Definition is_space (c : ascii) : bool :=
  between 9 13 c || (code c =? 32) || (code c =? 160).

(** LineTerminator code units below 256. *)
Definition is_newline (c : ascii) : bool :=
  (code c =? 10) || (code c =? 13).

(** [toLowerCase] of one code unit below 256: the letters A-Z and the
    Latin-1 capitals U+00C0..U+00DE, the multiplication sign apart. *)
Definition lower (c : ascii) : ascii :=
  if is_upper c || (between 192 222 c && negb (code c =? 215))
  then chr (code c + 32) else c.

(** Canonicalize of a case-insensitive regular expression without the
    unicode flag: the upper-case code unit, unless that leaves the range
    (y with diaeresis, micro sign) or is more than one unit (sharp s). *)
Definition canon (c : ascii) : ascii :=
  if is_lower c || (between 224 254 c && negb (code c =? 247))
  then chr (code c - 32) else c.

Definition chars (s : string) : list ascii := list_ascii_of_string s.
Definition pack (l : list ascii) : string := string_of_list_ascii l.

Definition toLowerCase (s : string) : string := pack (map lower (chars s)).

Fixpoint drop_space (l : list ascii) : list ascii :=
  match l with
  | c :: r => if is_space c then drop_space r else l
  | [] => []
  end.

Definition trim_chars (l : list ascii) : list ascii :=
  rev (drop_space (rev (drop_space l))).

Definition trim (s : string) : string := pack (trim_chars (chars s)).

Definition substring_to (n : nat) (s : string) : string :=
  pack (firstn n (chars s)).

(** [Array.prototype.includes] on an array of strings. *)
Definition includes (l : list string) (s : string) : bool :=
  existsb (String.eqb s) l.

(** The decimal digits of a non-negative integer. *)
Fixpoint digits_fuel (fuel : nat) (z : Z) (acc : list ascii) : list ascii :=
  match fuel with
  | O => acc
  | S f =>
      let acc' := chr (48 + z mod 10) :: acc in
      if z <? 10 then acc' else digits_fuel f (z / 10) acc'
  end.

Definition digits_of_Z (z : Z) : list ascii :=
  digits_fuel (S (Z.to_nat (Z.log2 z))) z [].

Definition of_Z (z : Z) : string :=
  if z <? 0 then String "-" (pack (digits_of_Z (- z))) else pack (digits_of_Z z).

End Str.

(** ** Binary64 numbers *)

Module B64.

Definition prec : Z := 53.
Definition emax : Z := 1024.

Definition add : spec_float -> spec_float -> spec_float := SFadd prec emax.
Definition sub : spec_float -> spec_float -> spec_float := SFsub prec emax.
Definition mul : spec_float -> spec_float -> spec_float := SFmul prec emax.
Definition div : spec_float -> spec_float -> spec_float := SFdiv prec emax.
Definition ltb : spec_float -> spec_float -> bool := SFltb.

Definition of_Z (z : Z) : spec_float := binary_normalize prec emax z 0 false.

Definition is_nan (x : spec_float) : bool :=
  match x with S754_nan => true | _ => false end.

Definition is_zero (x : spec_float) : bool :=
  match x with S754_zero _ => true | _ => false end.

(** The number nearest to [d * 10 ^ p], for a natural [d]: the value of a
    decimal literal with the digits [d] and the decimal exponent [p].
    Beyond 400 decimal orders of magnitude the result is an infinity or a
    zero whatever the digits are. *)
Definition of_decimal (neg : bool) (d p : Z) : spec_float :=
  if d <=? 0 then S754_zero neg
  else if 0 <=? p then
    if 400 <? p then S754_infinity neg
    else binary_normalize prec emax (cond_Zopp neg (d * 10 ^ p)) 0 neg
  else if Z.log2 d / 3 + 1 + p <? -400 then S754_zero neg
  else
    let '(q, e, l) := SFdiv_core_binary prec emax d 0 (10 ^ (- p)) 0 in
    binary_round_aux prec emax neg q e l.

(** [Math.round]: the nearest integer, a tie going towards plus infinity;
    the sign of a zero result is the sign of the argument. *)
Definition round (x : spec_float) : spec_float :=
  match x with
  | S754_finite s m e =>
      if 0 <=? e then x
      else
        let d := 2 ^ (- e) in
        let r := (2 * cond_Zopp s (Zpos m) + d) / (2 * d) in
        if r =? 0 then S754_zero s else of_Z r
  | _ => x
  end.

(** *** Number to string *)

(** [x = m * 2 ^ e] as a fraction of two naturals. *)
Definition numer (m : positive) (e : Z) : Z := Zpos m * 2 ^ Z.max e 0.
Definition denom (e : Z) : Z := 2 ^ Z.max (- e) 0.

(** [10 ^ j <= m * 2 ^ e]. *)
Definition pow10_le (j : Z) (m : positive) (e : Z) : bool :=
  10 ^ Z.max j 0 * denom e <=? numer m e * 10 ^ Z.max (- j) 0.

Fixpoint exp10_up (fuel : nat) (n : Z) (m : positive) (e : Z) : Z :=
  match fuel with
  | O => n
  | S f => if pow10_le n m e then exp10_up f (n + 1) m e else n
  end.

Fixpoint exp10_down (fuel : nat) (n : Z) (m : positive) (e : Z) : Z :=
  match fuel with
  | O => n
  | S f => if pow10_le (n - 1) m e then n else exp10_down f (n - 1) m e
  end.

(** The [n] with [10 ^ (n - 1) <= m * 2 ^ e < 10 ^ n], from an estimate
    by the binary logarithm. *)
Definition exp10 (m : positive) (e : Z) : Z :=
  let est := (Z.log2 (Zpos m) + e) * 30103 / 100000 in
  exp10_up 8 (exp10_down 8 est m e) m e.

(** [floor (m * 2 ^ e / 10 ^ q)]. *)
Definition scaled (m : positive) (e q : Z) : Z :=
  (numer m e * 10 ^ Z.max (- q) 0) / (denom e * 10 ^ Z.max q 0).

(** Is [a * 10 ^ q] at most as far from [m * 2 ^ e] as [b * 10 ^ q] is,
    for [a] below and [b] above? *)
Definition nearer_low (m : positive) (e q a b : Z) : comparison :=
  (* x - a*10^q ?= b*10^q - x, that is 2 x ?= (a + b) * 10 ^ q *)
  (2 * numer m e * 10 ^ Z.max (- q) 0 ?= (a + b) * 10 ^ Z.max q 0 * denom e).

(** The shortest digits [s] and the exponent [n] with
    [of_decimal (s * 10 ^ (n - k)) = x], [k] the number of digits of [s]:
    [k] is tried from 1 to 17. *)
Fixpoint shortest (fuel : nat) (k : Z) (m : positive) (e n : Z) : Z * Z :=
  let q := n - k in
  let a := scaled m e q in
  let b := a + 1 in
  let x := S754_finite false m e in
  let fits c :=
    match of_decimal false c q with
    | S754_finite false m' e' => Pos.eqb m m' && (e =? e')
    | _ => false
    end in
  let norm c := if c =? 10 ^ k then (10 ^ (k - 1), n + 1) else (c, n) in
  match fuel with
  | O => norm a
  | S f =>
      match fits a, fits b with
      | true, true =>
          match nearer_low m e q a b with
          | Lt => norm a
          | Gt => norm b
          | Eq => if Z.even a then norm a else norm b
          end
      | true, false => norm a
      | false, true => norm b
      | false, false => shortest f (k + 1) m e n
      end
  end.

Fixpoint strip_zeros (fuel : nat) (s : Z) : Z :=
  match fuel with
  | O => s
  | S f => if (0 <? s) && (s mod 10 =? 0) then strip_zeros f (s / 10) else s
  end.

Definition zeros (n : Z) : list ascii := repeat "0"%char (Z.to_nat n).

(** Number::toString with radix 10. *)
Definition to_string (x : spec_float) : string :=
  match x with
  | S754_nan => "NaN"
  | S754_zero _ => "0"
  | S754_infinity s => if s then "-Infinity" else "Infinity"
  | S754_finite sg m e =>
      let '(s0, n) := shortest 17 1 m e (exp10 m e) in
      let s := strip_zeros 20 s0 in
      let ds := Str.digits_of_Z s in
      let k := Z.of_nat (List.length ds) in
      let body :=
        if (k <=? n) && (n <=? 21) then (ds ++ zeros (n - k))%list
        else if (0 <? n) && (n <=? 21) then
          (firstn (Z.to_nat n) ds ++ "."%char :: skipn (Z.to_nat n) ds)%list
        else if (-6 <? n) && (n <=? 0) then
          ("0"%char :: "."%char :: zeros (- n) ++ ds)%list
        else
          let ex := Str.chars (Str.of_Z (Z.abs (n - 1))) in
          let sign := if n - 1 <? 0 then "-"%char else "+"%char in
          match ds with
          | [] => []
          | d :: [] => d :: "e"%char :: sign :: ex
          | d :: r => (d :: "."%char :: r ++ "e"%char :: sign :: ex)%list
          end in
      Str.pack (if sg then "-"%char :: body else body)
  end.

(** *** String to number *)

Definition digit_val (c : ascii) : Z := Str.code c - 48.

Definition hex_val (c : ascii) : option Z :=
  if Str.is_digit c then Some (Str.code c - 48)
  else if Str.between 97 102 c then Some (Str.code c - 87)
  else if Str.between 65 70 c then Some (Str.code c - 55)
  else None.

Fixpoint take_digits (l : list ascii) : list ascii * list ascii :=
  match l with
  | c :: r =>
      if Str.is_digit c then let '(d, r') := take_digits r in (c :: d, r')
      else ([], l)
  | [] => ([], [])
  end.

Definition nat_of_digits (l : list ascii) : Z :=
  fold_left (fun acc c => 10 * acc + digit_val c) l 0.

(** All of [l] as digits of the radix [radix], at least one. *)
Definition radix_digits (radix : Z) (l : list ascii) : option Z :=
  match l with
  | [] => None
  | _ =>
      fold_left
        (fun acc c =>
           match acc, hex_val c with
           | Some a, Some v => if v <? radix then Some (radix * a + v) else None
           | _, _ => None
           end) l (Some 0)
  end.

Definition take_sign (l : list ascii) : bool * list ascii :=
  match l with
  | "-"%char :: r => (true, r)
  | "+"%char :: r => (false, r)
  | _ => (false, l)
  end.

(** The exponent part of a decimal literal, when one is there. *)
Definition take_exponent (l : list ascii) : Z * list ascii :=
  match l with
  | c :: r =>
      if (Str.code c =? 101) || (Str.code c =? 69) then
        let '(neg, r1) := take_sign r in
        match take_digits r1 with
        | ([], _) => (0, l)
        | (ds, r2) => (cond_Zopp neg (nat_of_digits ds), r2)
        end
      else (0, l)
  | [] => (0, l)
  end.

Definition infinity_chars : list ascii := Str.chars "Infinity".

Fixpoint strip_prefix (p l : list ascii) : option (list ascii) :=
  match p, l with
  | [], _ => Some l
  | a :: p', b :: l' => if Ascii.eqb a b then strip_prefix p' l' else None
  | _ :: _, [] => None
  end.

(** The longest prefix of [l] that is a StrDecimalLiteral, with its value
    and what follows it. *)
Definition scan_decimal (l : list ascii) : option (spec_float * list ascii) :=
  let '(neg, l1) := take_sign l in
  match strip_prefix infinity_chars l1 with
  | Some r => Some (S754_infinity neg, r)
  | None =>
      let '(ip, l2) := take_digits l1 in
      let '(fp, l3) :=
        match l2 with
        | "."%char :: r =>
            let '(fp, r') := take_digits r in
            match ip, fp with
            | [], [] => ([], l2)
            | _, _ => (fp, r')
            end
        | _ => ([], l2)
        end in
      match ip, fp with
      | [], [] => None
      | _, _ =>
          let '(ex, l4) := take_exponent l3 in
          Some (of_decimal neg (nat_of_digits (ip ++ fp)%list)
                  (ex - Z.of_nat (List.length fp)), l4)
      end
  end.

(** StringToNumber. *)
Definition of_string (s : string) : spec_float :=
  match Str.trim_chars (Str.chars s) with
  | [] => S754_zero false
  | "0"%char :: c :: r =>
      let radix :=
        if (Str.code c =? 120) || (Str.code c =? 88) then Some 16
        else if (Str.code c =? 111) || (Str.code c =? 79) then Some 8
        else if (Str.code c =? 98) || (Str.code c =? 66) then Some 2
        else None in
      match radix with
      | Some rx =>
          match radix_digits rx r with
          | Some z => of_Z z
          | None => S754_nan
          end
      | None =>
          match scan_decimal ("0"%char :: c :: r) with
          | Some (x, []) => x
          | _ => S754_nan
          end
      end
  | l =>
      match scan_decimal l with
      | Some (x, []) => x
      | _ => S754_nan
      end
  end.

(** [parseFloat]. *)
Definition parseFloat (s : string) : spec_float :=
  match scan_decimal (Str.drop_space (Str.chars s)) with
  | Some (x, _) => x
  | None => S754_nan
  end.

Fixpoint take_radix (radix : Z) (l : list ascii) : list Z :=
  match l with
  | c :: r =>
      match hex_val c with
      | Some v => if v <? radix then v :: take_radix radix r else []
      | None => []
      end
  | [] => []
  end.

(** [parseInt] with no radix argument. *)
Definition parseInt (s : string) : spec_float :=
  let '(neg, l) := take_sign (Str.drop_space (Str.chars s)) in
  let '(radix, l') :=
    match l with
    | "0"%char :: c :: r =>
        if (Str.code c =? 120) || (Str.code c =? 88) then (16, r) else (10, l)
    | _ => (10, l)
    end in
  match take_radix radix l' with
  | [] => S754_nan
  | ds =>
      let z := fold_left (fun acc v => radix * acc + v) ds 0 in
      if z =? 0 then S754_zero neg
      else binary_normalize prec emax (cond_Zopp neg z) 0 neg
  end.

End B64.

(** ** Regular expressions

    A backtracking matcher with the priorities of the ECMAScript
    specification: alternatives are tried left to right, a greedy quantifier
    tries one more iteration first, a lazy one tries to stop first, and an
    iteration that consumes nothing is refused. *)

Module Regex.

Local Open Scope nat_scope.

Inductive re : Type :=
| Empty
| Char (p : ascii -> bool)
| Seq (a b : re)
| Alt (a b : re)
| Star (greedy : bool) (a : re)
| Group (n : nat) (a : re)
| Ahead (positive : bool) (a : re)
| Bol (multiline : bool)
| Eol (multiline : bool)
| WordBoundary.

(** The position of the matcher: the text before it, last character
    first, the text after it, and the captures made so far. *)
Record state : Type := {
  before : list ascii;
  rest : list ascii;
  caps : list (nat * list ascii)
}.

Definition consumed (st st' : state) : list ascii :=
  firstn (List.length (rest st) - List.length (rest st')) (rest st).

Definition capture (n : nat) (st st' : state) : state :=
  {| before := before st'; rest := rest st';
     caps := (n, consumed st st') :: caps st' |}.

Definition word_before (st : state) : bool :=
  match before st with c :: _ => Str.is_word c | [] => false end.

Definition word_after (st : state) : bool :=
  match rest st with c :: _ => Str.is_word c | [] => false end.

Definition or_option {A : Type} (a b : option A) : option A :=
  match a with Some _ => a | None => b end.

(** The iterations of a quantifier: [step] matches the quantified pattern
    once.  Every iteration consumes a character, so that there are no
    more iterations than characters left. *)
Fixpoint iterate (greedy : bool)
  (step : state -> (state -> option state) -> option state)
  (k : state -> option state) (fuel : nat) (st : state) {struct fuel}
  : option state :=
  match fuel with
  | O => k st
  | S f =>
      let more :=
        step st (fun st' =>
          if Nat.ltb (List.length (rest st')) (List.length (rest st))
          then iterate greedy step k f st' else None) in
      if greedy then or_option more (k st) else or_option (k st) more
  end.

Fixpoint run (r : re) (st : state) (k : state -> option state)
  {struct r} : option state :=
  match r with
  | Empty => k st
  | Char p =>
      match rest st with
      | c :: tl =>
          if p c
          then k {| before := c :: before st; rest := tl; caps := caps st |}
          else None
      | [] => None
      end
  | Seq a b => run a st (fun st' => run b st' k)
  | Alt a b => or_option (run a st k) (run b st k)
  | Star greedy a => iterate greedy (run a) k (S (List.length (rest st))) st
  | Group n a => run a st (fun st' => k (capture n st st'))
  | Ahead positive a =>
      match run a st Some with
      | Some st' =>
          if positive
          then k {| before := before st; rest := rest st; caps := caps st' |}
          else None
      | None => if positive then None else k st
      end
  | Bol multiline =>
      match before st with
      | [] => k st
      | c :: _ => if multiline && Str.is_newline c then k st else None
      end
  | Eol multiline =>
      match rest st with
      | [] => k st
      | c :: _ => if multiline && Str.is_newline c then k st else None
      end
  | WordBoundary =>
      if xorb (word_before st) (word_after st) then k st else None
  end.

(** *** Patterns *)

Definition any : re := Char (fun _ => true).               (* [\s\S] *)
Definition dot : re := Char (fun c => negb (Str.is_newline c)).
Definition digit : re := Char Str.is_digit.                (* \d *)
Definition space : re := Char Str.is_space.                (* \s *)
Definition word : re := Char Str.is_word.                  (* \w *)
Definition chr (c : ascii) : re := Char (Ascii.eqb c).
(** A letter of a pattern with the flag [i]. *)
Definition chr_i (c : ascii) : re :=
  Char (fun x => Ascii.eqb (Str.canon x) (Str.canon c)).
Definition star (a : re) : re := Star true a.              (* a* *)
Definition lazy_star (a : re) : re := Star false a.        (* a*? *)
Definition plus (a : re) : re := Seq a (Star true a).      (* a+ *)
Definition lazy_plus (a : re) : re := Seq a (Star false a).  (* a+? *)
Definition opt (a : re) : re := Alt a Empty.               (* a? *)

Fixpoint seq (l : list re) : re :=
  match l with
  | [] => Empty
  | a :: [] => a
  | a :: r => Seq a (seq r)
  end.

Fixpoint alt (l : list re) : re :=
  match l with
  | [] => Ahead false Empty
  | a :: [] => a
  | a :: r => Alt a (alt r)
  end.

Fixpoint times (n : nat) (a : re) : re :=                  (* a{n} *)
  match n with
  | O => Empty
  | S O => a
  | S m => Seq a (times m a)
  end.

(** The characters of [s], one after the other. *)
Definition lit (s : string) : re := seq (map chr (Str.chars s)).
Definition lit_i (s : string) : re := seq (map chr_i (Str.chars s)).

(** *** Matching *)

Record result : Type := {
  index : nat;
  whole : list ascii;
  captures : list (nat * list ascii);
  after : list ascii
}.

(** [m[n]] for a group [n >= 1]: the last capture of the group, if it
    took part in the match. *)
Definition group (m : result) (n : nat) : option string :=
  option_map Str.pack
    (option_map snd (find (fun c => Nat.eqb (fst c) n) (captures m))).

(** [m[0]]. *)
Definition matched (m : result) : string := Str.pack (whole m).

(** The match that starts exactly at the position [pre]/[l]. *)
Definition match_here (r : re) (pre l : list ascii) : option result :=
  let st := {| before := pre; rest := l; caps := [] |} in
  match run r st Some with
  | Some st' =>
      Some {| index := List.length pre; whole := consumed st st';
              captures := caps st'; after := rest st' |}
  | None => None
  end.

(** The leftmost match at or after the position [pre]/[l]. *)
Fixpoint search (r : re) (pre l : list ascii) {struct l} : option result :=
  match match_here r pre l with
  | Some m => Some m
  | None =>
      match l with
      | [] => None
      | c :: tl => search r (c :: pre) tl
      end
  end.

(** [r.exec(s)] and [s.match(r)] for an [r] without the flag [g]. *)
Definition exec (r : re) (s : string) : option result :=
  search r [] (Str.chars s).

(** All the matches of an [r] with the flag [g], from left to right: the
    search resumes where the last match ended, one character further
    after an empty match. *)
Fixpoint search_all (fuel : nat) (r : re) (pre l : list ascii)
  : list result :=
  match fuel with
  | O => []
  | S f =>
      match search r pre l with
      | None => []
      | Some m =>
          let skipped := List.length (whole m) + (index m - List.length pre) in
          let pre' := (rev (firstn skipped l) ++ pre)%list in
          let l' := skipn skipped l in
          match whole m, l' with
          | [], [] => [m]
          | [], c :: tl => m :: search_all f r (c :: pre') tl
          | _, _ => m :: search_all f r pre' l'
          end
      end
  end.

Definition exec_all (r : re) (s : string) : list result :=
  search_all (S (String.length s)) r [] (Str.chars s).

(** [s.replace(r, ...)] for an [r] without the flag [g]: the first match
    is replaced by [by_ m]. *)
Definition replace (r : re) (by_ : result -> string) (s : string) : string :=
  match exec r s with
  | None => s
  | Some m =>
      Str.pack (firstn (index m) (Str.chars s) ++ Str.chars (by_ m)
                ++ after m)%list
  end.

Fixpoint splice (pos : nat) (l : list ascii) (ms : list result)
  (by_ : result -> string) : list ascii :=
  match ms with
  | [] => l
  | m :: r =>
      (firstn (index m - pos) l ++ Str.chars (by_ m)
       ++ splice (index m + List.length (whole m))
            (skipn (index m - pos + List.length (whole m)) l) r by_)%list
  end.

(** [s.replace(r, ...)] for an [r] with the flag [g]. *)
Definition replace_all (r : re) (by_ : result -> string) (s : string)
  : string :=
  Str.pack (splice 0 (Str.chars s) (exec_all r s) by_).

End Regex.

(** ** JavaScript values *)

Module JS.

Inductive exn : Type :=
| TypeError
| SyntaxError
| Error (message : string).

(** The result of evaluating an expression or running a function body. *)
Inductive completion (A : Type) : Type :=
| Normal (a : A)
| Throws (e : exn).

Arguments Normal {A} a.
Arguments Throws {A} e.

Definition bind {A B : Type} (c : completion A) (k : A -> completion B)
  : completion B :=
  match c with
  | Normal a => k a
  | Throws e => Throws e
  end.

#[warnings="-register-all"] Inductive value : Type :=
| VUndefined
| VNull
| VBool (b : bool)
| VNum (x : spec_float)
| VStr (s : string)
| VArr (elems : list value) (props : list (string * value))
| VObj (props : list (string * value)).

(** A record: the properties of a plain object. *)
Definition obj : Type := list (string * value).

Fixpoint lookup (k : string) (o : obj) : option value :=
  match o with
  | [] => None
  | (k', v) :: r => if String.eqb k k' then Some v else lookup k r
  end.

(** [k in o]. *)
Definition has (o : obj) (k : string) : bool :=
  match lookup k o with Some _ => true | None => false end.

(** [o[k]]. *)
Definition get (o : obj) (k : string) : value :=
  match lookup k o with Some v => v | None => VUndefined end.

(** [o[k] = v]. *)
Fixpoint set (o : obj) (k : string) (v : value) : obj :=
  match o with
  | [] => [(k, v)]
  | (k', v') :: r =>
      if String.eqb k k' then (k', v) :: r else (k', v') :: set r k v
  end.

Definition keys (o : obj) : list string := map fst o.

Definition VNat (n : nat) : value := VNum (B64.of_Z (Z.of_nat n)).

(** [v[k]] and [v.k], for the property names the route reads: [length],
    and names that are neither array indices nor properties of the
    built-in prototypes. *)
Definition member (v : value) (k : string) : completion value :=
  match v with
  | VUndefined | VNull => Throws TypeError
  | VBool _ | VNum _ => Normal VUndefined
  | VStr s =>
      Normal (if String.eqb k "length" then VNat (String.length s)
              else VUndefined)
  | VArr elems props =>
      Normal (if String.eqb k "length" then VNat (List.length elems)
              else get props k)
  | VObj props => Normal (get props k)
  end.

(** [v?.k]. *)
Definition optional_member (v : value) (k : string) : completion value :=
  match v with
  | VUndefined | VNull => Normal VUndefined
  | _ => member v k
  end.

(** [v[k] = x] in strict-mode code (the route is an ES module), for names
    that are neither array indices nor [length]: the updated [v].  A
    property cannot be created on a primitive value. *)
Definition assign_member (v : value) (k : string) (x : value)
  : completion value :=
  match v with
  | VObj props => Normal (VObj (set props k x))
  | VArr elems props => Normal (VArr elems (set props k x))
  | _ => Throws TypeError
  end.

Definition typeof (v : value) : string :=
  match v with
  | VUndefined => "undefined"
  | VNull | VArr _ _ | VObj _ => "object"
  | VBool _ => "boolean"
  | VNum _ => "number"
  | VStr _ => "string"
  end.

Definition Array_isArray (v : value) : bool :=
  match v with VArr _ _ => true | _ => false end.

Definition is_null (v : value) : bool :=
  match v with VNull => true | _ => false end.

Definition is_undefined (v : value) : bool :=
  match v with VUndefined => true | _ => false end.

(** [isNaN(v)] for a [v] of type number. *)
Definition isNaN (v : value) : bool :=
  match v with VNum x => B64.is_nan x | _ => false end.

(** [a === b] for two values that are not both objects: numbers are
    compared as floats (a NaN differs from itself, the two zeros are
    equal). *)
Definition strict_equal (a b : value) : bool :=
  match a, b with
  | VUndefined, VUndefined | VNull, VNull => true
  | VBool x, VBool y => Bool.eqb x y
  | VNum x, VNum y => SFeqb x y
  | VStr x, VStr y => String.eqb x y
  | _, _ => false
  end.

(** [v.length] as a natural, for an array or a string. *)
Definition length_of (v : value) : nat :=
  match v with
  | VArr elems _ => List.length elems
  | VStr s => String.length s
  | _ => O
  end.

(** [v.toLowerCase()] for a string [v]. *)
Definition toLowerCase (v : value) : string :=
  match v with VStr s => Str.toLowerCase s | _ => "" end.

Definition indices (n : nat) : list string :=
  map (fun i => Str.of_Z (Z.of_nat i)) (seq 0 n).

(** [Object.keys(v)], for a [v] that is neither null nor undefined. *)
Definition Object_keys (v : value) : list string :=
  match v with
  | VObj props => keys props
  | VArr elems props => (indices (List.length elems) ++ keys props)%list
  | VStr s => indices (String.length s)
  | _ => []
  end.

(** ToBoolean. *)
Definition truthy (v : value) : bool :=
  match v with
  | VUndefined | VNull => false
  | VBool b => b
  | VNum x => negb (B64.is_zero x || B64.is_nan x)
  | VStr s => negb (String.eqb s "")
  | VArr _ _ | VObj _ => true
  end.

(** [a ?? b]. *)
Definition nullish (a b : value) : value :=
  match a with VUndefined | VNull => b | _ => a end.

(** [a || b]. *)
Definition or_else (a b : value) : value := if truthy a then a else b.

(** ToString.  No value of the model is callable, so an own [toString]
    or [join] property shadows the inherited method with a non-function:
    OrdinaryToPrimitive then finds no method that returns a primitive. *)
Fixpoint ToString (v : value) : completion string :=
  match v with
  | VUndefined => Normal "undefined"
  | VNull => Normal "null"
  | VBool b => Normal (if b then "true" else "false")
  | VNum x => Normal (B64.to_string x)
  | VStr s => Normal s
  | VObj props =>
      if has props "toString" then Throws TypeError
      else Normal "[object Object]"
  | VArr elems props =>
      if has props "toString" then Throws TypeError
      else if has props "join" then Normal "[object Array]"
      else
        (fix join (l : list value) : completion string :=
           match l with
           | [] => Normal ""
           | x :: r =>
               let elt :=
                 match x with
                 | VUndefined | VNull => Normal ""
                 | _ => ToString x
                 end in
               match r with
               | [] => elt
               | _ :: _ =>
                   bind elt (fun s =>
                   bind (join r) (fun t =>
                   Normal (s ++ "," ++ t)))
               end
           end) elems
  end.

(** ToPrimitive: the same result for every hint, on the values of the
    model. *)
Definition ToPrimitive (v : value) : completion value :=
  match v with
  | VObj _ | VArr _ _ => bind (ToString v) (fun s => Normal (VStr s))
  | _ => Normal v
  end.

Definition ToNumber (v : value) : completion spec_float :=
  bind (ToPrimitive v) (fun p =>
  Normal match p with
         | VNull => S754_zero false
         | VBool b => if b then B64.of_Z 1 else S754_zero false
         | VNum x => x
         | VStr s => B64.of_string s
         | _ => S754_nan
         end).

Definition arith (op : spec_float -> spec_float -> spec_float)
  (a b : value) : completion value :=
  bind (ToNumber a) (fun x =>
  bind (ToNumber b) (fun y =>
  Normal (VNum (op x y)))).

(** [a - b], [a * b], [a / b]. *)
Definition sub : value -> value -> completion value := arith B64.sub.
Definition mul : value -> value -> completion value := arith B64.mul.
Definition div : value -> value -> completion value := arith B64.div.

(** [a + b]. *)
Definition add (a b : value) : completion value :=
  bind (ToPrimitive a) (fun pa =>
  bind (ToPrimitive b) (fun pb =>
  match pa, pb with
  | VStr _, _ | _, VStr _ =>
      bind (ToString pa) (fun sa =>
      bind (ToString pb) (fun sb =>
      Normal (VStr (sa ++ sb))))
  | _, _ => arith B64.add pa pb
  end)).

(** [a > b]. *)
Definition gt (a b : value) : completion bool :=
  bind (ToPrimitive a) (fun pa =>
  bind (ToPrimitive b) (fun pb =>
  match pa, pb with
  | VStr sa, VStr sb => Normal (String.ltb sb sa)
  | _, _ =>
      bind (ToNumber pa) (fun x =>
      bind (ToNumber pb) (fun y =>
      Normal (B64.ltb y x)))
  end)).

(** [Math.round(v)]. *)
Definition Math_round (v : value) : completion value :=
  bind (ToNumber v) (fun x => Normal (VNum (B64.round x))).

(** [for (const x of l)] over a body that updates an accumulator. *)
Fixpoint for_of {A S : Type} (l : list A) (body : S -> A -> completion S)
  (s : S) : completion S :=
  match l with
  | [] => Normal s
  | x :: r => bind (body s x) (for_of r body)
  end.

End JS.

Notation "x <- c ;; k" := (JS.bind c (fun x => k))
  (at level 61, c at next level, right associativity).

(** ** JSON.parse *)

Module JSON.
Import JS.

Definition quote : ascii := Str.chr 34.
Definition backslash : ascii := Str.chr 92.

(** White space of the JSON grammar. *)
Definition is_ws (c : ascii) : bool :=
  (Str.code c =? 32) || (Str.code c =? 9) || (Str.code c =? 10)
  || (Str.code c =? 13).

Fixpoint skip_ws (l : list ascii) : list ascii :=
  match l with
  | c :: r => if is_ws c then skip_ws r else l
  | [] => []
  end.

(** The four hexadecimal digits of a unicode escape, as a code unit of
    the model: an escape above U+00FF has none. *)
Definition unicode_escape (l : list ascii) : option (ascii * list ascii) :=
  match l with
  | a :: b :: c :: d :: r =>
      match B64.hex_val a, B64.hex_val b, B64.hex_val c, B64.hex_val d with
      | Some 0, Some 0, Some x, Some y => Some (Str.chr (16 * x + y), r)
      | _, _, _, _ => None
      end
  | _ => None
  end.

(** The characters of a string literal, after its opening quote. *)
Fixpoint string_body (fuel : nat) (l : list ascii)
  : option (list ascii * list ascii) :=
  match fuel with
  | O => None
  | S f =>
      match l with
      | [] => None
      | c :: r =>
          if Ascii.eqb c quote then Some ([], r)
          else if Ascii.eqb c backslash then
            match r with
            | [] => None
            | e :: r' =>
                let plain (x : ascii) :=
                  option_map (fun '(s, t) => (x :: s, t)) (string_body f r') in
                if Ascii.eqb e quote then plain quote
                else if Ascii.eqb e backslash then plain backslash
                else if Ascii.eqb e "/" then plain "/"%char
                else if Ascii.eqb e "b" then plain (Str.chr 8)
                else if Ascii.eqb e "f" then plain (Str.chr 12)
                else if Ascii.eqb e "n" then plain (Str.chr 10)
                else if Ascii.eqb e "r" then plain (Str.chr 13)
                else if Ascii.eqb e "t" then plain (Str.chr 9)
                else if Ascii.eqb e "u" then
                  match unicode_escape r' with
                  | Some (x, r'') =>
                      option_map (fun '(s, t) => (x :: s, t))
                        (string_body f r'')
                  | None => None
                  end
                else None
            end
          else if Str.code c <? 32 then None
          else option_map (fun '(s, t) => (c :: s, t)) (string_body f r)
      end
  end.

(** A number literal: [-? int frac? exp?], the integer part without a
    leading zero. *)
Definition number (l : list ascii) : option (spec_float * list ascii) :=
  let '(neg, l1) :=
    match l with
    | "-"%char :: r => (true, r)
    | _ => (false, l)
    end in
  let '(ip, l2) := B64.take_digits l1 in
  match ip with
  | [] => None
  | d :: ds =>
      if Ascii.eqb d "0" && negb (Nat.eqb (List.length ds) 0) then None
      else
        let frac :=
          match l2 with
          | "."%char :: r =>
              match B64.take_digits r with
              | ([], _) => None
              | (fp, r') => Some (fp, r')
              end
          | _ => Some ([], l2)
          end in
        match frac with
        | None => None
        | Some (fp, l3) =>
            let ex :=
              match l3 with
              | c :: r =>
                  if (Str.code c =? 101) || (Str.code c =? 69) then
                    let '(eneg, r1) := B64.take_sign r in
                    match B64.take_digits r1 with
                    | ([], _) => None
                    | (ds', r2) =>
                        Some (cond_Zopp eneg (B64.nat_of_digits ds'), r2)
                    end
                  else Some (0, l3)
              | [] => Some (0, l3)
              end in
            match ex with
            | None => None
            | Some (e, l4) =>
                Some (B64.of_decimal neg (B64.nat_of_digits (ip ++ fp)%list)
                        (e - Z.of_nat (List.length fp)), l4)
            end
        end
  end.

Fixpoint value_ (fuel : nat) (l : list ascii) {struct fuel}
  : option (value * list ascii) :=
  match fuel with
  | O => None
  | S f =>
      match skip_ws l with
      | "{"%char :: r =>
          match skip_ws r with
          | "}"%char :: r' => Some (VObj [], r')
          | r' => members f r' []
          end
      | "["%char :: r =>
          match skip_ws r with
          | "]"%char :: r' => Some (VArr [] [], r')
          | r' => elements f r' []
          end
      | "t"%char :: "r"%char :: "u"%char :: "e"%char :: r =>
          Some (VBool true, r)
      | "f"%char :: "a"%char :: "l"%char :: "s"%char :: "e"%char :: r =>
          Some (VBool false, r)
      | "n"%char :: "u"%char :: "l"%char :: "l"%char :: r => Some (VNull, r)
      | c :: r =>
          if Ascii.eqb c quote then
            option_map (fun '(s, t) => (VStr (Str.pack s), t))
              (string_body (S (List.length r)) r)
          else option_map (fun '(x, t) => (VNum x, t)) (number (c :: r))
      | [] => None
      end
  end

with members (fuel : nat) (l : list ascii) (acc : obj) {struct fuel}
  : option (value * list ascii) :=
  match fuel with
  | O => None
  | S f =>
      match skip_ws l with
      | c :: r =>
          if Ascii.eqb c quote then
            match string_body (S (List.length r)) r with
            | Some (k, r1) =>
                match skip_ws r1 with
                | ":"%char :: r2 =>
                    match value_ f r2 with
                    | Some (v, r3) =>
                        let acc' := set acc (Str.pack k) v in
                        match skip_ws r3 with
                        | ","%char :: r4 => members f r4 acc'
                        | "}"%char :: r4 => Some (VObj acc', r4)
                        | _ => None
                        end
                    | None => None
                    end
                | _ => None
                end
            | None => None
            end
          else None
      | [] => None
      end
  end

with elements (fuel : nat) (l : list ascii) (acc : list value) {struct fuel}
  : option (value * list ascii) :=
  match fuel with
  | O => None
  | S f =>
      match value_ f l with
      | Some (v, r) =>
          match skip_ws r with
          | ","%char :: r' => elements f r' (acc ++ [v])%list
          | "]"%char :: r' => Some (VArr (acc ++ [v])%list [], r')
          | _ => None
          end
      | None => None
      end
  end.

(** [JSON.parse(s)]: [None] stands for the SyntaxError. *)
Definition parse (s : string) : option value :=
  match value_ (S (String.length s)) (Str.chars s) with
  | Some (v, r) =>
      match skip_ws r with
      | [] => Some v
      | _ :: _ => None
      end
  | None => None
  end.

End JSON.

(** ** The route: validation, merge and finalization *)

Module Route.
Import JS.

Definition num (z : Z) : value := VNum (B64.of_Z z).

(** [for (const pattern of patterns)] with a [break] at the first pattern
    for which [found] gives a result. *)
Fixpoint first_pattern {P A : Type} (patterns : list P)
  (found : P -> option A) : option A :=
  match patterns with
  | [] => None
  | p :: r =>
      match found p with
      | Some a => Some a
      | None => first_pattern r found
      end
  end.

Definition removed (_ : Regex.result) : string := "".

Definition of_option (o : option string) : value :=
  match o with Some s => VStr s | None => VNull end.

(** A string that is truthy. *)
Definition non_empty (o : option string) : option string :=
  match o with
  | Some s => if String.eqb s "" then None else Some s
  | None => None
  end.

Import Regex.

Definition colon_gap : re := seq [star space; opt (chr ":"); star space].
Definition masked : re :=
  seq [times 4 digit; plus (chr "*"); times 4 digit].
Definition space_or_dash : re :=
  Char (fun c => Str.is_space c || Ascii.eqb c "-").

Definition cardPatterns : list (re * (string -> string)) :=
  [ (seq [lit_i "Card Number"; colon_gap; Group 1 masked],
     fun m => m);
    (seq [lit_i "Card No"; colon_gap;
          Group 1 (seq [times 4 digit;
                        plus (Char (fun c => Str.is_space c || Ascii.eqb c "*"));
                        times 4 digit])],
     fun m => replace_all space removed m);
    (seq [lit_i "Card Number"; colon_gap;
          Group 1 (seq [times 4 digit; opt space_or_dash;
                        times 4 digit; opt space_or_dash;
                        times 4 digit; opt space_or_dash;
                        times 4 digit])],
     fun m => replace_all space_or_dash removed m);
    (seq [WordBoundary; masked; WordBoundary],
     fun m => m) ].

Definition extractCardNumberFromText (text : string) : option string :=
  first_pattern cardPatterns (fun pattern =>
    match exec (fst pattern) text with
    | Some m =>
        match non_empty (Some (match non_empty (group m 1) with
                               | Some g => g
                               | None => matched m
                               end)) with
        | Some matchedText => Some (snd pattern matchedText)
        | None => None
        end
    | None => None
    end).

(** The tail of every amount pattern.  The class of currency signs holds
    the dollar sign alone: the rupee sign is no code unit of the model. *)
Definition amount_tail : re :=
  seq [star (Char (fun c => Str.is_space c || Ascii.eqb c ":"));
       opt (chr "$"); star space;
       Group 1 (seq [plus (Char (fun c => Str.is_digit c || Ascii.eqb c ","));
                     opt (chr "."); star digit])].

Definition amountPatterns : list (string * re) :=
  [ ("total_amount_due",
     Seq (alt [lit_i "Total Amount Due"; lit_i "Total Due"; lit_i "New Balance"])
         amount_tail);
    ("minimum_amount_due",
     Seq (alt [lit_i "Minimum Amount Due"; lit_i "Min Amount Due";
               lit_i "Minimum Due"; lit_i "Min Due"])
         amount_tail);
    ("credit_limit",
     Seq (alt [lit_i "Credit Limit"; lit_i "Limit"]) amount_tail);
    ("available_credit_limit",
     Seq (alt [lit_i "Available Credit Limit"; lit_i "Available Credit";
               lit_i "Available Limit"])
         amount_tail);
    ("opening_balance",
     Seq (alt [lit_i "Opening Balance"; lit_i "Previous Balance"])
         amount_tail) ].

Definition without_commas (s : string) : string :=
  replace_all (chr ",") removed s.

Definition extractFinancialDataFromText (text : string) : obj :=
  let financialData :=
    fold_left
      (fun financialData entry =>
         match exec (snd entry) text with
         | Some m =>
             match non_empty (group m 1) with
             | Some g =>
                 set financialData (fst entry)
                   (VNum (B64.parseFloat (without_commas g)))
             | None => financialData
             end
         | None => financialData
         end)
      amountPatterns [] in
  (* Calculate available credit if not found: the two operands are the
     numbers that the loop has stored. *)
  if negb (is_undefined (get financialData "credit_limit"))
     && negb (is_undefined (get financialData "total_amount_due"))
     && is_undefined (get financialData "available_credit_limit")
  then
    match get financialData "credit_limit",
          get financialData "total_amount_due" with
    | VNum c, VNum t =>
        set financialData "available_credit_limit" (VNum (B64.sub c t))
    | _, _ => financialData
    end
  else financialData.

Definition digits : re := plus digit.

(** The reward patterns, each with the number of its groups. *)
Definition rewardPatterns : list (re * nat) :=
  [ (seq [lit_i "REWARDS"; star space; lit_i "SUMMARY"; star space;
          lit_i "Opening Balance"; star space; Group 1 digits; star space;
          lit_i "Rewards Earned"; star space; Group 2 digits; star space;
          lit_i "Redeemed/Adjusted"; star space; Group 3 digits; star space;
          lit_i "Closing Balance"; star space; Group 4 digits], 4%nat);
    (seq [lit_i "Reward Points"; lazy_star any;
          lit_i "Opening Balance"; star space; Group 1 digits; lazy_star any;
          lit_i "Earned"; star space; Group 2 digits; lazy_star any;
          lit_i "Closing Balance"; star space; Group 3 digits], 3%nat);
    (seq [lit_i "Opening Balance"; star space; Group 1 digits; star space;
          lit_i "Rewards Earned"; star space; Group 2 digits; star space;
          lit_i "Closing Balance"; star space; Group 3 digits], 3%nat) ].

Definition group_number (m : Regex.result) (n : nat) : value :=
  match group m n with
  | Some g => VNum (B64.parseInt g)
  | None => VNum S754_nan
  end.

Definition extractRewardPointsFromText (text : string) : value :=
  let found :=
    first_pattern rewardPatterns (fun pattern =>
      match exec (fst pattern) text with
      | Some m =>
          Some (if Nat.leb 3 (snd pattern)
                then (group_number m 1, group_number m 2,
                      group_number m (snd pattern))
                else (VNull, VNull, VNull))
      | None => None
      end) in
  let '(opening_balance, earned, closing_balance) :=
    match found with
    | Some t => t
    | None => (VNull, VNull, VNull)
    end in
  (* Calculate closing balance if not found *)
  let closing_balance :=
    match opening_balance, earned, closing_balance with
    | VNum o, VNum e, VNull => VNum (B64.add o e)
    | _, _, _ => closing_balance
    end in
  VObj [ ("opening_balance", opening_balance);
         ("earned", earned);
         ("closing_balance", closing_balance) ].

Definition transactionSection : re :=
  seq [lit_i "YOUR TRANSACTIONS"; Group 1 (lazy_star any);
       Ahead true
         (alt [lit_i "KEY OFFERS";
               seq [lit_i "Page "; digits; lit_i " of "; digits];
               Eol false])].

Definition transactionPattern : re :=
  seq [Group 1 (seq [times 2 digit; chr "/"; times 2 digit; chr "/";
                     times 4 digit]);
       plus space;
       Group 2 (lazy_plus
                  (Char (fun c => Str.is_alpha c || Str.is_digit c
                                  || Str.is_space c || Ascii.eqb c "."
                                  || Ascii.eqb c "-" || Ascii.eqb c "&")));
       plus space;
       Group 3 (seq [plus (Char (fun c => Str.is_digit c || Ascii.eqb c ","));
                     opt (chr "."); star digit]);
       star space;
       opt (Group 4 (lit "CR"))].

Definition transaction_row (m : Regex.result) : option value :=
  match non_empty (group m 1), non_empty (group m 2),
        non_empty (group m 3) with
  | Some date, Some description, Some amountStr =>
      let amount := B64.parseFloat (without_commas amountStr) in
      let amount :=
        match non_empty (group m 4) with
        | Some _ => SFopp amount
        | None => amount
        end in
      Some (VObj [ ("date", VStr (Str.trim date));
                   ("description", VStr (Str.trim description));
                   ("amount", VNum amount) ])
  | _, _, _ => None
  end.

Definition extractTransactionsFromText (text : string) : value :=
  let transactions :=
    match exec transactionSection text with
    | Some section =>
        match non_empty (group section 1) with
        | Some transactionText =>
            fold_left
              (fun transactions m =>
                 match transaction_row m with
                 | Some row => (transactions ++ [row])%list
                 | None => transactions
                 end)
              (exec_all transactionPattern transactionText) []
        | None => []
        end
    | None => []
    end in
  VArr transactions [].

Definition name_chars : re :=
  plus (Char (fun c => Str.is_alpha c || Str.is_space c || Ascii.eqb c ".")).

Definition not_email : re := Ahead false (Seq (star space) (lit_i "email")).

Definition line_feed : re := chr (Str.chr 10).

Definition labelled_name (label : string) : re :=
  seq [lit_i label; colon_gap; Group 1 (Seq name_chars not_email);
       Alt line_feed (Eol false)].

(** Enhanced name patterns that exclude "email". *)
Definition namePatterns : list re :=
  [ labelled_name "Customer Name";
    labelled_name "Cardholder";
    labelled_name "Name";
    seq [Bol true; Group 1 (Seq name_chars not_email);
         seq [line_feed; lazy_star dot; lit_i "Credit Card"]] ].

Definition trailing_email : re :=
  seq [star space; lit_i "email"; star space; Eol false].

Definition bankPatterns : list re :=
  [ Group 1 (alt [lit_i "HDFC Bank"; lit_i "ICICI Bank"; lit_i "Axis Bank";
                  lit_i "IDFC FIRST Bank"; lit_i "RBL Bank"; lit_i "SBI Card";
                  lit_i "Kotak Bank"; lit_i "Standard Chartered"]);
    Group 1 (Seq (plus (Char Str.is_alpha)) (lit_i " Bank Limited"));
    Group 1 (Seq (plus (Char Str.is_alpha)) (lit_i " Card Services")) ].

(** The customer name found in [text], when a pattern matches. *)
Definition customer_name_of (text : string) : option string :=
  first_pattern namePatterns (fun pattern =>
    match exec pattern text with
    | Some m =>
        match non_empty (group m 1) with
        | Some g =>
            let name := Str.trim g in
            (* Additional cleanup to remove any potential "email" that
               might have been captured *)
            let name := Str.trim (Regex.replace trailing_email removed name) in
            Some name
        | None => None
        end
    | None => None
    end).

Definition bank_name_of (text : string) : option string :=
  first_pattern bankPatterns (fun pattern =>
    match exec pattern text with
    | Some m =>
        match non_empty (group m 1) with
        | Some g => Some (Str.trim g)
        | None => None
        end
    | None => None
    end).

Definition extractCustomerInfoFromText (text : string) : obj :=
  [ ("customer_name", of_option (customer_name_of text));
    ("bank_name", of_option (bank_name_of text)) ].

Definition date_tail : re :=
  seq [star (Char (fun c => Str.is_space c || Ascii.eqb c ":"));
       Group 1 (seq [digit; opt digit; chr "/"; digit; opt digit; chr "/";
                     times 4 digit])].

Definition datePatterns : list (string * re) :=
  [ ("statement_date",
     Seq (alt [lit_i "Statement Date"; lit_i "Date"]) date_tail);
    ("payment_due_date",
     Seq (alt [lit_i "Payment Due Date"; lit_i "Due Date"]) date_tail) ].

Definition extractDatesFromText (text : string) : obj :=
  fold_left
    (fun dateData entry =>
       match exec (snd entry) text with
       | Some m =>
           match non_empty (group m 1) with
           | Some g => set dateData (fst entry) (VStr g)
           | None => dateData
           end
       | None => dateData
       end)
    datePatterns
    [ ("statement_date", VNull); ("payment_due_date", VNull) ].

(** The literal [0.05]. *)
Definition lit_0_05 : spec_float := Eval vm_compute in B64.of_string "0.05".

Definition isValidData (value : value) : bool :=
  if is_null value || is_undefined value then false
  else if String.eqb (typeof value) "number" && isNaN value then false
  else if String.eqb (typeof value) "number" && strict_equal value (num 0)
  then true
  else if Array_isArray value && Nat.eqb (length_of value) 0 then false
  else if String.eqb (typeof value) "object"
          && Nat.eqb (List.length (Object_keys value)) 0
  then false
  else if String.eqb (typeof value) "string"
          && Str.includes ["null"; "na"; "n/a"; ""; "undefined"]
               (toLowerCase value)
  then false
  else true.

Definition createCompleteFallbackData : obj :=
  [ ("customer_name", VNull);
    ("statement_date", VNull);
    ("payment_due_date", VNull);
    ("total_amount_due", VNull);
    ("minimum_amount_due", VNull);
    ("credit_limit", VNull);
    ("available_credit_limit", VNull);
    ("card_number", VNull);
    ("transactions", VArr [] []);
    ("reward_points_summary",
      VObj [ ("opening_balance", VNull);
             ("earned", VNull);
             ("closing_balance", VNull) ]);
    ("bank_name", VNull) ].

Definition codeBlock : re :=
  seq [lit "```"; opt (lit "json"); star space;
       Group 1 (seq [chr "{"; lazy_star any; chr "}"]);
       star space; lit "```"].

Definition jsonObject : re := seq [chr "{"; star any; chr "}"].

(** [JSON.parse] of a text that starts with an opening brace, as both
    texts parsed below do: the object parsed, or the SyntaxError. *)
Definition parse_record (jsonStr : string) : completion obj :=
  match JSON.parse jsonStr with
  | Some (VObj o) => Normal o
  | _ => Throws SyntaxError
  end.

Definition quoted_key (m : Regex.result) : string :=
  let q := String JSON.quote "" in
  match group m 1 with
  | Some g => q ++ g ++ q ++ ":"
  | None => q ++ q ++ ":"
  end.

(** Clean JSON string. *)
Definition clean_json (jsonStr : string) : string :=
  let jsonStr :=
    replace_all (seq [chr ","; star space; chr "}"]) (fun _ => "}") jsonStr in
  let jsonStr :=
    replace_all (seq [chr ","; star space; chr "]"]) (fun _ => "]") jsonStr in
  let jsonStr :=
    replace_all (seq [Group 1 (plus word); chr ":"]) quoted_key jsonStr in
  let jsonStr :=
    replace_all (chr "'") (fun _ => String JSON.quote "") jsonStr in
  Regex.replace
    (seq [Bol false; star (Char (fun c => negb (Ascii.eqb c "{")))])
    removed jsonStr.

(** [try { ... } catch (error) { handler }]. *)
Definition try_catch {A : Type} (body : completion A)
  (handler : exn -> completion A) : completion A :=
  match body with
  | Normal a => Normal a
  | Throws e => handler e
  end.

Definition extractJsonFromResponse (response : string) : obj :=
  let attempt : completion (option obj) :=
    try_catch
      (match exec codeBlock response with
       | Some codeBlockMatch =>
           match group codeBlockMatch 1 with
           | Some jsonStr => o <- parse_record jsonStr ;; Normal (Some o)
           | None => Throws SyntaxError
           end
       | None =>
           match exec jsonObject response with
           | Some jsonMatch =>
               o <- parse_record (clean_json (matched jsonMatch)) ;;
               Normal (Some o)
           | None => Normal None
           end
       end)
      (fun _ => Normal None) in
  match attempt with
  | Normal (Some o) => o
  | _ => createCompleteFallbackData
  end.

(** The body of the loop [for (const field in validatedData)]. *)
Definition validate_field (data validatedData : obj) (field : string)
  : completion obj :=
  if has data field && isValidData (get data field) then
    if String.eqb field "reward_points_summary"
       && String.eqb (typeof (get data field)) "object"
    then
      ob <- member (get data field) "opening_balance" ;;
      ea <- member (get data field) "earned" ;;
      cb <- member (get data field) "closing_balance" ;;
      Normal (set validatedData "reward_points_summary"
                (VObj [ ("opening_balance", nullish ob VNull);
                        ("earned", nullish ea VNull);
                        ("closing_balance", nullish cb VNull) ]))
    else Normal (set validatedData field (get data field))
  else Normal validatedData.

(** [isValidData(v.k)]. *)
Definition valid_member (v : value) (k : string) : completion bool :=
  x <- member v k ;; Normal (isValidData x).

(** [a && b] on conditions whose evaluation may throw. *)
Definition and_then (a b : completion bool) : completion bool :=
  x <- a ;; if x then b else Normal false.

Definition not_ (a : completion bool) : completion bool :=
  x <- a ;; Normal (negb x).

(** Calculate available credit if missing. *)
Definition derive_available_credit (validatedData : obj) : completion obj :=
  if isValidData (get validatedData "credit_limit")
     && isValidData (get validatedData "total_amount_due")
     && negb (isValidData (get validatedData "available_credit_limit"))
  then
    v <- sub (get validatedData "credit_limit")
             (get validatedData "total_amount_due") ;;
    Normal (set validatedData "available_credit_limit" v)
  else Normal validatedData.

(** Calculate closing reward balance if missing.  [rewardSummary] is the
    object held by [validatedData.reward_points_summary]: the assignment
    to its property is seen through [validatedData]. *)
Definition derive_closing_balance (validatedData : obj) : completion obj :=
  let rewardSummary := get validatedData "reward_points_summary" in
  c <- and_then (valid_member rewardSummary "opening_balance")
         (and_then (valid_member rewardSummary "earned")
                   (not_ (valid_member rewardSummary "closing_balance"))) ;;
  if c then
    ob <- member rewardSummary "opening_balance" ;;
    ea <- member rewardSummary "earned" ;;
    v <- add ob ea ;;
    rewardSummary' <- assign_member rewardSummary "closing_balance" v ;;
    Normal (set validatedData "reward_points_summary" rewardSummary')
  else Normal validatedData.

(** Set minimum amount due as 5% of total amount due if missing. *)
Definition derive_minimum_due (validatedData : obj) : completion obj :=
  if isValidData (get validatedData "total_amount_due")
     && negb (isValidData (get validatedData "minimum_amount_due"))
  then
    a <- mul (get validatedData "total_amount_due") (VNum lit_0_05) ;;
    b <- mul a (num 100) ;;
    r <- Math_round b ;;
    v <- div r (num 100) ;;
    Normal (set validatedData "minimum_amount_due" v)
  else Normal validatedData.

Definition finalValidationAndCalculation (data : obj) : completion obj :=
  let validatedData := createCompleteFallbackData in
  validatedData <-
    for_of (keys validatedData) (validate_field data) validatedData ;;
  validatedData <- derive_available_credit validatedData ;;
  validatedData <- derive_closing_balance validatedData ;;
  validatedData <- derive_minimum_due validatedData ;;
  Normal validatedData.

Definition highPriorityFields : list string :=
  ["customer_name"; "card_number"; "bank_name"; "transactions"].

Definition financialFields : list string :=
  ["total_amount_due"; "minimum_amount_due"; "credit_limit";
   "available_credit_limit"].

Definition dateFields : list string :=
  ["statement_date"; "payment_due_date"].

Definition rewardFields : list string :=
  ["opening_balance"; "earned"; "closing_balance"].

(** The body of the loop over [highPriorityFields]. *)
Definition high_priority_step (patternData mergedData : obj)
  (field : string) : completion obj :=
  if truthy (get patternData field) && isValidData (get patternData field)
  then
    longer <-
      (if String.eqb field "transactions"
          && Array_isArray (get patternData field)
       then
         len <- member (get patternData field) "length" ;;
         cur <- optional_member (get mergedData field) "length" ;;
         gt len (or_else cur (num 0))
       else Normal false) ;;
    if longer then Normal (set mergedData field (get patternData field))
    else if negb (String.eqb field "transactions")
    then Normal (set mergedData field (get patternData field))
    else Normal mergedData
  else Normal mergedData.

(** The body of the loops over [financialFields] and over [dateFields]:
    the two bodies are the same text. *)
Definition fill_step (patternData mergedData : obj) (field : string) : obj :=
  if truthy (get patternData field) && isValidData (get patternData field)
  then
    if negb (truthy (get mergedData field))
       || negb (isValidData (get mergedData field))
    then set mergedData field (get patternData field)
    else mergedData
  else mergedData.

(** The body of the loop over [rewardFields].  The summary object of
    [mergedData] is updated in place; the record returned holds the
    updated object. *)
Definition reward_step (patternData mergedData : obj) (field : string)
  : completion obj :=
  patternValue <- member (get patternData "reward_points_summary") field ;;
  if truthy patternValue && isValidData patternValue then
    let summary := get mergedData "reward_points_summary" in
    missing <-
      (if negb (truthy summary) then Normal true
       else
         cur <- member summary field ;;
         Normal (negb (truthy cur) || negb (isValidData cur))) ;;
    if missing then
      let mergedData :=
        if negb (truthy summary)
        then set mergedData "reward_points_summary" (VObj [])
        else mergedData in
      summary' <-
        assign_member (get mergedData "reward_points_summary") field
          patternValue ;;
      Normal (set mergedData "reward_points_summary" summary')
    else Normal mergedData
  else Normal mergedData.

Definition robustDataMerging (aiData patternData : obj) : completion obj :=
  let mergedData := aiData in
  mergedData <-
    for_of highPriorityFields (high_priority_step patternData) mergedData ;;
  let mergedData := fold_left (fill_step patternData) financialFields mergedData in
  let mergedData := fold_left (fill_step patternData) dateFields mergedData in
  if truthy (get patternData "reward_points_summary") then
    for_of rewardFields (reward_step patternData) mergedData
  else Normal mergedData.

(** [{ ...a, ...b }]: the properties of [b] are written over [a]. *)
Definition spread (a b : obj) : obj :=
  fold_left (fun acc kv => set acc (fst kv) (snd kv)) b a.

Definition patternMatchedData (extractedText : string) : obj :=
  let cardNumber := extractCardNumberFromText extractedText in
  let financialData := extractFinancialDataFromText extractedText in
  let rewardPoints := extractRewardPointsFromText extractedText in
  let transactions := extractTransactionsFromText extractedText in
  let customerInfo := extractCustomerInfoFromText extractedText in
  let datesInfo := extractDatesFromText extractedText in
  set (set (set (spread (spread (spread [] customerInfo) datesInfo)
                   financialData)
              "card_number" (of_option cardNumber))
         "transactions" transactions)
    "reward_points_summary" rewardPoints.

(** The body of the loop of the [catch] block. *)
Definition fallback_field (patternMatchedData fallbackData : obj)
  (field : string) : obj :=
  if has patternMatchedData field
     && isValidData (get patternMatchedData field)
  then
    if String.eqb field "reward_points_summary"
       && String.eqb (typeof (get patternMatchedData field)) "object"
    then set fallbackData field (get patternMatchedData field)
    else set fallbackData field (get patternMatchedData field)
  else fallbackData.

(** [gemini] is the outcome of [await callGeminiApi(prompt)]: the text of
    the response (or the text that [callGeminiApi] makes of a failed
    request), or the exception it throws when no key is configured. *)
Definition extract10DataPointsWithGemini (gemini : completion string)
  (extractedText : string) : completion obj :=
  let patternMatchedData := patternMatchedData extractedText in
  try_catch
    (response <- gemini ;;
     let extractedData := extractJsonFromResponse response in
     mergedData <- robustDataMerging extractedData patternMatchedData ;;
     finalValidationAndCalculation mergedData)
    (fun _ =>
       let fallbackData := createCompleteFallbackData in
       let fallbackData :=
         fold_left (fallback_field patternMatchedData)
           (keys fallbackData) fallbackData in
       finalValidationAndCalculation fallbackData).

(** What the session store keeps for one processed document: the text,
    and the extracted record once it is computed. *)
Record session : Type := {
  text : string;
  extracted_10_data : option obj
}.

Definition sessions : Type := list (string * session).

Fixpoint find_session (id : string) (store : sessions) : option session :=
  match store with
  | [] => None
  | (k, c) :: r => if String.eqb id k then Some c else find_session id r
  end.

Fixpoint put_session (id : string) (c : session) (store : sessions)
  : sessions :=
  match store with
  | [] => [(id, c)]
  | (k, c') :: r =>
      if String.eqb id k then (k, c) :: r else (k, c') :: put_session id c r
  end.

(** [NextResponse.json(body, { status })]. *)
Record response : Type := {
  status : Z;
  body : obj
}.

(** [error.message]: the text of an [Error] of the route; the wording of
    an exception of the engine is represented by its name. *)
Definition message_of (e : exn) : string :=
  match e with
  | Error message => message
  | TypeError => "TypeError"
  | SyntaxError => "SyntaxError"
  end.

(** The handler of [?action=ocr10], for a request whose body holds the
    string [session_id].  The store is a table of the sessions written by
    the handler of [?action=ocr]: an identifier that names a property of
    [Object.prototype] is not looked up there. *)
Definition handleOCR10 (extractedContents : sessions) (session_id : string)
  (gemini : completion string) : sessions * response :=
  if String.eqb session_id "" then
    (extractedContents,
     {| status := 400;
        body := [("error", VStr "session_id is required")] |})
  else
    match find_session session_id extractedContents with
    | None =>
        (extractedContents,
         {| status := 404; body := [("error", VStr "Session not found")] |})
    | Some storedContent =>
        let extractedText := text storedContent in
        if String.eqb extractedText "" then
          (extractedContents,
           {| status := 400;
              body := [("error",
                        VStr "No text found in the session to process")] |})
        else
          match extract10DataPointsWithGemini gemini extractedText with
          | Normal extracted10Data =>
              (put_session session_id
                 {| text := extractedText;
                    extracted_10_data := Some extracted10Data |}
                 extractedContents,
               {| status := 200;
                  body :=
                    [ ("success", VBool true);
                      ("session_id", VStr session_id);
                      ("extracted_data", VObj extracted10Data);
                      ("message",
                       VStr "10 data points extracted successfully") ] |})
          | Throws error =>
              (extractedContents,
               {| status := 500;
                  body :=
                    [ ("success", VBool false);
                      ("session_id", VStr "unknown");
                      ("extracted_data", VObj createCompleteFallbackData);
                      ("message",
                       VStr ("Error extracting data: " ++ message_of error)) ] |})
          end
    end.

End Route.

(** ** The route: the request to the language model and the handlers

    What the handlers receive from outside is an input of the model: the
    outcome of [request.json()] and of [request.formData()], the outcome
    of [fetch] with the status and the body of its response, the text of
    [Math.random().toString(36)] and the number of [Date.now()].  The
    prompt is text sent with the request and has no part in what the
    handler returns, but for the conversion of the question to a string,
    which may throw.  Every exception of the model is an [Error]. *)

Module Service.
Import JS Route.

(** [v[0]]. *)
Definition first_element (v : value) : completion value :=
  match v with
  | VUndefined | VNull => Throws TypeError
  | VBool _ | VNum _ => Normal VUndefined
  | VStr s =>
      Normal match s with
             | String c _ => VStr (String c "")
             | EmptyString => VUndefined
             end
  | VArr elems _ =>
      Normal match elems with
             | x :: _ => x
             | [] => VUndefined
             end
  | VObj props => Normal (get props "0")
  end.

(** [result.candidates[0]?.content?.parts[0]?.text]: a null or undefined
    candidate or content ends the chain with undefined. *)
Definition candidate_text (result : value) : completion value :=
  candidates <- member result "candidates" ;;
  candidate <- first_element candidates ;;
  match candidate with
  | VUndefined | VNull => Normal VUndefined
  | _ =>
      content <- member candidate "content" ;;
      match content with
      | VUndefined | VNull => Normal VUndefined
      | _ =>
          parts <- member content "parts" ;;
          part <- first_element parts ;;
          optional_member part "text"
      end
  end.

(** The response of [fetch]: [response.ok], [response.status], and the
    outcomes of [await response.text()] and [await response.json()]. *)
Record fetched : Type := {
  ok : bool;
  status_number : spec_float;
  text_outcome : completion string;
  json_outcome : completion value
}.

(** [GEMINI_API_KEY] is [process.env.GEMINI_API_KEY]: a text, or
    undefined.  [fetch] is the outcome of the request. *)
Definition callGeminiApi (GEMINI_API_KEY : option string)
  (fetch : completion fetched) : completion value :=
  if match GEMINI_API_KEY with
     | Some key => String.eqb key ""
     | None => true
     end
  then Throws (Error "GEMINI_API_KEY is not configured")
  else
    try_catch
      (response <- fetch ;;
       if negb (ok response) then
         text <- text_outcome response ;;
         Throws (Error ("API error: " ++ B64.to_string (status_number response)
                        ++ " - " ++ text))
       else
         result <- json_outcome response ;;
         text <- candidate_text result ;;
         Normal (or_else text (VStr "No response from AI")))
      (fun error =>
         Normal (VStr ("API call failed: " ++ message_of error))).

(** What [extract10DataPointsWithGemini] gets from [callGeminiApi]: the
    text of the response, on which [substring] and [match] are called; a
    value that is no string has neither method. *)
Definition response_text (answered : completion value) : completion string :=
  response <- answered ;;
  match response with
  | VStr s => Normal s
  | _ => Throws TypeError
  end.

(** The handler of [?action=chat]. *)
Definition handleGeneralChat (request_json : completion value)
  (GEMINI_API_KEY : option string) (fetch : completion fetched) : response :=
  match
    (parsed <- request_json ;;
     question <- member parsed "question" ;;
     asked <- ToString question ;;
     answer <- callGeminiApi GEMINI_API_KEY fetch ;;
     Normal {| status := 200;
               body := [ ("success", VBool true); ("answer", answer) ] |})
  with
  | Normal response => response
  | Throws error =>
      {| status := 500;
         body := [ ("success", VBool false);
                   ("answer", VStr ("Error: " ++ message_of error)) ] |}
  end.

(** The names of the properties of [Object.prototype], which the store
    inherits: each is a function, or the prototype itself. *)
Definition prototype_names : list string :=
  [ "constructor"; "hasOwnProperty"; "isPrototypeOf";
    "propertyIsEnumerable"; "toLocaleString"; "toString"; "valueOf";
    "__proto__"; "__defineGetter__"; "__defineSetter__";
    "__lookupGetter__"; "__lookupSetter__" ].

(** [!extractedContents[key]]. *)
Definition no_content (extractedContents : sessions) (key : string) : bool :=
  match find_session key extractedContents with
  | Some _ => false
  | None => negb (Str.includes prototype_names key)
  end.

(** The handler of [?action=chatwithpdf]. *)
Definition handleChatWithPDF (extractedContents : sessions)
  (request_json : completion value) (GEMINI_API_KEY : option string)
  (fetch : completion fetched) : response :=
  match
    (parsed <- request_json ;;
     question <- member parsed "question" ;;
     given <- member parsed "session_id" ;;
     let session_id :=
       match given with VUndefined => VStr "default" | _ => given end in
     key <- ToString session_id ;;
     if no_content extractedContents key then
       Normal {| status := 404;
                 body := [ ("error",
                            VStr "Session not found. Please process a PDF first.") ] |}
     else
       asked <- ToString question ;;
       answer <- callGeminiApi GEMINI_API_KEY fetch ;;
       Normal {| status := 200;
                 body := [ ("success", VBool true); ("answer", answer);
                           ("session_id", session_id) ] |})
  with
  | Normal response => response
  | Throws error =>
      {| status := 500;
         body := [ ("success", VBool false);
                   ("answer",
                    VStr ("Error processing your request: "
                          ++ message_of error));
                   ("session_id", VStr "default") ] |}
  end.

(** [formData.get('file')]: nothing, the text of a field, or a file with
    its name and the outcome of [file.arrayBuffer()]. *)
Inductive form_entry : Type :=
| NoEntry
| TextEntry (s : string)
| FileEntry (name : string) (arrayBuffer : completion unit).

Definition line_break : string := String (Str.chr 10) "".

(** The text that stands for the text of the PDF. *)
Definition mockExtractedText (name : string) : string :=
  String.concat line_break
    [ "";
      "    Credit Card Statement - " ++ name;
      "    ";
      "    IMPORTANT: This is a simulated extraction. In a real implementation,";
      "    you would use a proper PDF processing library to extract text from the actual PDF.";
      "    ";
      "    For now, this serves as a placeholder to demonstrate the data flow.";
      "    ";
      "    To implement real PDF processing, install a library like:";
      "    - pdf-parse: npm install pdf-parse";
      "    - pdf.js: npm install pdfjs-dist";
      "    - or use a cloud OCR service";
      "    ";
      "    Then replace this mock extraction with actual PDF text extraction.";
      "    " ].

Record processed : Type := {
  pdf_text : string;
  tables : list value;
  imagesCount : Z
}.

(** The text of a form field has no method [arrayBuffer]. *)
Definition processPDF (file : form_entry) : completion processed :=
  try_catch
    (match file with
     | FileEntry name arrayBuffer =>
         buffer <- arrayBuffer ;;
         Normal {| pdf_text := mockExtractedText name; tables := [];
                   imagesCount := 0 |}
     | _ => Throws TypeError
     end)
    (fun error =>
       Throws (Error ("Failed to process PDF: " ++ message_of error))).

Definition digit36 (d : Z) : ascii :=
  if d <? 10 then Str.chr (48 + d) else Str.chr (87 + d).

Fixpoint digits36 (fuel : nat) (z : Z) (acc : list ascii) : list ascii :=
  match fuel with
  | O => acc
  | S f =>
      let acc' := digit36 (z mod 36) :: acc in
      if z <? 36 then acc' else digits36 f (z / 36) acc'
  end.

(** [z.toString(36)] for an integer [z]. *)
Definition to_base36 (z : Z) : string :=
  let digits n := Str.pack (digits36 (S (Z.to_nat (Z.log2 n))) n []) in
  if z <? 0 then String "-" (digits (- z)) else digits z.

(** [s.substring(n)]. *)
Definition substring_from (n : nat) (s : string) : string :=
  Str.pack (skipn n (Str.chars s)).

(** The body of a response of [?action=ocr] that reports a failure. *)
Definition ocr_failure (status : Z) (message : string) : response :=
  {| status := status;
     body := [ ("success", VBool false); ("extracted_text", VStr "");
               ("tables", VArr [] []); ("images_count", num 0);
               ("session_id", VStr ""); ("message", VStr message) ] |}.

(** The handler of [?action=ocr].  [random] is the text of
    [Math.random().toString(36)], a zero, a point and digits; [now] is
    [Date.now()].  Of the content stored for the session, the store of
    the model keeps what the other handlers read. *)
Definition handleOCR (extractedContents : sessions)
  (formData : completion form_entry) (random : string) (now : Z)
  : sessions * response :=
  match formData with
  | Throws error =>
      (extractedContents,
       ocr_failure 500 ("Error processing PDF: " ++ message_of error))
  | Normal file =>
      if match file with
         | NoEntry => true
         | TextEntry s => String.eqb s ""
         | FileEntry _ _ => false
         end
      then (extractedContents, ocr_failure 400 "No file provided")
      else
        let sessionId := substring_from 2 random ++ to_base36 now in
        match processPDF file with
        | Normal result =>
            let extractedText := pdf_text result in
            (put_session sessionId
               {| text := extractedText; extracted_10_data := None |}
               extractedContents,
             {| status := 200;
                body :=
                  [ ("success", VBool true);
                    ("extracted_text",
                     VStr (Str.substring_to 1000 extractedText
                           ++ (if Nat.ltb 1000 (String.length extractedText)
                               then "..." else "")));
                    ("tables", VArr (tables result) []);
                    ("images_count", num (imagesCount result));
                    ("session_id", VStr sessionId);
                    ("message", VStr "PDF processed successfully") ] |})
        | Throws processingError =>
            (extractedContents,
             ocr_failure 500
               ("PDF processing failed: " ++ message_of processingError))
        end
  end.

End Service.

(** ** Definitions for the statements

    The Validator in the words of the specification, the rules that merge
    applies to one field, the values that finalization derives, and the
    records at which the route is evaluated below. *)

Module Model.
Import JS Route.

(** The Validator, in the words of the specification. *)
Definition isUsable (v : value) : bool :=
  match v with
  | VNull | VUndefined => false
  | VNum x => negb (B64.is_nan x)
  | VArr [] _ => false
  | VObj [] => false
  | VStr s =>
      negb (existsb (fun w => String.eqb (Str.toLowerCase s) (Str.toLowerCase w))
              ["null"; "na"; "n/a"; ""; "undefined"])
  | _ => true
  end.

(** [v.k] when [v] is not null or undefined. *)
Definition prop (v : value) (k : string) : value :=
  match member v k with Normal x => x | Throws _ => VUndefined end.

(** The field that finalization keeps: the value when it is usable, the
    default otherwise. *)
Definition pick (v d : value) : value := if isValidData v then v else d.

(** The summary that finalization builds from a usable object. *)
Definition summary_triple (v : value) : value :=
  VObj [ ("opening_balance", nullish (prop v "opening_balance") VNull);
         ("earned", nullish (prop v "earned") VNull);
         ("closing_balance", nullish (prop v "closing_balance") VNull) ].

(** The summary that the validation loop leaves in the record. *)
Definition pick_summary (v d : value) : value :=
  if isValidData v
  then if String.eqb (typeof v) "object" then summary_triple v else v
  else d.

(** The record after the validation loop. *)
Definition validated (data : obj) : obj :=
  map (fun '(k, d) =>
         (k, if String.eqb k "reward_points_summary"
             then pick_summary (get data k) d
             else pick (get data k) d))
      createCompleteFallbackData.

(** The derivation of available_credit_limit, on the values it reads. *)
Definition derived_available (c t a : value) : completion value :=
  if isValidData c && isValidData t && negb (isValidData a)
  then sub c t else Normal a.

(** The derivation of closing_balance, on the summary it reads and
    updates. *)
Definition derived_summary (s : value) : completion value :=
  c <- and_then (valid_member s "opening_balance")
         (and_then (valid_member s "earned")
                   (not_ (valid_member s "closing_balance"))) ;;
  if c then
    ob <- member s "opening_balance" ;;
    ea <- member s "earned" ;;
    v <- add ob ea ;;
    assign_member s "closing_balance" v
  else Normal s.

(** [Math.round(t * 0.05 * 100) / 100]. *)
Definition minimum_of (t : value) : completion value :=
  a <- mul t (VNum lit_0_05) ;;
  b <- mul a (num 100) ;;
  r <- Math_round b ;;
  div r (num 100).

(** The derivation of minimum_amount_due, on the values it reads. *)
Definition derived_minimum (t m : value) : completion value :=
  if isValidData t && negb (isValidData m) then minimum_of t else Normal m.

(** A validated field whose default is null. *)
Definition field (data : obj) (k : string) : value :=
  pick (get data k) VNull.

(** A record with the eleven keys of the data model, in the order of
    [createCompleteFallbackData]. *)
Definition shape (cn sd pd t m c a card tx s bank : value) : obj :=
  [ ("customer_name", cn);
    ("statement_date", sd);
    ("payment_due_date", pd);
    ("total_amount_due", t);
    ("minimum_amount_due", m);
    ("credit_limit", c);
    ("available_credit_limit", a);
    ("card_number", card);
    ("transactions", tx);
    ("reward_points_summary", s);
    ("bank_name", bank) ].

(** The finalized record, given its three derived values. *)
Definition finalized (data : obj) (a s m : value) : obj :=
  shape (field data "customer_name") (field data "statement_date")
    (field data "payment_due_date") (field data "total_amount_due") m
    (field data "credit_limit") a (field data "card_number")
    (pick (get data "transactions") (VArr [] [])) s
    (field data "bank_name").

(** The summary of [createCompleteFallbackData]. *)
Definition default_summary : value :=
  VObj [ ("opening_balance", VNull); ("earned", VNull);
         ("closing_balance", VNull) ].

(** Finalization in closed form: the validated fields, then the three
    derivations in the order of the source. *)
Definition finalize_spec (data : obj) : completion obj :=
  a <- derived_available (field data "credit_limit")
         (field data "total_amount_due")
         (field data "available_credit_limit") ;;
  s <- derived_summary
         (pick_summary (get data "reward_points_summary") default_summary) ;;
  m <- derived_minimum (field data "total_amount_due")
         (field data "minimum_amount_due") ;;
  Normal (finalized data a s m).

(** A pattern value is assigned only when it is truthy and usable. *)
Definition assignable (p : value) : bool := truthy p && isValidData p.

(** The merged value of customer_name, card_number and bank_name, from
    the llm value [l] and the pattern value [p]. *)
Definition hp_rule (l p : value) : value := if assignable p then p else l.

(** The merged value of a financial-amount or date field. *)
Definition fill_rule (l p : value) : value :=
  if assignable p
  then if negb (truthy l) || negb (isValidData l) then p else l
  else l.

(** Does the pattern list replace the transactions [l]? *)
Definition tx_longer (l p : value) : completion bool :=
  if assignable p then
    if Array_isArray p then
      len <- member p "length" ;;
      cur <- optional_member l "length" ;;
      gt len (or_else cur (num 0))
    else Normal false
  else Normal false.

(** One step of the reward loop, on the summary object alone. *)
Definition reward_value_step (prps summary : value) (field : string)
  : completion value :=
  pv <- member prps field ;;
  if assignable pv then
    missing <-
      (if negb (truthy summary) then Normal true
       else
         cur <- member summary field ;;
         Normal (negb (truthy cur) || negb (isValidData cur))) ;;
    if missing
    then assign_member (if negb (truthy summary) then VObj [] else summary)
           field pv
    else Normal summary
  else Normal summary.

(** The reward loop, on the summary object alone. *)
Definition summary_value (prps summary : value) : completion value :=
  if truthy prps
  then for_of rewardFields (reward_value_step prps) summary
  else Normal summary.

(** A step of the high-priority loop for a field other than
    transactions. *)
Definition plain_step (pat acc : obj) (f : string) : obj :=
  if assignable (get pat f) then set acc f (get pat f) else acc.

(** The step of the high-priority loop for transactions, once the
    comparison of the lengths is made. *)
Definition tx_step (pat acc : obj) (longer : bool) : obj :=
  if longer then set acc "transactions" (get pat "transactions") else acc.

(** The fields of a record whose summary is replaced by [s]. *)
Definition with_summary (acc : obj) (s : value) (k : string) : value :=
  if String.eqb k "reward_points_summary" then s else get acc k.

(** The fields of the merged record, given the outcome [longer] of the
    comparison of the lengths and the merged summary [s]. *)
Definition merge_get (llm pat : obj) (longer : bool) (s : value)
  (k : string) : value :=
  if String.eqb k "reward_points_summary" then s
  else if Str.includes (financialFields ++ dateFields)%list k
  then fill_rule (get llm k) (get pat k)
  else if String.eqb k "transactions"
  then (if longer then get pat k else get llm k)
  else if Str.includes ["customer_name"; "card_number"; "bank_name"] k
  then hp_rule (get llm k) (get pat k)
  else get llm k.

(** The two parts of merge that may throw. *)
Definition merge_effects (llm pat : obj) : completion (bool * value) :=
  longer <- tx_longer (get llm "transactions") (get pat "transactions") ;;
  s <- summary_value (get pat "reward_points_summary")
         (get llm "reward_points_summary") ;;
  Normal (longer, s).

(** An llm record whose amount is 0, and a pattern record with another
    amount. *)
Definition zero_llm : obj := [("total_amount_due", num 0)].
Definition zero_pat : obj := [("total_amount_due", num 500)].

(** A value that is no object: arithmetic on it never throws. *)
Definition primitive (v : value) : bool :=
  match v with VObj _ | VArr _ _ => false | _ => true end.

(** A summary object with its three sub-fields. *)
Definition triple (ob ea cb : value) : value :=
  VObj [("opening_balance", ob); ("earned", ea); ("closing_balance", cb)].

(** The operands of the derivations are primitive values. *)
Definition primitive_operands (data : obj) : bool :=
  primitive (get data "credit_limit")
  && primitive (get data "total_amount_due")
  && primitive (prop (get data "reward_points_summary") "opening_balance")
  && primitive (prop (get data "reward_points_summary") "earned").

(** The top-level fields that finalization may derive. *)
Definition derived_fields : list string :=
  ["available_credit_limit"; "minimum_amount_due"].

(** An unusable string, such as ["n/a"]. *)
Definition placeholder_string (v : value) : bool :=
  match v with VStr _ => negb (isValidData v) | _ => false end.

(** An empty list, whatever its other properties. *)
Definition empty_list (v : value) : bool :=
  match v with VArr [] _ => true | _ => false end.

(** An object or a list. *)
Definition object_like (v : value) : bool :=
  match v with VObj _ | VArr _ _ => true | _ => false end.

(** [finalValidationAndCalculation(robustDataMerging(llm, pattern))]. *)
Definition merge_then_finalize (llm pat : obj) : completion obj :=
  m <- robustDataMerging llm pat ;; finalValidationAndCalculation m.

(** An llm record whose transactions are a placeholder, and a pattern
    record with one row. *)
Definition placeholder_llm : obj := [("transactions", VStr "n/a")].
Definition one_row_pat : obj :=
  [("transactions",
     VArr [VObj [("date", VStr "12/04/2024");
                 ("description", VStr "AMAZON RETAIL");
                 ("amount", num 1499)]] [])].



(** [l'] is what is left of [l] after some characters. *)
Definition suffix (l' l : list ascii) : Prop := exists p, l = (p ++ l')%list.

(** The pattern [r] matches no text without the character [c]. *)
Definition needs (c : ascii) (r : Regex.re) : Prop :=
  forall st k, ~ In c (Regex.rest st) -> Regex.run r st k = None.

(** Every property of the record holds a primitive value. *)
Definition flat (o : obj) : Prop :=
  Forall (fun kv => primitive (snd kv) = true) o.

(** The types of the pattern-matched record that merge and finalization
    rely on. *)
Definition pattern_typed (pat : obj) : Prop :=
  primitive (get pat "credit_limit") = true
  /\ primitive (get pat "total_amount_due") = true
  /\ (exists rows, get pat "transactions" = VArr rows [])
  /\ exists ob ea cb,
       get pat "reward_points_summary" = triple ob ea cb
       /\ primitive ob = true /\ primitive ea = true /\ primitive cb = true.

(** The record that the [catch] block passes to finalization. *)
Definition pattern_only (pat : obj) : obj :=
  map (fun '(k, d) => (k, pick (get pat k) d)) createCompleteFallbackData.

(** The line feed, as a string. *)
Definition line_feed_string : string := String (Str.chr 10) "".

(** A statement whose name line is followed by a label that starts with
    "Email". *)
Definition name_then_email_label : string :=
  "Customer Name: John Doe" ++ line_feed_string ++ "Email Address".

(** Does the string hold the word "email", in any case? *)
Definition mentions_email (s : string) : bool :=
  match Regex.exec (Regex.lit_i "email") s with
  | Some _ => true
  | None => false
  end.



(** C3 as stated: every field and every sub-field of the summary is the
    default or a usable value. *)
Definition all_default_or_usable (r : obj) : Prop :=
  (forall k, In k (keys createCompleteFallbackData) ->
     get r k = get createCompleteFallbackData k
     \/ isValidData (get r k) = true)
  /\ forall f, In f rewardFields ->
       prop (get r "reward_points_summary") f = VNull
       \/ isValidData (prop (get r "reward_points_summary") f) = true.

(** A summary whose opening balance is a placeholder. *)
Definition placeholder_points : obj :=
  [("reward_points_summary",
    VObj [("opening_balance", VStr "null"); ("earned", num 5);
          ("closing_balance", num 7)])].

(** C8 as stated: the summary always has its three sub-keys and the
    transactions are always a list. *)
Definition full_key_set (r : obj) : Prop :=
  keys r = keys createCompleteFallbackData
  /\ Array_isArray (get r "transactions") = true
  /\ exists ps,
       get r "reward_points_summary" = VObj ps /\ keys ps = rewardFields.

(** A record whose transactions and summary are strings. *)
Definition textual_fields : obj :=
  [("transactions", VStr "see the attached statement");
   ("reward_points_summary", VStr "none")].

(** An llm record and a pattern record, and what merge and finalization
    return for them. *)
Definition sample_llm : obj :=
  [("customer_name", VStr "J. Doe");
   ("total_amount_due", num 12000);
   ("credit_limit", num 50000);
   ("transactions", VArr [] []);
   ("reward_points_summary",
    VObj [("opening_balance", num 100); ("earned", num 50)])].

Definition sample_pat : obj :=
  [("customer_name", VStr "John Doe");
   ("total_amount_due", num 0);
   ("minimum_amount_due", num 600);
   ("transactions",
    VArr [VObj [("date", VStr "12/04/2024");
                ("description", VStr "AMAZON RETAIL");
                ("amount", num 1499)]] []);
   ("reward_points_summary",
    VObj [("opening_balance", num 0); ("earned", num 50);
          ("closing_balance", VNull)])].

(** The record of a normal completion. *)
Definition result_of (c : completion obj) : obj :=
  match c with Normal r => r | Throws _ => [] end.


Definition sample_final : obj :=
  result_of (finalValidationAndCalculation sample_llm).

Definition sample_record : obj :=
  result_of (merge_then_finalize sample_llm sample_pat).

(** A statement text, and a response that holds no JSON. *)
Definition sample_text : string :=
  "Customer Name: John Doe" ++ line_feed_string
  ++ "Total Amount Due: 12,000.00" ++ line_feed_string
  ++ "Credit Limit: 50,000".

Definition prose : string := "I could not find any data in this statement.".

End Model.

(** ** What a pattern matches

    The matcher of [Regex] is a program; the relation [matches] says in
    the terms of the pattern alone which positions one match can lead
    to.  The static measures below are computed on a pattern: the
    characters its matches are made of, the least and the greatest number
    of characters of a match. *)

Module Semantics.
Import Regex.

Local Open Scope nat_scope.

(** The positions that the iterations of a quantified pattern lead to:
    every iteration consumes a character. *)
Inductive iterated (R : state -> state -> Prop) : state -> state -> Prop :=
| iterated_stop st : iterated R st st
| iterated_more st mid st' :
    R st mid -> List.length (rest mid) < List.length (rest st) ->
    iterated R mid st' -> iterated R st st'.

(** One match of [r] leads from the position [st] to the position
    [st'].  A lookahead is decided by the matcher itself. *)
Fixpoint matches (r : re) (st st' : state) {struct r} : Prop :=
  match r with
  | Empty => st' = st
  | Char p =>
      exists c tl,
        rest st = c :: tl /\ p c = true
        /\ st' = {| before := c :: before st; rest := tl; caps := caps st |}
  | Seq a b => exists mid, matches a st mid /\ matches b mid st'
  | Alt a b => matches a st st' \/ matches b st st'
  | Star _ a => iterated (matches a) st st'
  | Group n a => exists mid, matches a st mid /\ st' = capture n st mid
  | Ahead positive a =>
      match run a st Some with
      | Some s =>
          positive = true
          /\ st' = {| before := before st; rest := rest st; caps := caps s |}
      | None => positive = false /\ st' = st
      end
  | Bol multiline =>
      st' = st
      /\ match before st with
         | [] => True
         | c :: _ => (multiline && Str.is_newline c)%bool = true
         end
  | Eol multiline =>
      st' = st
      /\ match rest st with
         | [] => True
         | c :: _ => (multiline && Str.is_newline c)%bool = true
         end
  | WordBoundary => st' = st /\ xorb (word_before st) (word_after st) = true
  end.

(** The 256 code units of the model. *)
Definition all_ascii : list ascii := map ascii_of_nat (List.seq 0 256).

(** Every character that the class [p] accepts satisfies [P]. *)
Definition class_within (P p : ascii -> bool) : bool :=
  forallb (fun c => implb (p c) (P c)) all_ascii.

(** Every character that a match of [r] consumes satisfies [P]. *)
Fixpoint within (P : ascii -> bool) (r : re) : bool :=
  match r with
  | Char p => class_within P p
  | Seq a b | Alt a b => within P a && within P b
  | Star _ a | Group _ a => within P a
  | _ => true
  end.

(** Every match of [r] consumes a character that satisfies [P]. *)
Fixpoint requires (P : ascii -> bool) (r : re) : bool :=
  match r with
  | Char p => class_within P p
  | Seq a b => requires P a || requires P b
  | Alt a b => requires P a && requires P b
  | Group _ a => requires P a
  | _ => false
  end.

(** A number of characters of the class [P] that every match of [r]
    consumes. *)
Fixpoint least (P : ascii -> bool) (r : re) : nat :=
  match r with
  | Char p => if class_within P p then 1 else 0
  | Seq a b => least P a + least P b
  | Alt a b => Nat.min (least P a) (least P b)
  | Group _ a => least P a
  | _ => 0
  end.

(** The class of all characters. *)
Definition any_char (_ : ascii) : bool := true.

(** A bound on the number of characters of a match of [r], when the
    pattern has no quantifier. *)
Fixpoint most (r : re) : option nat :=
  match r with
  | Char _ => Some 1
  | Seq a b =>
      match most a, most b with
      | Some x, Some y => Some (x + y)
      | _, _ => None
      end
  | Alt a b =>
      match most a, most b with
      | Some x, Some y => Some (Nat.max x y)
      | _, _ => None
      end
  | Group _ a => most a
  | Star _ _ => None
  | _ => Some 0
  end.

(** The pattern has no group and no lookahead: a match leaves the
    captures as they are. *)
Fixpoint plain (r : re) : bool :=
  match r with
  | Seq a b | Alt a b => plain a && plain b
  | Star _ a => plain a
  | Group _ _ | Ahead _ _ => false
  | _ => true
  end.

(** The numbers of the groups of [r]. *)
Fixpoint group_ids (r : re) : list nat :=
  match r with
  | Seq a b | Alt a b => (group_ids a ++ group_ids b)%list
  | Star _ a | Ahead _ a => group_ids a
  | Group n a => n :: group_ids a
  | _ => []
  end.

(** The pattern of the group [n], when the group is one of the parts of
    a sequence and no other part holds a group [n]. *)
Fixpoint locate (n : nat) (r : re) : option re :=
  match r with
  | Group m a => if Nat.eqb m n then Some a else None
  | Seq a b =>
      match locate n a with
      | Some x =>
          if existsb (Nat.eqb n) (group_ids b) then None else Some x
      | None =>
          if existsb (Nat.eqb n) (group_ids a) then None else locate n b
      end
  | _ => None
  end.

(** [w] is the text between the positions [st] and [st']. *)
Definition span (st st' : state) (w : list ascii) : Prop :=
  rest st = (w ++ rest st')%list /\ before st' = (rev w ++ before st)%list.

(** The position at which a match attempt starts: [pre] is the text
    before it, last character first. *)
Definition start (pre l : list ascii) : state :=
  {| before := pre; rest := l; caps := [] |}.

End Semantics.

Module Shapes.
Import JS Route.

(** A character of a card number as the extractor returns it. *)
Definition card_char (c : ascii) : bool := Str.is_digit c || Ascii.eqb c "*".

(** A character of a date as the extractor returns it. *)
Definition date_char (c : ascii) : bool := Str.is_digit c || Ascii.eqb c "/".

(** A character of a customer name as the extractor returns it. *)
Definition name_char (c : ascii) : bool :=
  Str.is_alpha c || Str.is_space c || Ascii.eqb c ".".

(** A character of an amount once its commas are removed. *)
Definition plain_amount_char (c : ascii) : bool :=
  Str.is_digit c || Ascii.eqb c ".".

(** A character of an amount as the patterns capture it. *)
Definition amount_char (c : ascii) : bool :=
  Str.is_digit c || Ascii.eqb c "," || Ascii.eqb c ".".

(** The number of decimal digits of a string. *)
Definition digit_count (s : string) : nat :=
  List.length (filter Str.is_digit (Str.chars s)).

(** Every character of the string is of the class [P]. *)
Definition made_of (P : ascii -> bool) (s : string) : Prop :=
  Forall (fun c => P c = true) (Str.chars s).

(** A number that is neither NaN nor negative: a zero or an infinity
    with the sign plus, or a finite number above zero. *)
Definition non_negative (x : spec_float) : bool :=
  match x with
  | S754_zero s | S754_infinity s | S754_finite s _ _ => negb s
  | S754_nan => false
  end.

End Shapes.

Module Rows.
Import JS Route Shapes.

(** The names under which the amount patterns store what they find. *)
Definition amount_names : list string := map fst amountPatterns.

(** A value that an amount pattern stores: a number that is NaN or not
    negative. *)
Definition amount_value (v : value) : Prop :=
  exists x, v = VNum x /\ (B64.is_nan x = true \/ non_negative x = true).

(** A date as the date patterns capture it: digits and slashes, from 8
    to 10 characters. *)
Definition date_value (v : value) : Prop :=
  exists s,
    v = VStr s /\ made_of date_char s
    /\ (8 <= String.length s)%nat /\ (String.length s <= 10)%nat.

(** A row of the transactions that the extractor returns. *)
Definition transaction_shaped (row : value) : Prop :=
  exists date description amount,
    row = VObj [ ("date", VStr date);
                 ("description", VStr description);
                 ("amount", VNum amount) ]
    /\ made_of date_char date /\ String.length date = 10%nat
    /\ Str.trim description = description.

End Rows.

Module Frames.
Import JS Route Model.

(** The keys of the data model. *)
Definition model_keys : list string := keys createCompleteFallbackData.

(** The fields for which merge gives the pattern value the priority. *)
Definition name_fields : list string :=
  ["customer_name"; "card_number"; "bank_name"].

(** The top-level fields that merge reads in the pattern record. *)
Definition merged_fields : list string :=
  (highPriorityFields ++ financialFields ++ dateFields)%list.

(** A boolean, a number or a text that is truthy: a value on which no
    property can be set. *)
Definition truthy_primitive (v : value) : bool :=
  primitive v && truthy v.

End Frames.

Module Requests.
Import JS Route Service.

(** [GEMINI_API_KEY] is set to a text that is not empty. *)
Definition configured (GEMINI_API_KEY : option string) : bool :=
  match GEMINI_API_KEY with
  | Some key => negb (String.eqb key "")
  | None => false
  end.

(** The question of a request, as the prompt holds it. *)
Definition question_text (request_json : completion value)
  : completion string :=
  parsed <- request_json ;;
  question <- member parsed "question" ;;
  ToString question.

(** The body of a request of [?action=chatwithpdf] for a session. *)
Definition chat_request (question : value) (session_id : string) : value :=
  VObj [("question", question); ("session_id", VStr session_id)].

End Requests.

Module Paths.
Import JS Route Model.

(** A value that is truthy whenever it is usable: every text and null
    are, and every number but 0, which is usable and falsy. *)
Definition usable_is_truthy (v : value) : bool :=
  implb (isValidData v) (truthy v).

(** A statement whose total is zero. *)
Definition zero_due_text : string := "Total Amount Due: 0".

End Paths.

Module Samples.
Import JS Route Model Service Requests.

(** A line with a masked card number. *)
Definition card_text : string := "Card Number: 1234****5678".

(** A line with a due date and no other date. *)
Definition dates_text : string := "Due Date: 01/02/2024".

(** A line with the reward points. *)
Definition rewards_text : string :=
  "Opening Balance 10 Rewards Earned 5 Closing Balance 15".

(** A text without a digit. *)
Definition words_text : string := "Dear customer, thank you.".

(** An answer of the language model whose summary is a number. *)
Definition summary_answer : string :=
  let q := String JSON.quote "" in
  "{" ++ q ++ "reward_points_summary" ++ q ++ ": 7}".

(** An llm record and a pattern record with two names for the customer. *)
Definition named_llm : obj := [("customer_name", VStr "A. Model")].
Definition named_pat : obj := [("customer_name", VStr "B. Pattern")].

(** A form with a file that is read, the text of [Math.random] and the
    number of [Date.now]. *)
Definition file_form : completion form_entry :=
  Normal (FileEntry "a.pdf" (Normal tt)).
Definition random_text : string := "0.abc".
Definition now_number : Z := 1700000000000.

(** A store with one session. *)
Definition one_session : sessions :=
  [("s1", {| text := "Total Amount Due: 100"; extracted_10_data := None |})].

(** A request that the network rejects. *)
Definition offline : completion fetched := Throws (Error "offline").

(** The body of a request with a question. *)
Definition asked_body : completion value :=
  Normal (VObj [("question", VStr "What is due?")]).

End Samples.

Module Records.
Import Model JS.

Lemma lookup_set_same (o : obj) k v : lookup k (set o k v) = Some v.
Proof.
  induction o as [|[k' v'] r IH]; simpl.
  - now rewrite String.eqb_refl.
  - destruct (String.eqb k k') eqn:E; simpl; rewrite E; auto.
Qed.

Lemma lookup_set_other (o : obj) k k' v :
  String.eqb k' k = false -> lookup k' (set o k v) = lookup k' o.
Proof.
  intros N. induction o as [|[k0 v0] r IH]; simpl.
  - now rewrite N.
  - destruct (String.eqb k k0) eqn:E; simpl.
    + apply String.eqb_eq in E. subst k0. now rewrite N.
    + destruct (String.eqb k' k0); auto.
Qed.

Lemma get_set_same (o : obj) k v : get (set o k v) k = v.
Proof. unfold get. now rewrite lookup_set_same. Qed.

Lemma get_set_other (o : obj) k k' v :
  String.eqb k' k = false -> get (set o k v) k' = get o k'.
Proof. intros N. unfold get. now rewrite lookup_set_other. Qed.

Lemma get_set (o : obj) k k' v :
  get (set o k v) k' = if String.eqb k' k then v else get o k'.
Proof.
  destruct (String.eqb k' k) eqn:E.
  - apply String.eqb_eq in E. subst. apply get_set_same.
  - now apply get_set_other.
Qed.

Lemma set_get_id (o : obj) k : has o k = true -> set o k (get o k) = o.
Proof.
  unfold has, get. induction o as [|[k' v'] r IH]; simpl; [discriminate|].
  destruct (String.eqb k k') eqn:E; [reflexivity|].
  intros H. f_equal. now apply IH.
Qed.

Lemma keys_set (o : obj) k v : has o k = true -> keys (set o k v) = keys o.
Proof.
  unfold has, keys. induction o as [|[k' v'] r IH]; simpl; [discriminate|].
  destruct (String.eqb k k') eqn:E; simpl; [reflexivity|].
  intros H. f_equal. now apply IH.
Qed.

Lemma has_get_undefined (o : obj) k : has o k = false -> get o k = VUndefined.
Proof. unfold has, get. now destruct (lookup k o). Qed.

End Records.

Module Validation.
Import JS Route Model Records.

Arguments get !o k /.
Arguments has !o k /.

(** C7. The Validator is the predicate of the specification: false for
    null and undefined, false for NaN, true for every other number (zero
    included), false for an empty list and for an empty keyed object, false
    for a string equal, case ignored, to one of "null", "na", "n/a", "" and
    "undefined", and true for every other value. *)
Lemma isValidData_isUsable v : isValidData v = isUsable v.
Proof.
  destruct v as [| |b|x|s|elems props|props]; try reflexivity.
  - destruct x as [[]|[]| |[] m e]; reflexivity.
  - destruct elems; reflexivity.
  - destruct props as [|[k v] r]; reflexivity.
Qed.

Lemma valid_has (o : obj) k : isValidData (get o k) = true -> has o k = true.
Proof.
  destruct (has o k) eqn:E; [reflexivity|].
  now rewrite (has_get_undefined _ _ E).
Qed.

Lemma has_and_valid (o : obj) k :
  (has o k && isValidData (get o k))%bool = isValidData (get o k).
Proof.
  destruct (isValidData (get o k)) eqn:E.
  - now rewrite (valid_has _ _ E).
  - apply andb_false_r.
Qed.

Lemma validate_plain data acc field :
  String.eqb field "reward_points_summary" = false ->
  has acc field = true ->
  validate_field data acc field
  = Normal (set acc field (pick (get data field) (get acc field))).
Proof.
  intros N H. unfold validate_field, pick.
  rewrite has_and_valid, N. simpl.
  destruct (isValidData (get data field)); [reflexivity|].
  now rewrite set_get_id.
Qed.

Lemma validate_summary data acc :
  has acc "reward_points_summary" = true ->
  validate_field data acc "reward_points_summary"
  = Normal (set acc "reward_points_summary"
              (pick_summary (get data "reward_points_summary")
                 (get acc "reward_points_summary"))).
Proof.
  intros H. unfold validate_field, pick_summary.
  rewrite has_and_valid.
  destruct (isValidData (get data "reward_points_summary")) eqn:V.
  - cbn [String.eqb Ascii.eqb Bool.eqb andb].
    destruct (get data "reward_points_summary")
      as [| |b|x|s|elems props|props]; try reflexivity; discriminate.
  - now rewrite set_get_id.
Qed.

Lemma validate_loop data :
  for_of (keys createCompleteFallbackData) (validate_field data)
    createCompleteFallbackData
  = Normal (validated data).
Proof.
  unfold createCompleteFallbackData, keys, validated. cbn [map fst for_of].
  repeat (first
    [ rewrite validate_plain by reflexivity
    | rewrite validate_summary by reflexivity ];
    cbn [bind set String.eqb Ascii.eqb Bool.eqb get has lookup]).
  reflexivity.
Qed.

End Validation.

Module Finalization.
Import JS Route Model Records Validation.

Lemma validated_shape data :
  validated data
  = shape (field data "customer_name") (field data "statement_date")
      (field data "payment_due_date") (field data "total_amount_due")
      (field data "minimum_amount_due") (field data "credit_limit")
      (field data "available_credit_limit") (field data "card_number")
      (pick (get data "transactions") (VArr [] []))
      (pick_summary (get data "reward_points_summary") default_summary)
      (field data "bank_name").
Proof. reflexivity. Qed.

Lemma derive_available_shape cn sd pd t m c a card tx s bank :
  derive_available_credit (shape cn sd pd t m c a card tx s bank)
  = a' <- derived_available c t a ;;
    Normal (shape cn sd pd t m c a' card tx s bank).
Proof.
  unfold derive_available_credit, derived_available, shape.
  cbn [get has lookup String.eqb Ascii.eqb Bool.eqb].
  destruct (isValidData c && isValidData t && negb (isValidData a))%bool;
    [|reflexivity].
  now destruct (sub c t).
Qed.

Lemma derive_closing_shape cn sd pd t m c a card tx s bank :
  derive_closing_balance (shape cn sd pd t m c a card tx s bank)
  = s' <- derived_summary s ;;
    Normal (shape cn sd pd t m c a card tx s' bank).
Proof.
  unfold derive_closing_balance, derived_summary, shape.
  cbn [get has lookup String.eqb Ascii.eqb Bool.eqb].
  destruct (and_then _ _) as [[|]|e]; cbn [bind]; try reflexivity.
  destruct (member s "opening_balance") as [ob|e]; cbn [bind]; [|reflexivity].
  destruct (member s "earned") as [ea|e]; cbn [bind]; [|reflexivity].
  destruct (add ob ea) as [v|e]; cbn [bind]; [|reflexivity].
  now destruct (assign_member s "closing_balance" v).
Qed.

Lemma derive_minimum_shape cn sd pd t m c a card tx s bank :
  derive_minimum_due (shape cn sd pd t m c a card tx s bank)
  = m' <- derived_minimum t m ;;
    Normal (shape cn sd pd t m' c a card tx s bank).
Proof.
  unfold derive_minimum_due, derived_minimum, minimum_of, shape.
  cbn [get has lookup String.eqb Ascii.eqb Bool.eqb].
  destruct (isValidData t && negb (isValidData m))%bool; [|reflexivity].
  destruct (mul t _) as [x|e]; cbn [bind]; [|reflexivity].
  destruct (mul x _) as [y|e]; cbn [bind]; [|reflexivity].
  destruct (Math_round y) as [z|e]; cbn [bind]; [|reflexivity].
  now destruct (div z _).
Qed.

Lemma bind_normal {A B} (a : A) (k : A -> completion B) :
  bind (Normal a) k = k a.
Proof. reflexivity. Qed.

Lemma bind_assoc {A B C} (c : completion A) (f : A -> completion B)
  (g : B -> completion C) :
  bind (bind c f) g = bind c (fun x => bind (f x) g).
Proof. now destruct c. Qed.

Lemma bind_ret {A} (c : completion A) : bind c Normal = c.
Proof. now destruct c. Qed.

Lemma finalize_closed data :
  finalValidationAndCalculation data = finalize_spec data.
Proof.
  unfold finalValidationAndCalculation, finalize_spec.
  rewrite validate_loop, bind_normal, validated_shape.
  rewrite derive_available_shape, bind_assoc.
  destruct (derived_available _ _ _) as [a|e]; cbn [bind]; [|reflexivity].
  rewrite derive_closing_shape, bind_assoc.
  destruct (derived_summary _) as [s|e]; cbn [bind]; [|reflexivity].
  rewrite derive_minimum_shape, bind_assoc.
  destruct (derived_minimum _ _) as [m|e]; reflexivity.
Qed.

End Finalization.

Module Merging.
Import JS Route Model Records Validation Finalization.

Lemma get_fill_step pat acc f k :
  get (fill_step pat acc f) k
  = if String.eqb k f then fill_rule (get acc f) (get pat f) else get acc k.
Proof.
  unfold fill_step, fill_rule, assignable.
  destruct (truthy (get pat f) && isValidData (get pat f))%bool.
  - destruct (negb (truthy (get acc f)) || negb (isValidData (get acc f)))%bool.
    + apply get_set.
    + destruct (String.eqb k f) eqn:E; [|reflexivity].
      apply String.eqb_eq in E. now subst.
  - destruct (String.eqb k f) eqn:E; [|reflexivity].
    apply String.eqb_eq in E. now subst.
Qed.

Lemma get_plain_step pat acc f k :
  get (plain_step pat acc f) k
  = if String.eqb k f then hp_rule (get acc f) (get pat f) else get acc k.
Proof.
  unfold plain_step, hp_rule.
  destruct (assignable (get pat f)).
  - apply get_set.
  - destruct (String.eqb k f) eqn:E; [|reflexivity].
    apply String.eqb_eq in E. now subst.
Qed.

Lemma high_priority_plain pat acc f :
  String.eqb f "transactions" = false ->
  high_priority_step pat acc f = Normal (plain_step pat acc f).
Proof.
  intros N. unfold high_priority_step, plain_step, assignable.
  rewrite N. cbn [andb negb bind].
  now destruct (truthy (get pat f) && isValidData (get pat f))%bool.
Qed.

Lemma high_priority_transactions pat acc :
  high_priority_step pat acc "transactions"
  = longer <- tx_longer (get acc "transactions") (get pat "transactions") ;;
    Normal (tx_step pat acc longer).
Proof.
  unfold high_priority_step, tx_longer, tx_step, assignable.
  cbn [String.eqb Ascii.eqb Bool.eqb andb negb].
  destruct (truthy _ && isValidData _)%bool; [|reflexivity].
  destruct (Array_isArray _).
  - destruct (member _ _) as [len|e]; cbn [bind]; [|reflexivity].
    destruct (optional_member _ _) as [cur|e]; cbn [bind]; [|reflexivity].
    now destruct (gt _ _) as [[|]|e].
  - reflexivity.
Qed.

Lemma get_tx_step pat acc longer k :
  get (tx_step pat acc longer) k
  = if String.eqb k "transactions"
    then (if longer then get pat "transactions" else get acc "transactions")
    else get acc k.
Proof.
  unfold tx_step. destruct longer.
  - apply get_set.
  - destruct (String.eqb k "transactions") eqn:E; [|reflexivity].
    apply String.eqb_eq in E. now subst.
Qed.

Lemma reward_step_value pat acc f :
  match reward_value_step (get pat "reward_points_summary")
          (get acc "reward_points_summary") f with
  | Normal s =>
      exists acc', reward_step pat acc f = Normal acc'
                   /\ forall k, get acc' k = with_summary acc s k
  | Throws e => reward_step pat acc f = Throws e
  end.
Proof.
  unfold reward_value_step, reward_step, assignable, with_summary.
  destruct (member (get pat _) f) as [pv|e]; cbn [bind]; [|reflexivity].
  assert (Same : exists acc', Normal acc = Normal acc' /\
            forall k, get acc' k =
              if String.eqb k "reward_points_summary"
              then get acc "reward_points_summary" else get acc k).
  { exists acc. split; [reflexivity|]. intros k.
    destruct (String.eqb k _) eqn:E; [|reflexivity].
    apply String.eqb_eq in E. now subst. }
  destruct (truthy pv && isValidData pv)%bool; [|exact Same].
  destruct (truthy (get acc "reward_points_summary")) eqn:T; cbn [negb].
  - destruct (member (get acc _) f) as [cur|e]; cbn [bind]; [|reflexivity].
    destruct (negb (truthy cur) || negb (isValidData cur))%bool; [|exact Same].
    destruct (assign_member _ f pv) as [s|e]; cbn [bind]; [|reflexivity].
    eexists. split; [reflexivity|]. intros k. apply get_set.
  - cbn [bind]. rewrite get_set_same.
    cbn [assign_member set bind].
    eexists. split; [reflexivity|]. intros k.
    rewrite !get_set. now destruct (String.eqb k _).
Qed.

Lemma with_summary_summary acc s :
  with_summary acc s "reward_points_summary" = s.
Proof. reflexivity. Qed.

Lemma reward_loop pat fields : forall acc,
  match for_of fields (reward_value_step (get pat "reward_points_summary"))
          (get acc "reward_points_summary") with
  | Normal s =>
      exists acc', for_of fields (reward_step pat) acc = Normal acc'
                   /\ forall k, get acc' k = with_summary acc s k
  | Throws e => for_of fields (reward_step pat) acc = Throws e
  end.
Proof.
  induction fields as [|f r IH]; intros acc; cbn [for_of].
  - exists acc. split; [reflexivity|]. intros k. unfold with_summary.
    destruct (String.eqb k _) eqn:E; [|reflexivity].
    apply String.eqb_eq in E. now subst.
  - pose proof (reward_step_value pat acc f) as H.
    destruct (reward_value_step _ _ f) as [s1|e]; cbn [bind].
    + destruct H as (acc1 & -> & G1). cbn [bind].
      specialize (IH acc1). rewrite G1, with_summary_summary in IH.
      destruct (for_of r _ s1) as [s|e].
      * destruct IH as (acc' & -> & G). exists acc'. split; [reflexivity|].
        intros k. rewrite G. unfold with_summary.
        destruct (String.eqb k _) eqn:E; [reflexivity|].
        rewrite G1. unfold with_summary. now rewrite E.
      * exact IH.
    + now rewrite H.
Qed.

Ltac case_key k :=
  repeat match goal with
    | |- context [String.eqb k ?f] =>
        let E := fresh "E" in
        destruct (String.eqb k f) eqn:E;
        [ apply String.eqb_eq in E; subst k;
          repeat (progress
            (rewrite ?get_fill_step, ?get_tx_step, ?get_plain_step;
             cbn [String.eqb Ascii.eqb Bool.eqb Str.includes existsb app orb
                  financialFields dateFields]));
          try reflexivity | ]
    end.

Lemma merge_spec llm pat :
  match merge_effects llm pat with
  | Normal (longer, s) =>
      exists m, robustDataMerging llm pat = Normal m
                /\ forall k, get m k = merge_get llm pat longer s k
  | Throws e => robustDataMerging llm pat = Throws e
  end.
Proof.
  unfold merge_effects, robustDataMerging, highPriorityFields.
  cbn [for_of].
  rewrite !high_priority_plain by reflexivity. cbn [bind].
  rewrite !high_priority_plain by reflexivity. cbn [bind].
  rewrite !high_priority_plain by reflexivity. cbn [bind].
  rewrite high_priority_transactions.
  rewrite !get_plain_step. cbn [String.eqb Ascii.eqb Bool.eqb].
  destruct (tx_longer _ _) as [longer|e]; cbn [bind]; [|reflexivity].
  set (m1 := tx_step pat _ longer).
  set (m3 := fold_left _ dateFields _).
  assert (G3 : forall k, get m3 k
            = merge_get llm pat longer (get llm "reward_points_summary") k).
  { intros k. subst m3 m1. unfold financialFields, dateFields.
    cbn [fold_left]. rewrite !get_fill_step, !get_tx_step, !get_plain_step.
    unfold merge_get.
    case_key k.
    cbn [Str.includes existsb app orb financialFields dateFields].
    rewrite ?E, ?E0, ?E1, ?E2, ?E3, ?E4, ?E5, ?E6, ?E7, ?E8, ?E9.
    reflexivity. }
  unfold summary_value.
  destruct (truthy (get pat "reward_points_summary")).
  - pose proof (reward_loop pat rewardFields m3) as H.
    rewrite G3 in H. change (merge_get llm pat longer _ "reward_points_summary")
      with (get llm "reward_points_summary") in H.
    destruct (for_of _ _ (get llm _)) as [s|e]; cbn [bind]; [|exact H].
    destruct H as (m & -> & G). exists m. split; [reflexivity|].
    intros k. rewrite G. unfold with_summary. rewrite G3. unfold merge_get.
    now destruct (String.eqb k "reward_points_summary").
  - cbn [bind]. exists m3. split; [reflexivity|]. exact G3.
Qed.

End Merging.

Module MergeProperties.
Import JS Route Model Records Validation Finalization Merging.

Lemma merge_inv llm pat m :
  robustDataMerging llm pat = Normal m ->
  exists longer s,
    tx_longer (get llm "transactions") (get pat "transactions") = Normal longer
    /\ summary_value (get pat "reward_points_summary")
         (get llm "reward_points_summary") = Normal s
    /\ forall k, get m k = merge_get llm pat longer s k.
Proof.
  intros H. pose proof (merge_spec llm pat) as S. unfold merge_effects in S.
  destruct (tx_longer _ _) as [longer|e]; cbn [bind] in S; [|congruence].
  destruct (summary_value _ _) as [s|e]; cbn [bind] in S; [|congruence].
  destruct S as (m' & E & G). rewrite H in E. injection E as <-.
  now exists longer, s.
Qed.

Lemma member_truthy v k : truthy v = true -> member v k = Normal (prop v k).
Proof. unfold prop. now destruct v. Qed.

Lemma reward_value_step_skip prps s f :
  truthy prps = true -> assignable (prop prps f) = false ->
  reward_value_step prps s f = Normal s.
Proof.
  intros T A. unfold reward_value_step. rewrite (member_truthy _ _ T).
  cbn [bind]. now rewrite A.
Qed.

Lemma prop_assign v g x v' f :
  String.eqb f g = false -> String.eqb f "length" = false ->
  assign_member v g x = Normal v' -> prop v' f = prop v f.
Proof.
  intros N L H. destruct v; try discriminate; cbn in H; injection H as <-;
    unfold prop; cbn [member]; rewrite ?L; now rewrite get_set_other.
Qed.

Lemma prop_falsy v f :
  truthy v = false -> String.eqb f "length" = false -> prop v f = VUndefined.
Proof.
  intros T L. destruct v; try reflexivity; try discriminate.
  unfold prop. cbn [member]. now rewrite L.
Qed.

Lemma reward_value_step_other prps s g s' f :
  reward_value_step prps s g = Normal s' ->
  String.eqb f g = false -> String.eqb f "length" = false ->
  prop s' f = prop s f.
Proof.
  intros H N L. revert H. unfold reward_value_step.
  destruct (member prps g) as [pv|e]; cbn [bind]; [|discriminate].
  destruct (assignable pv); [|now intros [= <-]].
  destruct (truthy s) eqn:T; cbn [negb bind].
  - destruct (member s g) as [cur|e]; cbn [bind]; [|discriminate].
    destruct (_ || _)%bool; [|now intros [= <-]].
    now apply prop_assign.
  - intros H. rewrite (prop_assign _ _ _ _ _ N L H).
    now rewrite (prop_falsy _ _ T L).
Qed.


(** What merge does to a financial-amount or date field: the pattern
    value fills in when it is truthy and usable and the llm value is
    falsy or unusable. *)
Lemma merge_fills_gaps llm pat m f :
  robustDataMerging llm pat = Normal m ->
  In f (financialFields ++ dateFields)%list ->
  get m f = fill_rule (get llm f) (get pat f).
Proof.
  intros H I. destruct (merge_inv _ _ _ H) as (longer & s & _ & _ & G).
  rewrite G. cbn in I.
  repeat (destruct I as [<-|I]; [reflexivity|]). destruct I.
Qed.


(** A falsy llm value, the usable number 0 included, gives way to an
    assignable pattern value. *)
Lemma merge_replaces_falsy_llm_value llm pat m f :
  robustDataMerging llm pat = Normal m ->
  In f (financialFields ++ dateFields)%list ->
  truthy (get llm f) = false -> assignable (get pat f) = true ->
  get m f = get pat f.
Proof.
  intros H I T A. rewrite (merge_fills_gaps _ _ _ _ H I).
  unfold fill_rule. now rewrite A, T.
Qed.

(** C1, at the llm record [{total_amount_due: 0}] and the pattern record
    [{total_amount_due: 500}]: the llm value is usable, and merge returns
    the pattern value in its place. *)
Theorem merge_overrides_usable_llm_zero :
  isValidData (get zero_llm "total_amount_due") = true
  /\ isValidData (get zero_pat "total_amount_due") = true
  /\ robustDataMerging zero_llm zero_pat
     = Normal [("total_amount_due", num 500)].
Proof.
  split; [reflexivity|]. split; [reflexivity|].
  vm_compute. reflexivity.
Qed.

End MergeProperties.

Module FinalizationProperties.
Import JS Route Model Records Validation Finalization.

Lemma finalize_inv data r :
  finalValidationAndCalculation data = Normal r ->
  exists a s m,
    derived_available (field data "credit_limit")
      (field data "total_amount_due")
      (field data "available_credit_limit") = Normal a
    /\ derived_summary
         (pick_summary (get data "reward_points_summary") default_summary)
       = Normal s
    /\ derived_minimum (field data "total_amount_due")
         (field data "minimum_amount_due") = Normal m
    /\ r = finalized data a s m.
Proof.
  rewrite finalize_closed. unfold finalize_spec.
  destruct (derived_available _ _ _) as [a|e]; cbn [bind]; [|discriminate].
  destruct (derived_summary _) as [s|e]; cbn [bind]; [|discriminate].
  destruct (derived_minimum _ _) as [m|e]; cbn [bind]; [|discriminate].
  intros [= <-]. now exists a, s, m.
Qed.

Lemma valid_nullish v d : isValidData v = true -> nullish v d = v.
Proof. now destruct v. Qed.

Lemma valid_pick v d : isValidData v = true -> pick v d = v.
Proof. unfold pick. now intros ->. Qed.

Lemma invalid_pick v d : isValidData v = false -> pick v d = d.
Proof. unfold pick. now intros ->. Qed.

Lemma valid_field data k :
  isValidData (field data k) = isValidData (get data k).
Proof.
  unfold field, pick. destruct (isValidData (get data k)) eqn:E; auto.
Qed.

Lemma ToNumber_primitive v :
  primitive v = true -> exists x, ToNumber v = Normal x.
Proof. destruct v; try discriminate; intros _; eexists; reflexivity. Qed.

Lemma arith_primitive op a b :
  primitive a = true -> primitive b = true ->
  exists x, arith op a b = Normal (VNum x).
Proof.
  intros A B. unfold arith.
  destruct (ToNumber_primitive a A) as (x & ->).
  destruct (ToNumber_primitive b B) as (y & ->).
  eexists. reflexivity.
Qed.

Lemma add_primitive a b :
  primitive a = true -> primitive b = true ->
  exists v, add a b = Normal v /\ primitive v = true.
Proof.
  intros A B.
  destruct a; try discriminate; destruct b; try discriminate;
    eexists; split; reflexivity.
Qed.

Lemma minimum_of_primitive t :
  primitive t = true -> exists x, minimum_of t = Normal (VNum x).
Proof.
  intros T. unfold minimum_of, mul.
  destruct (arith_primitive B64.mul t (VNum lit_0_05) T eq_refl) as (x & ->).
  cbn. eexists. reflexivity.
Qed.

Lemma primitive_pick v d :
  primitive v = true -> primitive d = true -> primitive (pick v d) = true.
Proof. unfold pick. now destruct (isValidData v). Qed.

Lemma primitive_nullish v :
  primitive v = true -> primitive (nullish v VNull) = true.
Proof. now destruct v. Qed.

(** The summary held by the validated record is a fresh triple or a
    usable value that is no object. *)
Lemma pick_summary_cases v :
  (exists ob ea cb,
     pick_summary v default_summary
     = VObj [("opening_balance", ob); ("earned", ea); ("closing_balance", cb)]
     /\ (ob = VNull \/ ob = nullish (prop v "opening_balance") VNull)
     /\ (ea = VNull \/ ea = nullish (prop v "earned") VNull))
  \/ (pick_summary v default_summary = v /\ primitive v = true
      /\ isValidData v = true).
Proof.
  unfold pick_summary. destruct (isValidData v) eqn:V.
  - destruct v; try discriminate;
      try (right; repeat split; reflexivity);
      left; do 3 eexists; (split; [reflexivity|split; right; reflexivity]).
  - left. do 3 eexists. split; [reflexivity|]. split; left; reflexivity.
Qed.

Lemma member_primitive v k :
  primitive v = true -> isValidData v = true ->
  String.eqb k "length" = false -> member v k = Normal VUndefined.
Proof.
  intros P V L. destruct v; try discriminate; try reflexivity.
  cbn. now rewrite L.
Qed.

Lemma derived_summary_primitive v :
  primitive v = true -> isValidData v = true ->
  derived_summary v = Normal v.
Proof.
  intros P V. unfold derived_summary, valid_member, and_then.
  rewrite (member_primitive v "opening_balance") by auto. reflexivity.
Qed.

Lemma derived_summary_triple ob ea cb :
  derived_summary (triple ob ea cb)
  = if isValidData ob && isValidData ea && negb (isValidData cb)
    then v <- add ob ea ;; Normal (triple ob ea v)
    else Normal (triple ob ea cb).
Proof.
  unfold derived_summary, valid_member, and_then, not_, triple.
  cbn [member get lookup String.eqb Ascii.eqb Bool.eqb bind].
  destruct (isValidData ob); cbn [andb]; [|reflexivity].
  destruct (isValidData ea); cbn [andb]; [|reflexivity].
  destruct (isValidData cb); cbn [negb]; [reflexivity|].
  destruct (add ob ea); reflexivity.
Qed.

Lemma finalize_returns data :
  primitive_operands data = true ->
  exists r, finalValidationAndCalculation data = Normal r.
Proof.
  unfold primitive_operands. intros H.
  apply andb_prop in H as [H Pe]. apply andb_prop in H as [H Po].
  apply andb_prop in H as [Pc Pt].
  rewrite finalize_closed. unfold finalize_spec.
  assert (Fc := primitive_pick _ VNull Pc eq_refl).
  assert (Ft := primitive_pick _ VNull Pt eq_refl).
  fold (field data "credit_limit") in Fc.
  fold (field data "total_amount_due") in Ft.
  assert (A : exists a, derived_available (field data "credit_limit")
                (field data "total_amount_due")
                (field data "available_credit_limit") = Normal a).
  { unfold derived_available. destruct (_ && _ && _)%bool; [|eauto].
    destruct (arith_primitive B64.sub _ _ Fc Ft) as (x & E). eauto. }
  destruct A as (a & ->). cbn [bind].
  assert (S : exists s, derived_summary
                (pick_summary (get data "reward_points_summary")
                   default_summary) = Normal s).
  { destruct (pick_summary_cases (get data "reward_points_summary"))
      as [(ob & ea & cb & -> & Ho & He)|(-> & P & V)].
    - fold (triple ob ea cb). rewrite derived_summary_triple.
      destruct (_ && _ && _)%bool; [|eauto].
      assert (Pob : primitive ob = true).
      { destruct Ho as [->| ->]; [reflexivity|now apply primitive_nullish]. }
      assert (Pea : primitive ea = true).
      { destruct He as [->| ->]; [reflexivity|now apply primitive_nullish]. }
      destruct (add_primitive _ _ Pob Pea) as (v & -> & _). cbn. eauto.
    - rewrite derived_summary_primitive by assumption. eauto. }
  destruct S as (s & ->). cbn [bind].
  assert (M : exists m, derived_minimum (field data "total_amount_due")
                (field data "minimum_amount_due") = Normal m).
  { unfold derived_minimum. destruct (_ && _)%bool; [|eauto].
    destruct (minimum_of_primitive _ Ft) as (x & ->). eauto. }
  destruct M as (m & ->). cbn [bind]. eauto.
Qed.

Lemma get_finalized data a s m k :
  get (finalized data a s m) k
  = if String.eqb k "customer_name" then field data k
    else if String.eqb k "statement_date" then field data k
    else if String.eqb k "payment_due_date" then field data k
    else if String.eqb k "total_amount_due" then field data k
    else if String.eqb k "minimum_amount_due" then m
    else if String.eqb k "credit_limit" then field data k
    else if String.eqb k "available_credit_limit" then a
    else if String.eqb k "card_number" then field data k
    else if String.eqb k "transactions"
         then pick (get data k) (VArr [] [])
    else if String.eqb k "reward_points_summary" then s
    else if String.eqb k "bank_name" then field data k
    else VUndefined.
Proof.
  unfold finalized, shape. cbn [get lookup].
  repeat match goal with
    | |- context [String.eqb k ?f] =>
        destruct (String.eqb_spec k f); [subst k; reflexivity|]
    end.
  reflexivity.
Qed.


Lemma arith_number op a b v : arith op a b = Normal v -> exists x, v = VNum x.
Proof.
  unfold arith. destruct (ToNumber a); cbn [bind]; [|discriminate].
  destruct (ToNumber b); cbn [bind]; [|discriminate].
  intros [= <-]. eauto.
Qed.

(** The operators on two numbers, and [+] on two strings. *)
Lemma sub_numbers x y : sub (VNum x) (VNum y) = Normal (VNum (B64.sub x y)).
Proof. reflexivity. Qed.

Lemma add_numbers x y : add (VNum x) (VNum y) = Normal (VNum (B64.add x y)).
Proof. reflexivity. Qed.

Lemma add_strings s t : add (VStr s) (VStr t) = Normal (VStr (s ++ t)).
Proof. reflexivity. Qed.

Lemma sub_number a b v : sub a b = Normal v -> exists x, v = VNum x.
Proof. apply arith_number. Qed.

Lemma minimum_of_number t v : minimum_of t = Normal v -> exists x, v = VNum x.
Proof.
  unfold minimum_of, mul, div, Math_round, arith.
  destruct (ToNumber t); cbn; [|discriminate].
  intros [= <-]. eauto.
Qed.

Lemma concat_string a b v :
  (sa <- ToString a ;; sb <- ToString b ;; Normal (VStr (sa ++ sb)))
  = Normal v -> exists s, v = VStr s.
Proof.
  destruct (ToString a); cbn [bind]; [|discriminate].
  destruct (ToString b); cbn [bind]; [|discriminate].
  intros [= <-]. eauto.
Qed.

(** [a + b] is a number or a string. *)
Lemma add_result a b v :
  add a b = Normal v -> (exists x, v = VNum x) \/ (exists s, v = VStr s).
Proof.
  unfold add.
  destruct (ToPrimitive a) as [pa|]; cbn [bind]; [|discriminate].
  destruct (ToPrimitive b) as [pb|]; cbn [bind]; [|discriminate].
  destruct pa, pb; intros H;
    first [ left; exact (arith_number _ _ _ _ H)
          | right; exact (concat_string _ _ _ H) ].
Qed.

Lemma add_defined a b v : add a b = Normal v -> nullish v VNull = v.
Proof.
  intros H. now destruct (add_result _ _ _ H) as [(x & ->)|(s & ->)].
Qed.

(** C3, amended.  Every top-level field of the finalized record other than
    the summary is the usable value of the merged record, or else the
    default, or a number derived for available_credit_limit or
    minimum_amount_due.  A usable summary that is an object is rebuilt from
    its three sub-fields, undefined replaced by null and nothing else
    validated; closing_balance may be derived.  A usable summary that is no
    object is kept, an unusable one is replaced by the default. *)
Theorem finalize_revalidates_top_level data r :
  finalValidationAndCalculation data = Normal r ->
  (forall k, In k (keys createCompleteFallbackData) ->
     k <> "reward_points_summary" ->
     if isValidData (get data k) then get r k = get data k
     else get r k = get createCompleteFallbackData k
          \/ (In k derived_fields /\ exists x, get r k = VNum x))
  /\ (let v := get data "reward_points_summary" in
      if isValidData v then
        if String.eqb (typeof v) "object" then
          exists cb,
            get r "reward_points_summary"
            = triple (nullish (prop v "opening_balance") VNull)
                (nullish (prop v "earned") VNull) cb
            /\ (cb = nullish (prop v "closing_balance") VNull
                \/ (isValidData (prop v "closing_balance") = false
                    /\ add (nullish (prop v "opening_balance") VNull)
                         (nullish (prop v "earned") VNull) = Normal cb))
        else get r "reward_points_summary" = v
      else get r "reward_points_summary" = default_summary).
Proof.
  intros H. destruct (finalize_inv _ _ H) as (a & s & m & A & S & M & ->).
  split.
  - intros k I N. cbn in I.
    repeat (destruct I as [<-|I];
      [ try congruence; rewrite get_finalized;
        cbn [String.eqb Ascii.eqb Bool.eqb get lookup
             createCompleteFallbackData];
        unfold field, pick;
        try (destruct (isValidData (get data _)); [reflexivity|now left])
      | ]); try destruct I.
    + unfold derived_minimum in M. rewrite !valid_field in M.
      unfold field, pick in M.
      destruct (isValidData (get data "minimum_amount_due")).
      * rewrite andb_false_r in M. congruence.
      * destruct (isValidData (get data "total_amount_due")); cbn in M.
        -- right. split; [cbn; auto|].
           now apply minimum_of_number with (t := get data "total_amount_due").
        -- left. congruence.
    + unfold derived_available in A. rewrite !valid_field in A.
      unfold field, pick in A.
      destruct (isValidData (get data "available_credit_limit")).
      * rewrite andb_false_r in A. congruence.
      * destruct (isValidData (get data "credit_limit")
                  && isValidData (get data "total_amount_due"))%bool;
          cbn in A.
        -- right. split; [cbn; auto|]. eapply sub_number; eassumption.
        -- left. congruence.
  - cbn zeta. rewrite get_finalized. cbn [String.eqb Ascii.eqb Bool.eqb].
    unfold pick_summary in S.
    destruct (isValidData (get data "reward_points_summary")) eqn:V.
    + destruct (String.eqb (typeof _) "object") eqn:T.
      * unfold summary_triple in S.
        match type of S with
        | derived_summary (VObj [(_, ?o); (_, ?e); (_, ?c)]) = _ =>
            fold (triple o e c) in S
        end.
        rewrite derived_summary_triple in S.
        destruct (_ && _ && _)%bool eqn:C.
        -- destruct (add _ _) as [v|] eqn:E; [|discriminate].
           cbn in S. injection S as <-. exists v. split; [reflexivity|].
           right. split; [|reflexivity].
           apply andb_prop in C as [_ C]. apply negb_true_iff in C.
           destruct (prop _ "closing_balance"); auto.
        -- injection S as <-. eexists. split; [reflexivity|]. now left.
      * rewrite derived_summary_primitive in S; try assumption.
        -- congruence.
        -- destruct (get data "reward_points_summary"); auto; discriminate.
    + change default_summary with (triple VNull VNull VNull) in S.
      rewrite derived_summary_triple in S. now injection S as <-.
Qed.

Lemma valid_defined v : isValidData v = true -> v <> VUndefined.
Proof. now intros V ->. Qed.

Lemma pick_defined v d : d <> VUndefined -> pick v d <> VUndefined.
Proof.
  unfold pick. intros D. destruct (isValidData v) eqn:V; auto.
  now apply valid_defined.
Qed.

Lemma nullish_defined v : nullish v VNull <> VUndefined.
Proof. now destruct v. Qed.

Lemma derived_available_defined c t a v :
  derived_available c t (pick a VNull) = Normal v -> v <> VUndefined.
Proof.
  unfold derived_available. destruct (_ && _ && _)%bool.
  - intros E. destruct (sub_number _ _ _ E) as (x & ->). discriminate.
  - intros [= <-]. now apply pick_defined.
Qed.

Lemma derived_minimum_defined t m v :
  derived_minimum t (pick m VNull) = Normal v -> v <> VUndefined.
Proof.
  unfold derived_minimum. destruct (_ && _)%bool.
  - intros E. destruct (minimum_of_number _ _ E) as (x & ->). discriminate.
  - intros [= <-]. now apply pick_defined.
Qed.

(** C8, amended.  The finalized record has the eleven keys of the data
    model, none undefined, and its transactions are never null.  The
    transactions are a list when those of the merged record are a list or
    unusable; the summary has its three sub-keys, none undefined, when the
    summary of the merged record is an object or unusable. *)
Theorem finalize_key_set data :
  (primitive_operands data = true ->
   exists r, finalValidationAndCalculation data = Normal r)
  /\ forall r, finalValidationAndCalculation data = Normal r ->
     keys r = keys createCompleteFallbackData
     /\ (forall k, In k (keys r) -> get r k <> VUndefined)
     /\ get r "transactions" <> VNull
     /\ (Array_isArray (get data "transactions")
          || negb (isValidData (get data "transactions")) = true ->
         Array_isArray (get r "transactions") = true)
     /\ (String.eqb (typeof (get data "reward_points_summary")) "object"
          || negb (isValidData (get data "reward_points_summary")) = true ->
         exists ob ea cb,
           get r "reward_points_summary" = triple ob ea cb
           /\ ob <> VUndefined /\ ea <> VUndefined /\ cb <> VUndefined).
Proof.
  split; [apply finalize_returns|].
  intros r H. destruct (finalize_inv _ _ H) as (a & s & m & A & S & M & ->).
  assert (Rs : String.eqb (typeof (get data "reward_points_summary")) "object"
          || negb (isValidData (get data "reward_points_summary")) = true ->
         exists ob ea cb,
           s = triple ob ea cb
           /\ ob <> VUndefined /\ ea <> VUndefined /\ cb <> VUndefined).
  { intros C. unfold pick_summary in S.
    assert (exists ob ea cb,
              (if isValidData (get data "reward_points_summary")
               then if String.eqb (typeof (get data "reward_points_summary")) "object"
                    then summary_triple (get data "reward_points_summary")
                    else get data "reward_points_summary"
               else default_summary) = triple ob ea cb
              /\ ob <> VUndefined /\ ea <> VUndefined /\ cb <> VUndefined)
      as (ob & ea & cb & E & Do & De & Dc).
    { destruct (isValidData _).
      - rewrite orb_false_r in C. rewrite C.
        do 3 eexists. split; [reflexivity|].
        repeat split; apply nullish_defined.
      - do 3 eexists. split; [reflexivity|]. repeat split; discriminate. }
    rewrite E, derived_summary_triple in S.
    destruct (_ && _ && _)%bool.
    - destruct (add ob ea) as [v|] eqn:Ea; [|discriminate].
      cbn in S. injection S as <-. exists ob, ea, v.
      repeat split; auto. intros ->. now apply add_defined in Ea.
    - injection S as <-. now exists ob, ea, cb. }
  split; [reflexivity|].
  split; [|split; [|split]].
  all: cycle 1.
  - rewrite get_finalized. cbn [String.eqb Ascii.eqb Bool.eqb].
    unfold pick. destruct (isValidData (get data "transactions")) eqn:V;
      [|discriminate]. now intros E; rewrite E in V.
  - rewrite get_finalized. cbn [String.eqb Ascii.eqb Bool.eqb].
    unfold pick. destruct (isValidData (get data "transactions")); cbn.
    + now rewrite orb_false_r.
    + reflexivity.
  - rewrite get_finalized. cbn [String.eqb Ascii.eqb Bool.eqb]. exact Rs.
  - intros k I. cbn in I.
    repeat (destruct I as [<-|I];
      [ rewrite get_finalized; cbn [String.eqb Ascii.eqb Bool.eqb];
        try (apply pick_defined; discriminate) | ]); try destruct I.
    + eapply derived_minimum_defined; eassumption.
    + eapply derived_available_defined; eassumption.
    + destruct (pick_summary_cases (get data "reward_points_summary"))
        as [(ob & ea & cb & E & _)|(E & P & V)]; rewrite E in S.
      * fold (triple ob ea cb) in S. rewrite derived_summary_triple in S.
        destruct (_ && _ && _)%bool.
        -- destruct (add ob ea); [|discriminate]. cbn in S.
           injection S as <-. discriminate.
        -- injection S as <-. discriminate.
      * rewrite derived_summary_primitive in S by assumption.
        injection S as <-. now apply valid_defined.
Qed.

End FinalizationProperties.

Module Idempotence.
Import JS Route Model Records Validation Finalization Merging
  MergeProperties FinalizationProperties.

Lemma finalize_ext d1 d2 :
  (forall k, get d1 k = get d2 k) ->
  finalValidationAndCalculation d1 = finalValidationAndCalculation d2.
Proof.
  intros H. rewrite !finalize_closed.
  unfold finalize_spec, finalized, field. now rewrite !H.
Qed.

Lemma pick_idem v d : isValidData d = false -> pick (pick v d) d = pick v d.
Proof.
  intros D. unfold pick at 2 3. destruct (isValidData v) eqn:V.
  - now apply valid_pick.
  - now apply invalid_pick.
Qed.

Lemma nullish_idem v : nullish (nullish v VNull) VNull = nullish v VNull.
Proof. now destruct v. Qed.

Lemma derived_available_stable c t x a :
  derived_available c t (pick x VNull) = Normal a ->
  derived_available c t (pick a VNull) = Normal a.
Proof.
  unfold derived_available.
  destruct (isValidData c && isValidData t)%bool eqn:C; cbn [andb].
  - destruct (isValidData (pick x VNull)) eqn:V; cbn [negb].
    + intros [= <-]. now rewrite pick_idem, V.
    + intros E. destruct (isValidData a) eqn:Va.
      * now rewrite valid_pick, Va.
      * now rewrite invalid_pick.
  - intros [= <-]. now rewrite pick_idem.
Qed.

Lemma derived_minimum_stable t x m :
  derived_minimum t (pick x VNull) = Normal m ->
  derived_minimum t (pick m VNull) = Normal m.
Proof.
  unfold derived_minimum.
  destruct (isValidData t) eqn:C; cbn [andb].
  - destruct (isValidData (pick x VNull)) eqn:V; cbn [negb].
    + intros [= <-]. now rewrite pick_idem, V.
    + intros E. destruct (isValidData m) eqn:Vm.
      * now rewrite valid_pick, Vm.
      * now rewrite invalid_pick.
  - intros [= <-]. now rewrite pick_idem.
Qed.

(** The summary of a validated record: a triple of defined values, or a
    usable value that is no object. *)
Lemma pick_summary_forms v :
  (exists ob ea cb,
     pick_summary v default_summary = triple ob ea cb
     /\ nullish ob VNull = ob /\ nullish ea VNull = ea
     /\ nullish cb VNull = cb)
  \/ (pick_summary v default_summary = v /\ primitive v = true
      /\ isValidData v = true).
Proof.
  unfold pick_summary. destruct (isValidData v) eqn:V.
  - destruct v; try discriminate;
      try (right; repeat split; reflexivity);
      left; do 3 eexists;
      (split; [reflexivity|repeat split; apply nullish_idem]).
  - left. do 3 eexists. split; [reflexivity|]. repeat split; reflexivity.
Qed.

Lemma pick_summary_triple ob ea cb :
  nullish ob VNull = ob -> nullish ea VNull = ea -> nullish cb VNull = cb ->
  pick_summary (triple ob ea cb) default_summary = triple ob ea cb.
Proof.
  intros Ho He Hc. unfold pick_summary, triple, summary_triple, prop.
  cbn. now rewrite Ho, He, Hc.
Qed.

Lemma pick_summary_primitive v :
  primitive v = true -> isValidData v = true ->
  pick_summary v default_summary = v.
Proof.
  intros P V. unfold pick_summary. rewrite V.
  now destruct v.
Qed.

Lemma derived_summary_stable v s :
  derived_summary (pick_summary v default_summary) = Normal s ->
  derived_summary (pick_summary s default_summary) = Normal s.
Proof.
  destruct (pick_summary_forms v)
    as [(ob & ea & cb & -> & Ho & He & Hc)|(-> & P & V)].
  - rewrite derived_summary_triple.
    destruct (isValidData ob && isValidData ea)%bool eqn:C; cbn [andb].
    + destruct (isValidData cb) eqn:Vc; cbn [negb].
      * intros [= <-]. rewrite pick_summary_triple by assumption.
        now rewrite derived_summary_triple, C, Vc.
      * destruct (add ob ea) as [x|] eqn:E; [|discriminate].
        cbn [bind]. intros [= <-].
        rewrite pick_summary_triple by eauto using add_defined.
        rewrite derived_summary_triple, C. cbn [andb].
        destruct (isValidData x); [reflexivity|]. cbn [negb].
        now rewrite E.
    + intros [= <-]. rewrite pick_summary_triple by assumption.
      now rewrite derived_summary_triple, C.
  - rewrite derived_summary_primitive by assumption. intros [= <-].
    rewrite pick_summary_primitive by assumption.
    now apply derived_summary_primitive.
Qed.

(** Finalization returns its own result unchanged. *)
Lemma finalize_fixpoint data r :
  finalValidationAndCalculation data = Normal r ->
  finalValidationAndCalculation r = Normal r.
Proof.
  intros H. destruct (finalize_inv _ _ H) as (a & s & m & A & S & M & ->).
  rewrite finalize_closed. unfold finalize_spec.
  remember (finalized data a s m) as R eqn:ER.
  assert (F : forall k, k <> "minimum_amount_due" ->
              k <> "available_credit_limit" -> k <> "transactions" ->
              k <> "reward_points_summary" ->
              In k (keys createCompleteFallbackData) ->
              field R k = field data k).
  { intros k N1 N2 N3 N4 I. unfold field at 1. rewrite ER, get_finalized.
    cbn in I.
    repeat (destruct I as [<-|I];
      [ try congruence; cbn [String.eqb Ascii.eqb Bool.eqb];
        now apply pick_idem | ]).
    destruct I. }
  assert (Fa : field R "available_credit_limit" = pick a VNull)
    by now rewrite ER.
  assert (Fm : field R "minimum_amount_due" = pick m VNull)
    by now rewrite ER.
  assert (Fs : get R "reward_points_summary" = s) by now rewrite ER.
  assert (Ft : pick (get R "transactions") (VArr [] [])
               = pick (get data "transactions") (VArr [] [])).
  { rewrite ER. cbn [get lookup finalized shape String.eqb Ascii.eqb Bool.eqb].
    now apply pick_idem. }
  unfold finalized.
  rewrite Fa, Fm, Fs, Ft, !F by (cbn; intuition congruence).
  rewrite (derived_available_stable _ _ _ _ A). cbn [bind].
  rewrite (derived_summary_stable _ _ S). cbn [bind].
  rewrite (derived_minimum_stable _ _ _ M). cbn [bind].
  now rewrite ER.
Qed.

Lemma assignable_valid p : assignable p = true -> isValidData p = true.
Proof. unfold assignable. intros H. now apply andb_prop in H. Qed.

Lemma assignable_truthy p : assignable p = true -> truthy p = true.
Proof. unfold assignable. intros H. now apply andb_prop in H. Qed.

Lemma invalid_length l :
  isValidData l = false -> placeholder_string l = false ->
  exists cur, optional_member l "length" = Normal cur
              /\ or_else cur (num 0) = num 0.
Proof.
  intros V Pl.
  destruct l as [| |b|x|s|elems props|props].
  - eexists; split; reflexivity.
  - eexists; split; reflexivity.
  - discriminate V.
  - eexists; split; reflexivity.
  - cbn [placeholder_string] in Pl. now rewrite V in Pl.
  - destruct elems; [|discriminate V]. eexists; split; reflexivity.
  - destruct props as [|[k v] r]; [|discriminate V].
    eexists; split; reflexivity.
Qed.

Lemma tx_stable l p longer :
  placeholder_string l = false ->
  tx_longer l p = Normal longer ->
  let t := pick (if longer then p else l) (VArr [] []) in
  exists longer2,
    tx_longer t p = Normal longer2 /\ (if longer2 then p else t) = t.
Proof.
  intros Pl H t. unfold tx_longer in *.
  destruct (assignable p) eqn:A; [|exists false; now split].
  destruct (Array_isArray p) eqn:Ar; [|exists false; now split].
  destruct p as [| | | | |pe pp|]; try discriminate.
  cbn [member bind] in *.
  destruct longer.
  - assert (T : t = VArr pe pp).
    { subst t. apply valid_pick. now apply assignable_valid. }
    rewrite T. cbn [optional_member member bind].
    unfold or_else, gt. destruct (truthy _); cbn; eexists;
      (split; [reflexivity|]); now destruct (B64.ltb _ _).
  - destruct (isValidData l) eqn:V.
    + assert (T : t = l) by (subst t; now apply valid_pick).
      rewrite T. exists false. now split.
    + assert (T : t = VArr [] []) by (subst t; now apply invalid_pick).
      rewrite T. exists false. split; [|reflexivity].
      destruct (invalid_length l V Pl) as (cur & Ec & Eo).
      rewrite Ec in H. cbn [bind] in H. rewrite Eo in H.
      cbn [optional_member member bind]. exact H.
Qed.

Lemma assign_member_prop v g x v' :
  assign_member v g x = Normal v' -> String.eqb g "length" = false ->
  object_like v' = true /\ prop v' g = x
  /\ (empty_list v = false -> empty_list v' = false).
Proof.
  intros H L. destruct v; try discriminate; cbn in H; injection H as <-;
    unfold prop; cbn [member]; rewrite ?L, get_set_same; auto.
Qed.

Lemma truthy_prop_object v g :
  String.eqb g "length" = false -> truthy (prop v g) = true ->
  object_like v = true.
Proof.
  intros L. unfold prop. destruct v; cbn [member]; rewrite ?L; auto.
Qed.

Lemma reward_value_step_assigned prps s g s' :
  reward_value_step prps s g = Normal s' ->
  truthy prps = true -> String.eqb g "length" = false ->
  assignable (prop prps g) = true ->
  object_like s' = true /\ assignable (prop s' g) = true.
Proof.
  intros H T L A. revert H. unfold reward_value_step.
  rewrite (member_truthy _ _ T). cbn [bind]. rewrite A.
  destruct (truthy s) eqn:Ts; cbn [negb bind].
  - rewrite (member_truthy _ _ Ts). cbn [bind].
    destruct (_ || _)%bool eqn:C.
    + intros H. destruct (assign_member_prop _ _ _ _ H L) as (O & P & _).
      now rewrite P.
    + intros [= <-]. apply orb_false_elim in C as [C1 C2].
      apply negb_false_iff in C1, C2. split.
      * now apply truthy_prop_object with g.
      * unfold assignable. now rewrite C1, C2.
  - intros H. destruct (assign_member_prop _ _ _ _ H L) as (O & P & _).
    now rewrite P.
Qed.

Lemma reward_value_step_kind prps s g s' :
  reward_value_step prps s g = Normal s' ->
  String.eqb g "length" = false ->
  (object_like s = true -> object_like s' = true)
  /\ (empty_list s = false -> empty_list s' = false).
Proof.
  intros H L. revert H. unfold reward_value_step.
  destruct (member prps g) as [pv|]; cbn [bind]; [|discriminate].
  destruct (assignable pv); [|intros [= <-]; auto].
  destruct (truthy s) eqn:Ts; cbn [negb bind].
  - destruct (member s g) as [cur|]; cbn [bind]; [|discriminate].
    destruct (_ || _)%bool; [|intros [= <-]; auto].
    intros H. destruct (assign_member_prop _ _ _ _ H L) as (O & _ & E).
    auto.
  - intros H. destruct (assign_member_prop _ _ _ _ H L) as (O & _ & E).
    auto.
Qed.

(** After the reward loop, every sub-field whose pattern value is
    assignable holds an assignable value. *)
Lemma summary_value_filled prps s0 s f :
  summary_value prps s0 = Normal s ->
  truthy prps = true -> In f rewardFields ->
  assignable (prop prps f) = true ->
  object_like s = true /\ assignable (prop s f) = true.
Proof.
  intros H T I A. revert H. unfold summary_value. rewrite T.
  unfold rewardFields in *. cbn [for_of].
  destruct (reward_value_step prps s0 "opening_balance") as [s1|e] eqn:E1;
    cbn [bind]; [|discriminate].
  destruct (reward_value_step prps s1 "earned") as [s2|e] eqn:E2;
    cbn [bind]; [|discriminate].
  destruct (reward_value_step prps s2 "closing_balance") as [s3|e] eqn:E3;
    cbn [bind]; [|discriminate].
  intros [= <-].
  destruct (reward_value_step_kind _ _ _ _ E2 eq_refl) as (K2 & _).
  destruct (reward_value_step_kind _ _ _ _ E3 eq_refl) as (K3 & _).
  destruct I as [<-|[<-|[<-|[]]]].
  - destruct (reward_value_step_assigned _ _ _ _ E1 T eq_refl A) as (O & P).
    split; [auto|].
    rewrite (reward_value_step_other _ _ _ _ "opening_balance" E3 eq_refl eq_refl).
    now rewrite (reward_value_step_other _ _ _ _ "opening_balance" E2 eq_refl eq_refl).
  - destruct (reward_value_step_assigned _ _ _ _ E2 T eq_refl A) as (O & P).
    split; [auto|].
    now rewrite (reward_value_step_other _ _ _ _ "earned" E3 eq_refl eq_refl).
  - now apply (reward_value_step_assigned _ _ _ _ E3 T eq_refl A).
Qed.

Lemma summary_value_not_empty prps s0 s :
  summary_value prps s0 = Normal s ->
  empty_list s0 = false -> empty_list s = false.
Proof.
  unfold summary_value. destruct (truthy prps); [|now intros [= <-]].
  unfold rewardFields. cbn [for_of].
  destruct (reward_value_step prps s0 "opening_balance") as [s1|e] eqn:E1;
    cbn [bind]; [|discriminate].
  destruct (reward_value_step prps s1 "earned") as [s2|e] eqn:E2;
    cbn [bind]; [|discriminate].
  destruct (reward_value_step prps s2 "closing_balance") as [s3|e] eqn:E3;
    cbn [bind]; [|discriminate].
  intros [= <-] N.
  apply (reward_value_step_kind _ _ _ _ E3 eq_refl).
  apply (reward_value_step_kind _ _ _ _ E2 eq_refl).
  now apply (reward_value_step_kind _ _ _ _ E1 eq_refl).
Qed.

Lemma reward_value_step_noop prps s f :
  truthy prps = true ->
  (assignable (prop prps f) = true ->
   truthy s = true /\ assignable (prop s f) = true) ->
  reward_value_step prps s f = Normal s.
Proof.
  intros T H. destruct (assignable (prop prps f)) eqn:A.
  - destruct (H eq_refl) as (Ts & As).
    unfold reward_value_step. rewrite (member_truthy _ _ T). cbn [bind].
    rewrite A, Ts. cbn [negb]. rewrite (member_truthy _ _ Ts). cbn [bind].
    rewrite (assignable_truthy _ As), (assignable_valid _ As). reflexivity.
  - now apply reward_value_step_skip.
Qed.

Lemma object_like_valid s f :
  object_like s = true -> empty_list s = false ->
  String.eqb f "length" = false ->
  isValidData (prop s f) = true ->
  isValidData s = true /\ String.eqb (typeof s) "object" = true.
Proof.
  intros O N L V. destruct s as [| | | | |elems props|props]; try discriminate.
  - destruct elems; [discriminate|]. now split.
  - destruct props as [|[k v] r]; [|now split].
    unfold prop in V. cbn in V. discriminate.
Qed.

(** The summary of the finalized record keeps the assignable sub-fields
    of the merged summary. *)
Lemma finalized_summary_keeps s sF f :
  derived_summary (pick_summary s default_summary) = Normal sF ->
  In f rewardFields ->
  object_like s = true -> empty_list s = false ->
  assignable (prop s f) = true ->
  truthy sF = true /\ assignable (prop sF f) = true.
Proof.
  intros D I O N A.
  assert (L : String.eqb f "length" = false).
  { unfold rewardFields in I. now destruct I as [<-|[<-|[<-|[]]]]. }
  destruct (object_like_valid s f O N L (assignable_valid _ A)) as (V & T).
  unfold pick_summary in D. rewrite V, T in D. unfold summary_triple in D.
  match type of D with
  | derived_summary (VObj [(_, ?o); (_, ?e); (_, ?c)]) = _ =>
      fold (triple o e c) in D
  end.
  rewrite derived_summary_triple in D.
  unfold rewardFields in I.
  destruct (_ && _ && _)%bool eqn:C.
  - destruct (add _ _) as [v|]; [|discriminate]. cbn [bind] in D.
    injection D as <-. split; [reflexivity|].
    destruct I as [<-|[<-|[<-|[]]]]; unfold prop at 1; cbn.
    + now rewrite valid_nullish by now apply assignable_valid.
    + now rewrite valid_nullish by now apply assignable_valid.
    + apply andb_prop in C as [_ C]. apply negb_true_iff in C.
      rewrite valid_nullish in C by now apply assignable_valid.
      apply assignable_valid in A. congruence.
  - injection D as <-. split; [reflexivity|].
    destruct I as [<-|[<-|[<-|[]]]]; unfold prop at 1; cbn;
      now rewrite valid_nullish by now apply assignable_valid.
Qed.

Lemma summary_stable prps s0 s sF :
  summary_value prps s0 = Normal s ->
  empty_list s0 = false ->
  derived_summary (pick_summary s default_summary) = Normal sF ->
  summary_value prps sF = Normal sF.
Proof.
  intros H N D. unfold summary_value.
  destruct (truthy prps) eqn:T; [|reflexivity].
  assert (K : forall f, In f rewardFields ->
              reward_value_step prps sF f = Normal sF).
  { intros f I. apply reward_value_step_noop; [assumption|].
    intros A.
    destruct (summary_value_filled _ _ _ f H T I A) as (O & P).
    apply (finalized_summary_keeps s sF f); auto.
    now apply (summary_value_not_empty prps s0). }
  unfold rewardFields in *. cbn [for_of].
  rewrite !K by (cbn; auto). cbn [bind].
  rewrite !K by (cbn; auto). cbn [bind].
  now rewrite !K by (cbn; auto).
Qed.

Lemma fill_rule_skip x p : assignable p = false -> fill_rule x p = x.
Proof. unfold fill_rule. now intros ->. Qed.

Lemma fill_rule_keep x p : assignable x = true -> fill_rule x p = x.
Proof.
  intros A. unfold fill_rule.
  rewrite (assignable_truthy _ A), (assignable_valid _ A).
  now destruct (assignable p).
Qed.

Lemma fill_rule_assignable l p :
  assignable p = true -> assignable (fill_rule l p) = true.
Proof.
  intros A. unfold fill_rule. rewrite A.
  destruct (negb (truthy l) || negb (isValidData l))%bool eqn:C; [assumption|].
  apply orb_false_elim in C as [C1 C2]. apply negb_false_iff in C1, C2.
  unfold assignable. now rewrite C1, C2.
Qed.

Lemma fill_stable l p :
  fill_rule (pick (fill_rule l p) VNull) p = pick (fill_rule l p) VNull.
Proof.
  destruct (assignable p) eqn:A; [|now apply fill_rule_skip].
  pose proof (fill_rule_assignable l p A) as X.
  rewrite valid_pick by now apply assignable_valid.
  now apply fill_rule_keep.
Qed.

Lemma fill_available_stable c t l p a :
  derived_available c t (pick (fill_rule l p) VNull) = Normal a ->
  fill_rule a p = a.
Proof.
  destruct (assignable p) eqn:A; [|intros _; now apply fill_rule_skip].
  pose proof (fill_rule_assignable l p A) as X.
  unfold derived_available.
  rewrite valid_pick by now apply assignable_valid.
  rewrite (assignable_valid _ X), andb_false_r.
  intros [= <-]. now apply fill_rule_keep.
Qed.

Lemma fill_minimum_stable t l p m :
  derived_minimum t (pick (fill_rule l p) VNull) = Normal m ->
  fill_rule m p = m.
Proof.
  destruct (assignable p) eqn:A; [|intros _; now apply fill_rule_skip].
  pose proof (fill_rule_assignable l p A) as X.
  unfold derived_minimum.
  rewrite valid_pick by now apply assignable_valid.
  rewrite (assignable_valid _ X), andb_false_r.
  intros [= <-]. now apply fill_rule_keep.
Qed.

Lemma hp_stable l p :
  hp_rule (pick (hp_rule l p) VNull) p = pick (hp_rule l p) VNull.
Proof.
  unfold hp_rule. destruct (assignable p) eqn:A; [|reflexivity].
  symmetry. apply valid_pick. now apply assignable_valid.
Qed.

(** Merging the same pattern record into a finalized result changes
    none of its fields. *)
Lemma merge_noop llm pat m r :
  placeholder_string (get llm "transactions") = false ->
  empty_list (get llm "reward_points_summary") = false ->
  robustDataMerging llm pat = Normal m ->
  finalValidationAndCalculation m = Normal r ->
  exists m2, robustDataMerging r pat = Normal m2
             /\ forall k, get m2 k = get r k.
Proof.
  intros Ptx Erps Hm Hf.
  destruct (merge_inv _ _ _ Hm) as (longer & s & TX & SV & G).
  destruct (finalize_inv _ _ Hf) as (a & sF & mn & A & S & Mn & ->).
  assert (Gtx : get m "transactions"
                = if longer then get pat "transactions"
                  else get llm "transactions") by now rewrite G.
  assert (Grps : get m "reward_points_summary" = s) by now rewrite G.
  destruct (tx_stable _ _ _ Ptx TX) as (longer2 & TX2 & Etx).
  rewrite <- Gtx in TX2, Etx. rewrite Grps in S.
  pose proof (summary_stable _ _ _ _ SV Erps S) as SV2.
  pose proof (merge_spec (finalized m a sF mn) pat) as Sp.
  unfold merge_effects in Sp.
  change (get (finalized m a sF mn) "transactions")
    with (pick (get m "transactions") (VArr [] [])) in Sp.
  change (get (finalized m a sF mn) "reward_points_summary") with sF in Sp.
  rewrite TX2 in Sp. cbn [bind] in Sp. rewrite SV2 in Sp. cbn [bind] in Sp.
  destruct Sp as (m2 & E2 & G2). exists m2. split; [exact E2|].
  intros k. rewrite G2. unfold merge_get. rewrite !get_finalized.
  unfold field in A, Mn. repeat rewrite G in A. repeat rewrite G in Mn.
  unfold merge_get in A, Mn.
  cbn [String.eqb Ascii.eqb Bool.eqb Str.includes existsb app orb
       financialFields dateFields] in A, Mn.
  repeat match goal with
    | |- context [String.eqb k ?f] =>
        let E := fresh "E" in
        destruct (String.eqb k f) eqn:E;
        [ apply String.eqb_eq in E; subst k;
          cbn [String.eqb Ascii.eqb Bool.eqb Str.includes existsb app orb
               financialFields dateFields];
          try reflexivity; try exact Etx;
          try (unfold field; rewrite G; unfold merge_get;
               cbn [String.eqb Ascii.eqb Bool.eqb Str.includes existsb app
                    orb financialFields dateFields];
               first [apply fill_stable | apply hp_stable]);
          try (eapply fill_available_stable; eassumption);
          try (eapply fill_minimum_stable; eassumption) | ]
    end.
  cbn [Str.includes existsb app orb financialFields dateFields].
  rewrite ?E, ?E0, ?E1, ?E2, ?E3, ?E4, ?E5, ?E6, ?E7, ?E8, ?E9, ?E10, ?E11.
  reflexivity.
Qed.

(** C4, amended.  When the llm record's transactions are no unusable
    string and its reward_points_summary is no empty list, a record returned
    by merge-then-finalize is returned unchanged when it is merged with the
    same pattern record and finalized again. *)
Theorem merge_then_finalize_idempotent llm pat r :
  placeholder_string (get llm "transactions") = false ->
  empty_list (get llm "reward_points_summary") = false ->
  merge_then_finalize llm pat = Normal r ->
  merge_then_finalize r pat = Normal r.
Proof.
  unfold merge_then_finalize. intros Ptx Erps H.
  destruct (robustDataMerging llm pat) as [m|] eqn:Hm; [|discriminate].
  cbn [bind] in H.
  destruct (merge_noop _ _ _ _ Ptx Erps Hm H) as (m2 & -> & G).
  cbn [bind]. rewrite (finalize_ext _ _ G).
  now apply finalize_fixpoint with m.
Qed.

Lemma merge_then_finalize_not_idempotent :
  exists r1 r2,
    merge_then_finalize placeholder_llm one_row_pat = Normal r1
    /\ merge_then_finalize r1 one_row_pat = Normal r2
    /\ get r1 "transactions" = VArr [] []
    /\ get r2 "transactions" = get one_row_pat "transactions"
    /\ r2 <> r1.
Proof.
  do 2 eexists. split; [reflexivity|]. split; [reflexivity|].
  split; [reflexivity|]. split; [reflexivity|]. discriminate.
Qed.

End Idempotence.

Module Lengths.
Import JS Route Model Records Validation Finalization Merging
  MergeProperties Idempotence.

Lemma shr_1_nonneg mrs : 0 <= shr_m mrs -> 0 <= shr_m (shr_1 mrs).
Proof.
  destruct mrs as [m r s]. cbn [shr_m shr_1].
  destruct m as [|p|p]; [reflexivity| |lia]. intros _.
  destruct p; cbn [shr_m]; lia.
Qed.

Lemma iter_shr_nonneg p : forall mrs,
  0 <= shr_m mrs -> 0 <= shr_m (iter_pos shr_1 p mrs).
Proof.
  induction p as [p IH|p IH|]; intros mrs H; cbn [iter_pos].
  - apply IH, IH. now apply shr_1_nonneg.
  - now apply IH, IH.
  - now apply shr_1_nonneg.
Qed.

Lemma shr_fexp_nonneg m e l :
  0 <= m -> 0 <= shr_m (fst (shr_fexp B64.prec B64.emax m e l)).
Proof.
  intros H. unfold shr_fexp, shr.
  assert (R : 0 <= shr_m (shr_record_of_loc m l)).
  { now destruct l as [|[| |]]. }
  destruct (_ - e) as [|p|p]; cbn [fst]; auto.
  now apply iter_shr_nonneg.
Qed.

Lemma round_nearest_even_nonneg m l : 0 <= m -> 0 <= round_nearest_even m l.
Proof.
  intros H. unfold round_nearest_even.
  destruct l as [|[| |]]; try lia. destruct (Z.even m); lia.
Qed.

(** Rounding a natural mantissa gives no NaN, and keeps the sign. *)
Lemma binary_round_aux_sign sx mx ex lx :
  0 <= mx ->
  match binary_round_aux B64.prec B64.emax sx mx ex lx with
  | S754_zero s | S754_infinity s | S754_finite s _ _ => s = sx
  | S754_nan => False
  end.
Proof.
  intros H. unfold binary_round_aux.
  pose proof (shr_fexp_nonneg mx ex lx H) as H1.
  destruct (shr_fexp _ _ mx ex lx) as [mrs' e']. cbn [fst] in H1.
  pose proof (round_nearest_even_nonneg _ (loc_of_shr_record mrs') H1) as H2.
  pose proof (shr_fexp_nonneg _ e' loc_Exact H2) as H3.
  destruct (shr_fexp _ _ _ e' loc_Exact) as [mrs'' e'']. cbn [fst] in H3.
  destruct (shr_m mrs'') as [|p|p]; [reflexivity| |lia].
  now destruct (_ <=? _).
Qed.







End Lengths.

Module RegexFacts.
Import Model Regex.

Lemma suffix_refl l : suffix l l.
Proof. now exists []. Qed.

Lemma suffix_trans a b c : suffix a b -> suffix b c -> suffix a c.
Proof.
  intros (p & ->) (q & ->). exists (q ++ p)%list. now rewrite app_assoc.
Qed.

Lemma suffix_tail c l : suffix l (c :: l).
Proof. now exists [c]. Qed.

Lemma iterate_fails greedy step k :
  (forall st k', (forall st', suffix (rest st') (rest st) -> k' st' = None) ->
                 step st k' = None) ->
  forall fuel st,
    (forall st', suffix (rest st') (rest st) -> k st' = None) ->
    iterate greedy step k fuel st = None.
Proof.
  intros Step. induction fuel as [|f IHf]; intros st K; cbn [iterate].
  - apply K, suffix_refl.
  - rewrite (K st (suffix_refl _)). rewrite Step.
    + now destruct greedy.
    + intros st' S. destruct (Nat.ltb _ _); [|reflexivity].
      apply IHf. intros st'' S'. apply K.
      eapply suffix_trans; eassumption.
Qed.

(** A match fails when its continuation fails wherever the match can
    end. *)
Lemma run_fails r : forall st k,
  (forall st', suffix (rest st') (rest st) -> k st' = None) ->
  run r st k = None.
Proof.
  induction r as [|p|a IHa b IHb|a IHa b IHb|greedy a IH|n a IH
                 |positive a IH|multiline|multiline|];
    intros st k K; cbn [run].
  - apply K, suffix_refl.
  - destruct (rest st) as [|c tl] eqn:E; [reflexivity|].
    destruct (p c); [|reflexivity]. apply K. cbn [rest].
    apply suffix_tail.
  - apply IHa. intros st' S. apply IHb. intros st'' S'.
    apply K. eapply suffix_trans; eassumption.
  - rewrite IHa by assumption. cbn [or_option]. now apply IHb.
  - apply iterate_fails; assumption.
  - apply IH. intros st' S. apply K. exact S.
  - destruct (run a st Some) as [st'|].
    + destruct positive; [|reflexivity]. apply K. cbn [rest].
      apply suffix_refl.
    + destruct positive; [reflexivity|]. apply K, suffix_refl.
  - destruct (before st) as [|c tl]; [apply K, suffix_refl|].
    destruct (_ && _)%bool; [apply K, suffix_refl|reflexivity].
  - pose proof (K st (suffix_refl _)) as Kst.
    destruct (rest st) as [|c tl]; [exact Kst|].
    now destruct (_ && _)%bool.
  - destruct (xorb _ _); [apply K, suffix_refl|reflexivity].
Qed.

Lemma needs_chr c : needs c (chr c).
Proof.
  intros st k N. cbn [run chr]. destruct (rest st) as [|x tl]; [reflexivity|].
  destruct (Ascii.eqb_spec c x) as [<-|]; [|reflexivity].
  exfalso. apply N. now left.
Qed.

Lemma needs_seq_l c a b : needs c a -> needs c (Seq a b).
Proof. intros H st k N. cbn [run]. now apply H. Qed.

Lemma needs_seq_r c a b : needs c b -> needs c (Seq a b).
Proof.
  intros H st k N. cbn [run]. apply run_fails. intros st' (p & E).
  apply H. intros I. apply N. rewrite E. apply in_or_app. now right.
Qed.

Lemma needs_group c n a : needs c a -> needs c (Group n a).
Proof. intros H st k N. cbn [run]. now apply H. Qed.

Lemma search_fails r : forall l pre,
  (forall pre' l', suffix l' l -> match_here r pre' l' = None) ->
  search r pre l = None.
Proof.
  induction l as [|c tl IH]; intros pre H; cbn [search].
  - now rewrite H by apply suffix_refl.
  - rewrite H by apply suffix_refl. apply IH. intros pre' l' S.
    apply H. eapply suffix_trans; [exact S|apply suffix_tail].
Qed.

Lemma match_here_fails r pre l :
  run r {| before := pre; rest := l; caps := [] |} Some = None ->
  match_here r pre l = None.
Proof. unfold match_here. now intros ->. Qed.

End RegexFacts.

Module Recovery.
Import JS Route Model Records Validation Finalization Merging
  MergeProperties FinalizationProperties Idempotence RegexFacts.

Lemma exec_needs c r s :
  needs c r -> ~ In c (Str.chars s) -> Regex.exec r s = None.
Proof.
  intros H N. unfold Regex.exec. apply search_fails.
  intros pre l (p & E). apply match_here_fails, H.
  cbn [Regex.rest]. intros I. apply N. rewrite E.
  apply in_or_app. now right.
Qed.

Lemma codeBlock_needs_brace : needs "{" codeBlock.
Proof.
  unfold codeBlock. cbn [Regex.seq].
  do 3 apply needs_seq_r. apply needs_seq_l, needs_group, needs_seq_l.
  apply needs_chr.
Qed.

Lemma jsonObject_needs_brace : needs "{" jsonObject.
Proof.
  unfold jsonObject. cbn [Regex.seq]. apply needs_seq_l, needs_chr.
Qed.

(** A response without an opening brace holds no JSON. *)
Lemma no_brace_no_json response :
  ~ In "{"%char (Str.chars response) ->
  extractJsonFromResponse response = createCompleteFallbackData.
Proof.
  intros N. unfold extractJsonFromResponse.
  rewrite (exec_needs _ _ _ codeBlock_needs_brace N).
  now rewrite (exec_needs _ _ _ jsonObject_needs_brace N).
Qed.

End Recovery.

Module Pipeline.
Import JS Route Model Records Validation Finalization Merging
  MergeProperties FinalizationProperties Idempotence RegexFacts Recovery.

Lemma flat_get o k : flat o -> primitive (get o k) = true.
Proof.
  unfold get. induction 1 as [|[k' v] r H _ IH]; cbn [lookup]; [reflexivity|].
  destruct (String.eqb k k'); [exact H|exact IH].
Qed.

Lemma flat_set o k v : flat o -> primitive v = true -> flat (set o k v).
Proof.
  intros F P. induction F as [|[k' v'] r H F IH]; cbn [set].
  - now repeat constructor.
  - destruct (String.eqb k k'); constructor; auto.
Qed.

Lemma flat_spread a b : flat a -> flat b -> flat (spread a b).
Proof.
  unfold spread. intros Fa Fb. revert a Fa.
  induction Fb as [|[k v] r H _ IH]; intros a Fa; cbn [fold_left]; auto.
  apply IH. now apply flat_set.
Qed.

Lemma flat_fold {A} (f : obj -> A -> obj) (l : list A) :
  (forall o x, flat o -> flat (f o x)) ->
  forall o, flat o -> flat (fold_left f l o).
Proof.
  intros Step. induction l as [|x r IH]; intros o F; cbn [fold_left]; auto.
Qed.

Lemma flat_customer text : flat (extractCustomerInfoFromText text).
Proof.
  unfold extractCustomerInfoFromText, of_option.
  repeat constructor; cbn [snd];
    match goal with |- context [match ?x with _ => _ end] => now destruct x end.
Qed.

Lemma flat_dates text : flat (extractDatesFromText text).
Proof.
  unfold extractDatesFromText. apply flat_fold.
  - intros o x F. destruct (Regex.exec _ _); [|exact F].
    destruct (non_empty _); [|exact F]. now apply flat_set.
  - now repeat constructor.
Qed.

Lemma flat_financial text : flat (extractFinancialDataFromText text).
Proof.
  unfold extractFinancialDataFromText.
  match goal with |- context [fold_left ?f ?l ?o] =>
    assert (F : flat (fold_left f l o)); [|set (fd := fold_left f l o) in *]
  end.
  { apply flat_fold; [|constructor].
    intros o x F. destruct (Regex.exec _ _); [|exact F].
    destruct (non_empty _); [|exact F]. now apply flat_set. }
  destruct (_ && _ && _)%bool; [|exact F].
  destruct (get fd "credit_limit"); try exact F.
  destruct (get fd "total_amount_due"); try exact F.
  now apply flat_set.
Qed.

Lemma group_number_primitive m n : primitive (group_number m n) = true.
Proof. unfold group_number. now destruct (Regex.group m n). Qed.

(** The reward extractor returns a triple of numbers or nulls. *)
Lemma rewards_triple text :
  exists ob ea cb,
    extractRewardPointsFromText text = triple ob ea cb
    /\ primitive ob = true /\ primitive ea = true /\ primitive cb = true.
Proof.
  unfold extractRewardPointsFromText.
  match goal with |- context [first_pattern ?l ?f] =>
    assert (P : match first_pattern l f with
                | Some (a, b, c) =>
                    primitive a = true /\ primitive b = true
                    /\ primitive c = true
                | None => True
                end)
  end.
  { induction rewardPatterns as [|p r IH]; cbn [first_pattern]; [exact I|].
    destruct (Regex.exec (fst p) text); [|exact IH].
    destruct (Nat.leb 3 (snd p)); repeat split;
      auto using group_number_primitive. }
  destruct (first_pattern _ _) as [[[a b] c]|].
  - destruct P as (Pa & Pb & Pc). do 3 eexists. split; [reflexivity|].
    repeat split; auto.
    destruct a; auto; destruct b; auto; destruct c; auto.
  - do 3 eexists. split; [reflexivity|]. repeat split; reflexivity.
Qed.

Lemma transactions_list text :
  exists rows, extractTransactionsFromText text = VArr rows [].
Proof. unfold extractTransactionsFromText. eauto. Qed.

Lemma patternMatchedData_typed text : pattern_typed (patternMatchedData text).
Proof.
  unfold pattern_typed, patternMatchedData.
  rewrite !get_set. cbn [String.eqb Ascii.eqb Bool.eqb].
  assert (F : flat (spread
                      (spread (spread [] (extractCustomerInfoFromText text))
                         (extractDatesFromText text))
                      (extractFinancialDataFromText text))).
  { repeat apply flat_spread;
      auto using flat_customer, flat_dates, flat_financial. constructor. }
  repeat split; try (now apply flat_get).
  - apply transactions_list.
  - apply rewards_triple.
Qed.

Lemma fallback_field_set pat acc f :
  has acc f = true ->
  fallback_field pat acc f = set acc f (pick (get pat f) (get acc f)).
Proof.
  intros H. unfold fallback_field, pick. rewrite has_and_valid.
  destruct (isValidData (get pat f)).
  - now destruct (_ && _)%bool.
  - now rewrite set_get_id.
Qed.

Lemma fallback_loop pat :
  fold_left (fallback_field pat) (keys createCompleteFallbackData)
    createCompleteFallbackData
  = pattern_only pat.
Proof.
  unfold createCompleteFallbackData, keys, pattern_only.
  cbn [map fst fold_left].
  repeat match goal with
    | |- context [fallback_field pat (?h :: ?t) ?f] =>
        rewrite (fallback_field_set pat (h :: t) f) by reflexivity;
        cbn [set String.eqb Ascii.eqb Bool.eqb get has lookup]
    end.
  reflexivity.
Qed.

Lemma primitive_summary v ob ea cb :
  v = triple ob ea cb ->
  primitive ob = true -> primitive ea = true ->
  primitive (prop (pick v default_summary) "opening_balance") = true
  /\ primitive (prop (pick v default_summary) "earned") = true.
Proof.
  intros -> Po Pe. unfold pick. now destruct (isValidData _).
Qed.

Lemma pattern_only_returns pat :
  pattern_typed pat ->
  exists r, finalValidationAndCalculation (pattern_only pat) = Normal r.
Proof.
  intros (Pc & Pt & _ & ob & ea & cb & E & Po & Pe & _).
  apply finalize_returns. unfold primitive_operands, pattern_only.
  cbn [map createCompleteFallbackData get lookup String.eqb Ascii.eqb
       Bool.eqb].
  rewrite !primitive_pick by auto. cbn [andb]. fold default_summary.
  destruct (primitive_summary _ _ _ _ E Po Pe) as (-> & ->). reflexivity.
Qed.

Lemma hp_rule_primitive l p :
  primitive l = true -> primitive p = true -> primitive (hp_rule l p) = true.
Proof. unfold hp_rule. now destruct (assignable p). Qed.

Lemma fill_rule_primitive l p :
  primitive l = true -> primitive p = true -> primitive (fill_rule l p) = true.
Proof.
  unfold fill_rule. destruct (assignable p); [|auto].
  now destruct (_ || _)%bool.
Qed.

(** The reward loop on the summary of the fallback record. *)
Lemma summary_value_fallback ob ea cb :
  summary_value (triple ob ea cb) (triple VNull VNull VNull)
  = Normal (triple (hp_rule VNull ob) (hp_rule VNull ea) (hp_rule VNull cb)).
Proof.
  unfold summary_value, rewardFields, reward_value_step, hp_rule, triple.
  cbn [truthy for_of member get lookup String.eqb Ascii.eqb Bool.eqb bind].
  destruct (assignable ob);
    cbn [truthy negb member get lookup String.eqb Ascii.eqb Bool.eqb bind
         isValidData orb assign_member set];
    destruct (assignable ea);
    cbn [truthy negb member get lookup String.eqb Ascii.eqb Bool.eqb bind
         isValidData orb assign_member set];
    destruct (assignable cb);
    cbn [truthy negb member get lookup String.eqb Ascii.eqb Bool.eqb bind
         isValidData orb assign_member set];
    reflexivity.
Qed.

Lemma tx_longer_fallback rows :
  exists longer, tx_longer (VArr [] []) (VArr rows []) = Normal longer.
Proof.
  unfold tx_longer. destruct (assignable _); [|eauto].
  cbn [Array_isArray member optional_member bind String.eqb Ascii.eqb
       Bool.eqb].
  unfold gt, or_else.
  destruct (truthy _); cbn [ToPrimitive ToNumber bind VNat num]; eauto.
Qed.

(** With the fully-null record for the model's answer, merge and
    finalization both return. *)
Lemma merge_fallback_returns pat :
  pattern_typed pat ->
  exists r, merge_then_finalize createCompleteFallbackData pat = Normal r.
Proof.
  intros (Pc & Pt & (rows & Et) & ob & ea & cb & E & Po & Pe & Pcb).
  unfold merge_then_finalize.
  pose proof (merge_spec createCompleteFallbackData pat) as S.
  unfold merge_effects in S. rewrite Et, E in S.
  change (get createCompleteFallbackData "transactions")
    with (VArr [] []) in S.
  change (get createCompleteFallbackData "reward_points_summary")
    with (triple VNull VNull VNull) in S.
  destruct (tx_longer_fallback rows) as (longer & El).
  rewrite El, summary_value_fallback in S. cbn [bind] in S.
  destruct S as (m & -> & G). cbn [bind].
  apply finalize_returns. unfold primitive_operands. rewrite !G.
  unfold merge_get.
  cbn [String.eqb Ascii.eqb Bool.eqb Str.includes existsb app orb
       financialFields dateFields].
  rewrite !fill_rule_primitive by auto.
  unfold prop, triple. cbn [member get lookup String.eqb Ascii.eqb Bool.eqb].
  now rewrite !hp_rule_primitive by auto.
Qed.


End Pipeline.

Module Cases.
Import JS Route Model Records Validation Finalization Merging
  MergeProperties FinalizationProperties Idempotence Lengths RegexFacts
  Recovery Pipeline.

(** C9, at two texts: the name returned holds the word "email" when the
    word does not end the captured name. *)
Theorem customer_name_keeps_email :
  get (extractCustomerInfoFromText name_then_email_label) "customer_name"
  = VStr ("John Doe" ++ line_feed_string ++ "Email Address")
  /\ mentions_email ("John Doe" ++ line_feed_string ++ "Email Address")
     = true
  /\ get (extractCustomerInfoFromText "Customer Name: email John")
       "customer_name"
     = VStr "email John"
  /\ mentions_email "email John" = true.
Proof.
  split; [vm_compute; reflexivity|]. split; [vm_compute; reflexivity|].
  split; vm_compute; reflexivity.
Qed.

Example trailing_email_is_stripped :
  get (extractCustomerInfoFromText "Customer Name: John Doe email")
    "customer_name" = VStr "John Doe".
Proof. vm_compute. reflexivity. Qed.

Example name_before_email_line_is_rejected :
  get (extractCustomerInfoFromText
         ("Name: John Doe" ++ line_feed_string ++ "Email: john@example.com"))
    "customer_name" = VNull.
Proof. vm_compute. reflexivity. Qed.

(** The examples of the specification. *)
Example available_credit_38000 :
  finalValidationAndCalculation
    [("credit_limit", num 50000); ("total_amount_due", num 12000)]
  = Normal (finalized
              [("credit_limit", num 50000); ("total_amount_due", num 12000)]
              (num 38000) default_summary (num 600)).
Proof. vm_compute. reflexivity. Qed.

Example closing_balance_150 :
  option_map (fun r => get r "reward_points_summary")
    (match finalValidationAndCalculation
             [("reward_points_summary",
               VObj [("opening_balance", num 100); ("earned", num 50)])] with
     | Normal r => Some r
     | Throws _ => None
     end)
  = Some (triple (num 100) (num 50) (num 150)).
Proof. vm_compute. reflexivity. Qed.

Example minimum_due_100 :
  minimum_of (num 2000) = Normal (num 100).
Proof. vm_compute. reflexivity. Qed.

Example amount_with_separators :
  get (extractFinancialDataFromText "Total Amount Due: 12,345.67")
    "total_amount_due"
  = VNum (B64.of_string "12345.67").
Proof. vm_compute. reflexivity. Qed.

Example transaction_lines :
  extractTransactionsFromText
    ("YOUR TRANSACTIONS" ++ line_feed_string
     ++ "12/04/2024 AMAZON RETAIL 1499.00" ++ line_feed_string
     ++ "13/04/2024 AMAZON RETAIL 1499.00 CR")
  = VArr [ VObj [("date", VStr "12/04/2024");
                 ("description", VStr "AMAZON RETAIL");
                 ("amount", num 1499)];
           VObj [("date", VStr "13/04/2024");
                 ("description", VStr "AMAZON RETAIL");
                 ("amount", VNum (SFopp (B64.of_Z 1499)))] ] [].
Proof. vm_compute. reflexivity. Qed.

Example prose_is_no_json :
  extractJsonFromResponse "I could not find any data in this statement."
  = createCompleteFallbackData.
Proof. vm_compute. reflexivity. Qed.


Lemma finalize_keeps_unusable_sub_field :
  exists r,
    finalValidationAndCalculation placeholder_points = Normal r
    /\ prop (get r "reward_points_summary") "opening_balance" = VStr "null"
    /\ isValidData (VStr "null") = false
    /\ ~ all_default_or_usable r.
Proof.
  eexists. split; [reflexivity|]. split; [reflexivity|].
  split; [reflexivity|].
  intros (_ & C). destruct (C "opening_balance") as [E|E].
  - cbn. auto.
  - discriminate E.
  - discriminate E.
Qed.

Lemma finalize_keeps_textual_fields :
  exists r,
    finalValidationAndCalculation textual_fields = Normal r
    /\ get r "transactions" = VStr "see the attached statement"
    /\ get r "reward_points_summary" = VStr "none"
    /\ ~ full_key_set r.
Proof.
  eexists. split; [reflexivity|]. split; [reflexivity|].
  split; [reflexivity|].
  intros (_ & T & _). discriminate T.
Qed.



Lemma finalize_revalidates_top_level_witness :
  finalValidationAndCalculation sample_llm = Normal sample_final
  /\ get sample_final "customer_name" = get sample_llm "customer_name".
Proof.
  assert (H : finalValidationAndCalculation sample_llm = Normal sample_final)
    by reflexivity.
  split; [exact H|].
  refine (proj1 (finalize_revalidates_top_level _ _ H) "customer_name" _ _).
  - cbn. auto.
  - discriminate.
Defined.

Lemma merge_then_finalize_idempotent_witness :
  placeholder_string (get sample_llm "transactions") = false
  /\ empty_list (get sample_llm "reward_points_summary") = false
  /\ merge_then_finalize sample_llm sample_pat = Normal sample_record
  /\ merge_then_finalize sample_record sample_pat = Normal sample_record.
Proof.
  assert (H : merge_then_finalize sample_llm sample_pat
              = Normal sample_record) by reflexivity.
  split; [reflexivity|]. split; [reflexivity|]. split; [exact H|].
  exact (merge_then_finalize_idempotent sample_llm sample_pat sample_record
           eq_refl eq_refl H).
Defined.


Lemma finalize_key_set_witness :
  primitive_operands sample_llm = true
  /\ finalValidationAndCalculation sample_llm = Normal sample_final
  /\ keys sample_final = keys createCompleteFallbackData
  /\ Array_isArray (get sample_final "transactions") = true.
Proof.
  assert (H : finalValidationAndCalculation sample_llm = Normal sample_final)
    by reflexivity.
  destruct (proj2 (finalize_key_set sample_llm) _ H) as (K & _ & _ & T & _).
  split; [reflexivity|]. split; [exact H|]. split; [exact K|].
  exact (T eq_refl).
Defined.


End Cases.

Module Matching.
Import Regex Semantics Model RegexFacts.

Local Open Scope nat_scope.

Lemma or_option_some {A} (a b : option A) x :
  or_option a b = Some x -> a = Some x \/ (a = None /\ b = Some x).
Proof. destruct a; cbn; intros H; [left|right]; auto. Qed.

Lemma or_option_defined {A} (a b : option A) :
  a <> None \/ b <> None -> or_option a b <> None.
Proof. destruct a; cbn; intros [H|H]; congruence. Qed.

Lemma iterate_sound greedy step (R : state -> state -> Prop) k :
  (forall st k' res, step st k' = Some res ->
                     exists st', R st st' /\ k' st' = Some res) ->
  forall fuel st res,
    iterate greedy step k fuel st = Some res ->
    exists st', iterated R st st' /\ k st' = Some res.
Proof.
  intros Step. induction fuel as [|f IH]; intros st res H; cbn [iterate] in H.
  - exists st. split; [constructor|exact H].
  - assert (M : forall x,
      step st (fun st' =>
                 if Nat.ltb (List.length (rest st')) (List.length (rest st))
                 then iterate greedy step k f st' else None) = Some x ->
      exists st', iterated R st st' /\ k st' = Some x).
    { intros x E. apply Step in E. destruct E as (mid & R1 & E).
      destruct (Nat.ltb _ _) eqn:L; [|discriminate].
      apply IH in E. destruct E as (st' & I & K). exists st'.
      split; [|exact K]. eapply iterated_more; eauto.
      now apply Nat.ltb_lt. }
    destruct greedy; apply or_option_some in H.
    + destruct H as [H|[_ H]]; [now apply M|].
      exists st. split; [constructor|exact H].
    + destruct H as [H|[_ H]]; [|now apply M].
      exists st. split; [constructor|exact H].
Qed.

(** The matcher is sound: where it succeeds, the pattern matches up to a
    position from which the continuation gives the result. *)
Lemma run_sound r : forall st k res,
  run r st k = Some res ->
  exists st', matches r st st' /\ k st' = Some res.
Proof.
  induction r as [|p|a IHa b IHb|a IHa b IHb|greedy a IH|n a IH
                 |positive a IH|multiline|multiline|];
    intros st k res H; cbn [run] in H; cbn [matches].
  - now exists st.
  - destruct (rest st) as [|c tl] eqn:E; [discriminate|].
    destruct (p c) eqn:Pc; [|discriminate].
    eexists. split; [|exact H]. now exists c, tl.
  - apply IHa in H. destruct H as (mid & A & H).
    apply IHb in H. destruct H as (st' & B & H).
    exists st'. split; [|exact H]. now exists mid.
  - apply or_option_some in H. destruct H as [H|[_ H]].
    + apply IHa in H. destruct H as (st' & A & H). exists st'. auto.
    + apply IHb in H. destruct H as (st' & B & H). exists st'. auto.
  - eapply iterate_sound; [|exact H]. exact IH.
  - apply IH in H. destruct H as (mid & A & H).
    exists (capture n st mid). split; [|exact H]. now exists mid.
  - destruct (run a st Some) as [s|].
    + destruct positive; [|discriminate]. eexists. split; [|exact H]. auto.
    + destruct positive; [discriminate|]. exists st. auto.
  - exists st. split; [split; [reflexivity|]|].
    + destruct (before st) as [|c tl]; [exact I|].
      now destruct (_ && _)%bool.
    + destruct (before st) as [|c tl]; [exact H|].
      now destruct (_ && _)%bool.
  - exists st. split; [split; [reflexivity|]|].
    + destruct (rest st) as [|c tl]; [exact I|].
      now destruct (_ && _)%bool.
    + destruct (rest st) as [|c tl]; [exact H|].
      now destruct (_ && _)%bool.
  - exists st. destruct (xorb _ _) eqn:X; [|discriminate]. auto.
Qed.

Lemma iterate_complete greedy step (R : state -> state -> Prop) k :
  (forall st st' k', R st st' -> k' st' <> None -> step st k' <> None) ->
  forall st st', iterated R st st' -> k st' <> None ->
  forall fuel, List.length (rest st) < fuel ->
    iterate greedy step k fuel st <> None.
Proof.
  intros Step st st' I. induction I as [st|st mid st' R1 L I IH];
    intros K fuel F; (destruct fuel as [|f]; [lia|]); cbn [iterate].
  - destruct greedy; apply or_option_defined; auto.
  - assert (M : step st (fun st' =>
                 if Nat.ltb (List.length (rest st')) (List.length (rest st))
                 then iterate greedy step k f st' else None) <> None).
    { eapply Step; [exact R1|].
      apply Nat.ltb_lt in L. rewrite L. apply IH; [exact K|].
      apply Nat.ltb_lt in L. lia. }
    destruct greedy; apply or_option_defined; auto.
Qed.

(** The matcher is complete: it succeeds where the pattern matches up to
    a position that the continuation accepts. *)
Lemma run_complete r : forall st st' k,
  matches r st st' -> k st' <> None -> run r st k <> None.
Proof.
  induction r as [|p|a IHa b IHb|a IHa b IHb|greedy a IH|n a IH
                 |positive a IH|multiline|multiline|];
    intros st st' k M K; cbn [run]; cbn [matches] in M.
  - now subst.
  - destruct M as (c & tl & E & Pc & ->). now rewrite E, Pc.
  - destruct M as (mid & A & B). eapply IHa; [exact A|].
    eapply IHb; eauto.
  - apply or_option_defined. destruct M as [A|B]; [left|right]; eauto.
  - eapply iterate_complete; eauto.
  - destruct M as (mid & A & ->). eapply IH; eauto.
  - destruct (run a st Some) as [s|]; destruct M as [-> ->]; exact K.
  - destruct M as [-> M]. destruct (before st) as [|c tl]; [exact K|].
    now rewrite M.
  - destruct M as [-> M]. destruct (rest st) as [|c tl]; [exact K|].
    now rewrite M.
  - destruct M as [-> M]. now rewrite M.
Qed.

(** *** The text that a match consumes *)

Lemma class_within_spec P p c :
  class_within P p = true -> p c = true -> P c = true.
Proof.
  unfold class_within. rewrite forallb_forall. intros H Pc.
  assert (I : In c all_ascii).
  { unfold all_ascii. rewrite <- (ascii_nat_embedding c).
    apply in_map, in_seq. pose proof (nat_ascii_bounded c). lia. }
  specialize (H c I). now rewrite Pc in H.
Qed.

Lemma span_refl st : span st st [].
Proof. now split. Qed.

Lemma span_trans st mid st' u v :
  span st mid u -> span mid st' v -> span st st' (u ++ v).
Proof.
  intros [R1 B1] [R2 B2]. split.
  - now rewrite R1, R2, app_assoc.
  - now rewrite B2, B1, rev_app_distr, app_assoc.
Qed.

Lemma span_length st st' w :
  span st st' w ->
  List.length (rest st) = List.length w + List.length (rest st').
Proof. intros [R _]. now rewrite R, length_app. Qed.

Lemma span_consumed st st' w : span st st' w -> consumed st st' = w.
Proof.
  intros [R _]. unfold consumed. rewrite R, length_app.
  replace (_ + _ - _) with (List.length w + 0) by lia.
  rewrite firstn_app_2. cbn. now rewrite app_nil_r.
Qed.

Lemma span_unique st st' u v : span st st' u -> span st st' v -> u = v.
Proof.
  intros U V. rewrite <- (span_consumed _ _ _ U).
  now apply span_consumed.
Qed.

(** What a match consumes, by the measures of its pattern. *)
Lemma matches_word r : forall st st',
  matches r st st' ->
  exists w,
    span st st' w
    /\ (forall P, within P r = true -> Forall (fun c => P c = true) w)
    /\ (forall P, requires P r = true -> Exists (fun c => P c = true) w)
    /\ (forall P, least P r <= List.length (filter P w))
    /\ (forall n, most r = Some n -> List.length w <= n).
Proof.
  assert (Nil : forall st (x : re),
    (forall P, requires P x = false) ->
    (forall P, least P x = 0) ->
    exists w : list ascii,
      span st st w
      /\ (forall P, within P x = true -> Forall (fun c => P c = true) w)
      /\ (forall P, requires P x = true -> Exists (fun c => P c = true) w)
      /\ (forall P, least P x <= List.length (filter P w))
      /\ (forall n, most x = Some n -> List.length w <= n)).
  { intros st x Q L. exists []. split; [apply span_refl|].
    split; [constructor|].
    split; [intros P H; rewrite Q in H; discriminate|].
    split; [intros P; rewrite L; cbn; lia|]. intros n H. cbn. lia. }
  induction r as [|p|a IHa b IHb|a IHa b IHb|greedy a IH|n a IH
                 |positive a IH|multiline|multiline|];
    intros st st' M; cbn [matches] in M.
  - subst. now apply Nil.
  - destruct M as (c & tl & E & Pc & ->). exists [c].
    split; [split; cbn; [exact E|reflexivity]|].
    split; [|split; [|split]]; cbn [within requires least most].
    + intros P W. constructor; [|constructor].
      eapply class_within_spec; eassumption.
    + intros P W. constructor. eapply class_within_spec; eassumption.
    + intros P. destruct (class_within P p) eqn:W; [|lia].
      cbn [filter]. rewrite (class_within_spec _ _ _ W Pc). cbn. lia.
    + intros n [= <-]. cbn. lia.
  - destruct M as (mid & A & B).
    destruct (IHa _ _ A) as (u & Su & Wu & Qu & Lu & Mu).
    destruct (IHb _ _ B) as (v & Sv & Wv & Qv & Lv & Mv).
    exists (u ++ v)%list. split; [eapply span_trans; eassumption|].
    split; [|split; [|split]]; cbn [within requires least most].
    + intros P W. apply andb_prop in W. destruct W.
      apply Forall_app. auto.
    + intros P W. apply Exists_app. apply orb_prop in W.
      destruct W; [left|right]; auto.
    + intros P. rewrite filter_app, length_app.
      specialize (Lu P). specialize (Lv P). lia.
    + intros n H. destruct (most a) as [x|]; [|discriminate].
      destruct (most b) as [y|]; [|discriminate]. injection H as <-.
      rewrite length_app. specialize (Mu _ eq_refl).
      specialize (Mv _ eq_refl). lia.
  - destruct M as [A|B].
    + destruct (IHa _ _ A) as (u & Su & Wu & Qu & Lu & Mu).
      exists u. split; [exact Su|].
      split; [|split; [|split]]; cbn [within requires least most].
      * intros P W. apply andb_prop in W. destruct W. auto.
      * intros P W. apply andb_prop in W. destruct W. auto.
      * intros P. specialize (Lu P). lia.
      * intros n H. destruct (most a) as [x|]; [|discriminate].
        destruct (most b) as [y|]; [|discriminate]. injection H as <-.
        specialize (Mu _ eq_refl). lia.
    + destruct (IHb _ _ B) as (u & Su & Wu & Qu & Lu & Mu).
      exists u. split; [exact Su|].
      split; [|split; [|split]]; cbn [within requires least most].
      * intros P W. apply andb_prop in W. destruct W. auto.
      * intros P W. apply andb_prop in W. destruct W. auto.
      * intros P. specialize (Lu P). lia.
      * intros n H. destruct (most a) as [x|]; [|discriminate].
        destruct (most b) as [y|]; [|discriminate]. injection H as <-.
        specialize (Mu _ eq_refl). lia.
  - induction M as [st|st mid st' R1 L I IHI].
    + now apply Nil.
    + destruct (IH _ _ R1) as (u & Su & Wu & _).
      destruct IHI as (v & Sv & Wv & _).
      exists (u ++ v)%list. split; [eapply span_trans; eassumption|].
      split; [|split; [|split]]; cbn [within requires least most].
      * intros P W. apply Forall_app. auto.
      * discriminate.
      * intros P. lia.
      * discriminate.
  - destruct M as (mid & A & ->).
    destruct (IH _ _ A) as (u & [R B] & Wu & Qu & Lu & Mu).
    exists u. split; [split; cbn; assumption|]. auto.
  - assert (E : rest st' = rest st /\ before st' = before st).
    { destruct (run a st Some); destruct M as [_ ->]; auto. }
    destruct E as [E1 E2]. exists []. split; [split; cbn; auto|].
    split; [constructor|]. split; [discriminate|].
    split; [intros P; cbn; lia|]. intros k [= <-]. cbn. lia.
  - destruct M as [-> _]. now apply Nil.
  - destruct M as [-> _]. now apply Nil.
  - destruct M as [-> _]. now apply Nil.
Qed.

(** *** The captures of a match *)

Lemma matches_plain r : plain r = true ->
  forall st st', matches r st st' -> caps st' = caps st.
Proof.
  induction r as [|p|a IHa b IHb|a IHa b IHb|greedy a IH|n a IH
                 |positive a IH|multiline|multiline|];
    intros Pl st st' M; cbn [matches] in M; cbn [plain] in Pl;
    try discriminate.
  - now subst.
  - now destruct M as (c & tl & _ & _ & ->).
  - apply andb_prop in Pl. destruct Pl. destruct M as (mid & A & B).
    rewrite (IHb H0 _ _ B). now apply IHa.
  - apply andb_prop in Pl. destruct Pl. destruct M; auto.
  - induction M as [st|st mid st' R1 L I IHI]; [reflexivity|].
    rewrite IHI. now apply IH.
  - now destruct M as [-> _].
  - now destruct M as [-> _].
  - now destruct M as [-> _].
Qed.

(** A match adds captures of its own groups only. *)
Lemma matches_caps r : forall st st',
  matches r st st' ->
  exists new,
    caps st' = (new ++ caps st)%list
    /\ Forall (fun c => In (fst c) (group_ids r)) new.
Proof.
  induction r as [|p|a IHa b IHb|a IHa b IHb|greedy a IH|n a IH
                 |positive a IH|multiline|multiline|];
    intros st st' M; cbn [matches] in M; cbn [group_ids];
    try (exists []; split; [|constructor]; cbn;
         first [ now subst
               | now destruct M as (c & tl & _ & _ & ->)
               | now destruct M as [-> _] ]).
  - destruct M as (mid & A & B).
    destruct (IHa _ _ A) as (u & Eu & Fu).
    destruct (IHb _ _ B) as (v & Ev & Fv).
    exists (v ++ u)%list. split; [now rewrite Ev, Eu, app_assoc|].
    apply Forall_app. split; eapply Forall_impl; try eassumption;
      cbn; intros x I; apply in_or_app; auto.
  - destruct M as [A|B].
    + destruct (IHa _ _ A) as (u & Eu & Fu). exists u. split; [exact Eu|].
      eapply Forall_impl; try eassumption.
      cbn; intros x I; apply in_or_app; auto.
    + destruct (IHb _ _ B) as (u & Eu & Fu). exists u. split; [exact Eu|].
      eapply Forall_impl; try eassumption.
      cbn; intros x I; apply in_or_app; auto.
  - induction M as [st|st mid st' R1 L I IHI].
    + exists []. split; [reflexivity|constructor].
    + destruct (IH _ _ R1) as (u & Eu & Fu).
      destruct IHI as (v & Ev & Fv).
      exists (v ++ u)%list. split; [now rewrite Ev, Eu, app_assoc|].
      apply Forall_app. auto.
  - destruct M as (mid & A & ->).
    destruct (IH _ _ A) as (u & Eu & Fu).
    exists ((n, consumed st mid) :: u). cbn [capture caps].
    split; [now rewrite Eu|]. constructor; [now left|].
    eapply Forall_impl; try eassumption. cbn. auto.
  - destruct (run a st Some) as [s|] eqn:E.
    + destruct M as [_ ->]. cbn [caps].
      apply run_sound in E. destruct E as (s' & A & [= ->]).
      exact (IH _ _ A).
    + destruct M as [_ ->]. exists []. split; [reflexivity|constructor].
Qed.

(** *** Searching a text *)

(** A match found by the search starts at a position of the text. *)
Lemma search_sound r : forall l pre m,
  search r pre l = Some m ->
  exists u l' st',
    l = (u ++ l')%list
    /\ matches r (start (rev u ++ pre) l') st'
    /\ index m = List.length pre + List.length u
    /\ whole m = consumed (start (rev u ++ pre) l') st'
    /\ captures m = caps st'
    /\ after m = rest st'.
Proof.
  assert (Here : forall l pre m,
    match_here r pre l = Some m ->
    exists st', matches r (start pre l) st'
                /\ index m = List.length pre
                /\ whole m = consumed (start pre l) st'
                /\ captures m = caps st' /\ after m = rest st').
  { intros l pre m H. unfold match_here in H.
    destruct (run r _ Some) as [st'|] eqn:E; [|discriminate].
    injection H as <-. apply run_sound in E.
    destruct E as (s & M & [= ->]). exists st'. cbn. auto. }
  induction l as [|c tl IH]; intros pre m H; cbn [search] in H.
  - destruct (match_here r pre []) as [x|] eqn:E; [|discriminate].
    injection H as ->. apply Here in E.
    destruct E as (st' & M & I & W & C & A).
    exists [], [], st'. cbn [app rev List.length]. rewrite Nat.add_0_r.
    repeat split; assumption.
  - destruct (match_here r pre (c :: tl)) as [x|] eqn:E.
    + injection H as ->. apply Here in E.
      destruct E as (st' & M & I & W & C & A).
      exists [], (c :: tl), st'. cbn [app rev List.length].
      rewrite Nat.add_0_r. repeat split; assumption.
    + apply IH in H. destruct H as (u & l' & st' & -> & M & I & W & C & A).
      exists (c :: u), l', st'. cbn [rev List.length app].
      rewrite <- app_assoc. cbn [app]. cbn [List.length] in I.
      repeat split; auto. lia.
Qed.

Lemma exec_sound r s m :
  exec r s = Some m ->
  exists u l st',
    Str.chars s = (u ++ l)%list
    /\ matches r (start (rev u) l) st'
    /\ whole m = consumed (start (rev u) l) st'
    /\ captures m = caps st'
    /\ after m = rest st'
    /\ index m = List.length u.
Proof.
  unfold exec. intros H. apply search_sound in H.
  destruct H as (u & l & st' & E & M & I & W & C & A).
  rewrite app_nil_r in *. exists u, l, st'. auto 10.
Qed.

(** The search finds a match when the pattern matches at a position of
    the text. *)
Lemma search_complete r : forall u l pre st',
  matches r (start (rev u ++ pre) l) st' ->
  search r pre (u ++ l) <> None.
Proof.
  assert (Here : forall l pre st',
    matches r (start pre l) st' -> match_here r pre l <> None).
  { intros l pre st' M. unfold match_here.
    pose proof (run_complete r _ _ Some M) as C.
    unfold start in C.
    destruct (run r _ Some); [discriminate|]. exfalso. now apply C. }
  assert (Top : forall l pre, match_here r pre l <> None ->
                              search r pre l <> None).
  { intros l pre H. destruct l; cbn [search];
      destruct (match_here r pre _); congruence. }
  induction u as [|c u IH]; intros l pre st' M; cbn [app rev] in *.
  - eapply Top, Here, M.
  - cbn [search]. destruct (match_here r pre _); [discriminate|].
    eapply IH. rewrite <- app_assoc in M. exact M.
Qed.

Lemma exec_complete r s u l st' :
  Str.chars s = (u ++ l)%list ->
  matches r (start (rev u) l) st' ->
  exec r s <> None.
Proof.
  intros E M. unfold exec. rewrite E.
  eapply search_complete. rewrite app_nil_r. exact M.
Qed.

(** A pattern that requires a character of the class [P] matches no text
    without one. *)
Lemma exec_requires P r s :
  requires P r = true ->
  Forall (fun c => P c = false) (Str.chars s) ->
  exec r s = None.
Proof.
  intros Q F. destruct (exec r s) as [m|] eqn:E; [|reflexivity].
  exfalso. apply exec_sound in E.
  destruct E as (u & l & st' & T & M & _).
  destruct (matches_word _ _ _ M) as (w & [R _] & _ & X & _).
  specialize (X _ Q). cbn in R. rewrite T, R in F.
  apply Forall_app in F. destruct F as [_ F].
  apply Forall_app in F. destruct F as [F _].
  apply Exists_exists in X. destruct X as (c & I & Pc).
  rewrite Forall_forall in F. specialize (F c I). congruence.
Qed.

(** *** Groups *)

Lemma find_new n (new old : list (nat * list ascii)) :
  Forall (fun c => Nat.eqb (fst c) n = false) new ->
  find (fun c => Nat.eqb (fst c) n) (new ++ old)
  = find (fun c => Nat.eqb (fst c) n) old.
Proof.
  intros F. induction F as [|x l Hx F IH]; [reflexivity|].
  cbn. now rewrite Hx.
Qed.

Lemma absent_ids n ids (new : list (nat * list ascii)) :
  existsb (Nat.eqb n) ids = false ->
  Forall (fun c => In (fst c) ids) new ->
  Forall (fun c => Nat.eqb (fst c) n = false) new.
Proof.
  intros E F. eapply Forall_impl; [|exact F]. cbn. intros x I.
  destruct (Nat.eqb_spec (fst x) n) as [<-|]; [|reflexivity].
  assert (T : existsb (Nat.eqb (fst x)) ids = true).
  { apply existsb_exists. exists (fst x). split; [exact I|].
    apply Nat.eqb_refl. }
  congruence.
Qed.

(** The capture of a group that is a part of the pattern: the text of a
    match of the pattern of the group. *)
Lemma matches_suffix r st st' :
  matches r st st' -> suffix (rest st') (rest st).
Proof.
  intros M. destruct (matches_word _ _ _ M) as (w & [R _] & _).
  now exists w.
Qed.

Lemma matches_group n : forall r a st st',
  locate n r = Some a -> matches r st st' ->
  exists mid mid',
    matches a mid mid'
    /\ suffix (rest mid) (rest st)
    /\ find (fun c => Nat.eqb (fst c) n) (caps st')
       = Some (n, consumed mid mid').
Proof.
  induction r as [|p|x IHx y IHy|x IHx y IHy|greedy x IH|m x IH
                 |positive x IH|multiline|multiline|];
    intros a st st' L M; cbn [locate] in L; try discriminate.
  - cbn [matches] in M. destruct M as (mid & A & B).
    destruct (locate n x) as [z|] eqn:Lx.
    + destruct (existsb _ (group_ids y)) eqn:E; [discriminate|].
      injection L as ->.
      destruct (IHx _ _ _ eq_refl A) as (s & s' & Ma & Sf & F).
      exists s, s'. split; [exact Ma|]. split; [exact Sf|].
      destruct (matches_caps _ _ _ B) as (new & -> & Fn).
      rewrite find_new; [exact F|]. eapply absent_ids; eassumption.
    + destruct (existsb _ (group_ids x)) eqn:E; [discriminate|].
      destruct (IHy _ _ _ L B) as (s & s' & Ma & Sf & F).
      exists s, s'. split; [exact Ma|]. split; [|exact F].
      eapply suffix_trans; [exact Sf|]. eapply matches_suffix, A.
  - destruct (Nat.eqb_spec m n) as [->|]; [|discriminate].
    injection L as ->. cbn [matches] in M. destruct M as (mid & A & ->).
    exists st, mid. split; [exact A|]. split; [apply suffix_refl|].
    cbn [capture caps find fst]. now rewrite Nat.eqb_refl.
Qed.

(** The group of a match, with the measures of the pattern of the
    group. *)
Lemma caps_group r st st' m n a :
  matches r st st' -> captures m = caps st' -> locate n r = Some a ->
  exists w,
    group m n = Some (Str.pack w)
    /\ (forall P, within P a = true -> Forall (fun c => P c = true) w)
    /\ (forall P, least P a <= List.length (filter P w))
    /\ (forall k, most a = Some k -> List.length w <= k).
Proof.
  intros M C L.
  destruct (matches_group _ _ _ _ _ L M) as (mid & mid' & A & _ & F).
  destruct (matches_word _ _ _ A) as (w & S & W & _ & Le & Mo).
  exists w. split; [|auto].
  unfold group. rewrite C, F. cbn. now rewrite (span_consumed _ _ _ S).
Qed.

(** The group of a match found in a text: a part [w] of the text, with
    the measures of the pattern of the group. *)
Lemma exec_group r s m n a :
  exec r s = Some m -> locate n r = Some a ->
  exists w,
    group m n = Some (Str.pack w)
    /\ (exists x y, Str.chars s = (x ++ w ++ y)%list)
    /\ (forall P, within P a = true -> Forall (fun c => P c = true) w)
    /\ (forall P, least P a <= List.length (filter P w))
    /\ (forall k, most a = Some k -> List.length w <= k).
Proof.
  intros E L. apply exec_sound in E.
  destruct E as (u & l & st' & T & M & _ & C & _).
  destruct (matches_group _ _ _ _ _ L M) as (mid & mid' & A & (p & Sf) & F).
  destruct (matches_word _ _ _ A) as (w & S & W & _ & Le & Mo).
  exists w. split; [|split; [|auto]].
  - unfold group. rewrite C, F. cbn.
    now rewrite (span_consumed _ _ _ S).
  - destruct S as [R _]. cbn [rest start] in Sf.
    exists (u ++ p)%list, (rest mid').
    now rewrite T, Sf, R, <- app_assoc.
Qed.

(** A match of a pattern without a group has no captures. *)
Lemma exec_plain r s m n :
  exec r s = Some m -> plain r = true -> group m n = None.
Proof.
  intros E P. apply exec_sound in E.
  destruct E as (u & l & st' & _ & M & _ & C & _).
  unfold group. rewrite C, (matches_plain _ P _ _ M). reflexivity.
Qed.

(** The text of a match found in a text. *)
Lemma exec_whole r s m :
  exec r s = Some m ->
  exists w,
    matched m = Str.pack w
    /\ (forall P, within P r = true -> Forall (fun c => P c = true) w)
    /\ (forall P, least P r <= List.length (filter P w))
    /\ (forall k, most r = Some k -> List.length w <= k).
Proof.
  intros E. apply exec_sound in E.
  destruct E as (u & l & st' & _ & M & W & _).
  destruct (matches_word _ _ _ M) as (w & S & Wi & _ & Le & Mo).
  exists w. split; [|auto].
  unfold matched. now rewrite W, (span_consumed _ _ _ S).
Qed.

(** The text that remains after a match is an end of the text. *)
Lemma exec_after r s m :
  exec r s = Some m ->
  exists x, Str.chars s = (firstn (index m) (Str.chars s) ++ x ++ after m)%list.
Proof.
  intros E. apply exec_sound in E.
  destruct E as (u & l & st' & T & M & _ & _ & A & I).
  destruct (matches_word _ _ _ M) as (w & [R _] & _).
  exists w. cbn [rest start] in R.
  rewrite A, I, T, firstn_app, firstn_all, Nat.sub_diag. cbn [firstn].
  now rewrite app_nil_r, R.
Qed.

(** The matches of a global search are matches of the pattern. *)
Lemma search_all_sound r : forall fuel pre l m,
  In m (search_all fuel r pre l) ->
  exists st st', matches r st st' /\ captures m = caps st'.
Proof.
  induction fuel as [|f IH]; intros pre l m I; cbn [search_all] in I;
    [destruct I|].
  destruct (search r pre l) as [x|] eqn:E; [|destruct I].
  assert (X : exists st st', matches r st st' /\ captures x = caps st').
  { apply search_sound in E.
    destruct E as (u & l' & st' & _ & M & _ & _ & C & _). eauto. }
  destruct (whole x); [destruct (skipn _ l)|];
    (destruct I as [<-|I]; [exact X|]); try destruct I; eapply IH; eassumption.
Qed.

End Matching.

Module Strings.
Import Regex Semantics Matching Shapes.

Local Open Scope nat_scope.

Lemma chars_pack l : Str.chars (Str.pack l) = l.
Proof. apply list_ascii_of_string_of_list_ascii. Qed.

Lemma pack_chars s : Str.pack (Str.chars s) = s.
Proof. apply string_of_list_ascii_of_string. Qed.

Lemma length_chars s : List.length (Str.chars s) = String.length s.
Proof. induction s as [|c s IH]; cbn; [reflexivity|]. now rewrite <- IH. Qed.

Lemma non_empty_pack w :
  w <> [] -> Route.non_empty (Some (Str.pack w)) = Some (Str.pack w).
Proof. destruct w; [congruence|]. reflexivity. Qed.

Lemma non_empty_some o s : Route.non_empty o = Some s -> o = Some s.
Proof.
  destruct o as [x|]; cbn; [|discriminate].
  destruct (String.eqb x ""); [discriminate|]. auto.
Qed.

Lemma first_pattern_some {P A} (l : list P) (f : P -> option A) a :
  Route.first_pattern l f = Some a -> exists p, In p l /\ f p = Some a.
Proof.
  induction l as [|p l IH]; cbn; [discriminate|].
  destruct (f p) eqn:E.
  - intros [= ->]. exists p. auto.
  - intros H. destruct (IH H) as (q & I & F). exists q. auto.
Qed.

(** *** Removing the characters of a class *)

Lemma search_class p : forall l pre,
  (search (Char p) pre l = None
   /\ filter (fun c => negb (p c)) l = l)
  \/ exists u c tl,
       l = (u ++ c :: tl)%list
       /\ filter (fun c => negb (p c)) u = u
       /\ p c = true
       /\ search (Char p) pre l
          = Some {| index := List.length pre + List.length u;
                    whole := [c]; captures := []; after := tl |}.
Proof.
  induction l as [|c tl IH]; intros pre.
  - left. split; reflexivity.
  - cbn [search]. unfold match_here. cbn [run rest before caps].
    destruct (p c) eqn:Pc.
    + right. exists [], c, tl. cbn [app List.length filter].
      repeat split; try assumption. rewrite Nat.add_0_r.
      unfold consumed. cbn [rest List.length].
      replace (S (List.length tl) - List.length tl) with 1 by lia.
      reflexivity.
    + destruct (IH (c :: pre)) as [[N F]|(u & x & r & -> & F & Px & S)].
      * left. split; [exact N|]. cbn [filter]. rewrite Pc. cbn.
        now rewrite F.
      * right. exists (c :: u), x, r. cbn [app filter List.length].
        rewrite Pc. cbn [negb]. rewrite F.
        repeat split; try assumption. rewrite S. cbn [List.length].
        do 2 f_equal. lia.
Qed.

Lemma splice_class p : forall fuel l pre,
  List.length l < fuel ->
  splice (List.length pre) l (search_all fuel (Char p) pre l) Route.removed
  = filter (fun c => negb (p c)) l.
Proof.
  induction fuel as [|f IH]; intros l pre F; [lia|].
  cbn [search_all].
  destruct (search_class p l pre) as [[N E]|(u & c & tl & -> & E & Pc & S)].
  - rewrite N. cbn [splice]. now rewrite E.
  - rewrite S. cbn [whole index].
    replace (List.length [c] + (List.length pre + List.length u
                                - List.length pre))
      with (List.length u + 1) by (cbn; lia).
    assert (K : skipn (List.length u + 1) (u ++ c :: tl) = tl).
    { replace (List.length u + 1) with (List.length (u ++ [c])).
      - replace (u ++ c :: tl)%list with ((u ++ [c]) ++ tl)%list.
        + rewrite skipn_app, skipn_all, Nat.sub_diag. reflexivity.
        + now rewrite <- app_assoc.
      - rewrite length_app. reflexivity. }
    rewrite K.
    assert (G : forall rest,
      splice (List.length pre) (u ++ c :: tl)
        ({| index := List.length pre + List.length u; whole := [c];
            captures := []; after := tl |} :: rest) Route.removed
      = (u ++ splice (List.length pre + List.length u + 1) tl rest
                Route.removed)%list).
    { intros rest. cbn [splice index whole].
      replace (List.length pre + List.length u - List.length pre)
        with (List.length u) by lia.
      change (List.length [c]) with 1.
      rewrite firstn_app, firstn_all, Nat.sub_diag. cbn [firstn].
      rewrite app_nil_r. unfold Route.removed at 1. cbn [Str.chars].
      cbn [list_ascii_of_string app]. rewrite K.
      reflexivity. }
    assert (T : filter (fun c => negb (p c)) (u ++ c :: tl)
                = (u ++ filter (fun c => negb (p c)) tl)%list).
    { rewrite filter_app, E. cbn [filter]. now rewrite Pc. }
    rewrite T. clear T.
    set (pre' := (rev (firstn (List.length u + 1) (u ++ c :: tl)) ++ pre)%list).
    assert (Lp : List.length pre' = List.length pre + List.length u + 1).
    { unfold pre'. rewrite length_app, length_rev, length_firstn.
      rewrite length_app. cbn [List.length]. lia. }
    assert (Ft : List.length tl < f).
    { rewrite length_app in F. cbn [List.length] in F. lia. }
    rewrite G, <- Lp. now rewrite IH.
Qed.

(** Replacing every character of a class by nothing keeps the other
    characters. *)
Lemma replace_all_class p s :
  replace_all (Char p) Route.removed s
  = Str.pack (filter (fun c => negb (p c)) (Str.chars s)).
Proof.
  unfold replace_all, exec_all. f_equal.
  apply (splice_class p _ _ []). rewrite length_chars. lia.
Qed.

Lemma filter_length_le {A} (f g : A -> bool) (l : list A) :
  (forall x, f x = true -> g x = true) ->
  List.length (filter f l) <= List.length (filter g l).
Proof.
  intros H. induction l as [|x l IH]; cbn; [lia|].
  destruct (f x) eqn:Fx.
  - rewrite (H _ Fx). cbn. lia.
  - destruct (g x); cbn; lia.
Qed.

Lemma filter_filter {A} (f g : A -> bool) (l : list A) :
  (forall x, f x = true -> g x = true) ->
  filter f (filter g l) = filter f l.
Proof.
  intros H. induction l as [|x l IH]; cbn; [reflexivity|].
  destruct (g x) eqn:Gx; cbn.
  - now rewrite IH.
  - destruct (f x) eqn:Fx; [|exact IH]. rewrite (H _ Fx) in Gx. discriminate.
Qed.

Lemma Forall_filter {A} (P : A -> Prop) (f : A -> bool) (l : list A) :
  Forall P l -> Forall P (filter f l).
Proof.
  intros H. induction H as [|x l Hx H IH]; cbn; [constructor|].
  destruct (f x); [constructor|]; assumption.
Qed.

Lemma Forall_filter_both {A} (f g h : A -> bool) (l : list A) :
  (forall x, f x = true -> g x = true -> h x = true) ->
  Forall (fun x => f x = true) l ->
  Forall (fun x => h x = true) (filter g l).
Proof.
  intros H F. induction F as [|x l Hx F IH]; cbn; [constructor|].
  destruct (g x) eqn:Gx; [constructor|]; auto.
Qed.

(** *** Trimming *)

Lemma drop_space_suffix l : exists u, l = (u ++ Str.drop_space l)%list.
Proof.
  induction l as [|c l IH]; [now exists []|]. cbn.
  destruct (Str.is_space c); [|now exists []].
  destruct IH as (u & E). exists (c :: u). cbn. now rewrite <- E.
Qed.

Lemma drop_space_head l :
  match Str.drop_space l with
  | c :: _ => Str.is_space c = false
  | [] => True
  end.
Proof.
  induction l as [|c l IH]; [exact I|]. cbn.
  destruct (Str.is_space c) eqn:E; [exact IH|exact E].
Qed.

Lemma drop_space_fixed l :
  match l with c :: _ => Str.is_space c = false | [] => True end ->
  Str.drop_space l = l.
Proof. destruct l as [|c l]; cbn; [reflexivity|]. now intros ->. Qed.

Lemma Forall_drop_space (P : ascii -> Prop) l :
  Forall P l -> Forall P (Str.drop_space l).
Proof.
  intros F. destruct (drop_space_suffix l) as (u & E).
  rewrite E in F. apply Forall_app in F. tauto.
Qed.

Lemma Forall_trim_chars (P : ascii -> Prop) l :
  Forall P l -> Forall P (Str.trim_chars l).
Proof.
  intros F. unfold Str.trim_chars.
  apply Forall_rev, Forall_drop_space, Forall_rev, Forall_drop_space, F.
Qed.

Lemma last_head {A} (l : list A) (d : A) : last l d = hd d (rev l).
Proof.
  induction l as [|x l IH]; [reflexivity|].
  cbn [rev]. destruct l as [|y l]; [reflexivity|].
  change (last (x :: y :: l) d) with (last (y :: l) d). rewrite IH.
  cbn [rev]. destruct (rev l ++ [y])%list eqn:E; [|reflexivity].
  apply app_eq_nil in E. destruct E. discriminate.
Qed.

(** A trimmed text starts and ends with a character that is no white
    space. *)
Lemma trim_chars_ends l :
  match Str.trim_chars l with
  | [] => True
  | c :: _ =>
      Str.is_space c = false
      /\ Str.is_space (last (Str.trim_chars l) c) = false
  end.
Proof.
  unfold Str.trim_chars.
  set (t := Str.drop_space l).
  set (x := Str.drop_space (rev t)).
  destruct (rev x) as [|c r] eqn:E; [exact I|].
  assert (Hx : match x with d :: _ => Str.is_space d = false | [] => True end)
    by apply drop_space_head.
  assert (Ht : match t with d :: _ => Str.is_space d = false | [] => True end)
    by apply drop_space_head.
  split.
  - (* the head of [rev x] is the last of [x], which is the head of [t] *)
    destruct (drop_space_suffix (rev t)) as (u & Eu). fold x in Eu.
    assert (Et : t = (rev x ++ rev u)%list).
    { rewrite <- (rev_involutive t), Eu, rev_app_distr. reflexivity. }
    rewrite E in Et. rewrite Et in Ht. exact Ht.
  - rewrite <- E, last_head, rev_involutive.
    destruct x as [|d x']; [discriminate|]. exact Hx.
Qed.

Lemma trim_chars_fixed l :
  match l with
  | [] => True
  | c :: _ => Str.is_space c = false /\ Str.is_space (last l c) = false
  end ->
  Str.trim_chars l = l.
Proof.
  intros H. unfold Str.trim_chars.
  destruct l as [|c l]; [reflexivity|]. destruct H as [H1 H2].
  rewrite (drop_space_fixed (c :: l)) by exact H1.
  rewrite drop_space_fixed; [apply rev_involutive|].
  rewrite last_head in H2.
  destruct (rev (c :: l)) as [|d r] eqn:E; [exact I|exact H2].
Qed.

(** Trimming twice is trimming once. *)
Lemma trim_trim s : Str.trim (Str.trim s) = Str.trim s.
Proof.
  unfold Str.trim. rewrite chars_pack. f_equal.
  apply trim_chars_fixed. apply trim_chars_ends.
Qed.

End Strings.

Module CardNumber.
Import JS Route Regex Semantics Matching Shapes Strings.

Local Open Scope nat_scope.

Lemma digit_not_space c : Str.is_digit c = true -> Str.is_space c = false.
Proof.
  unfold Str.is_digit, Str.is_space, Str.between. intros H.
  apply andb_prop in H. destruct H as [H1 H2].
  apply Z.leb_le in H1. apply Z.leb_le in H2.
  apply orb_false_intro; [apply orb_false_intro|].
  - apply andb_false_intro2. apply Z.leb_gt. lia.
  - apply Z.eqb_neq. lia.
  - apply Z.eqb_neq. lia.
Qed.

Lemma digit_not_dash c : Str.is_digit c = true -> Ascii.eqb c "-" = false.
Proof.
  intros H. destruct (Ascii.eqb_spec c "-") as [->|]; [|reflexivity].
  discriminate.
Qed.

Lemma nonempty_filter {A} (f : A -> bool) (l : list A) n :
  S n <= List.length (filter f l) -> l <> [].
Proof. destruct l; cbn; [lia|discriminate]. Qed.

(** The text that a card pattern hands to its transform. *)
Lemma card_group r body text m :
  exec r text = Some m -> locate 1 r = Some body ->
  1 <= least Str.is_digit body ->
  exists w,
    Route.non_empty
      (Some match Route.non_empty (group m 1) with
            | Some g => g
            | None => matched m
            end) = Some (Str.pack w)
    /\ (forall P, within P body = true -> Forall (fun c => P c = true) w)
    /\ least Str.is_digit body <= List.length (filter Str.is_digit w).
Proof.
  intros E L D. destruct (exec_group _ _ _ _ _ E L) as (w & G & _ & W & Le & _).
  assert (N : w <> []).
  { specialize (Le Str.is_digit). apply (nonempty_filter Str.is_digit w 0).
    lia. }
  exists w. rewrite G, !non_empty_pack by exact N. auto.
Qed.

(** X1.  A card number returned by the extractor is made of digits and
    asterisks, with eight digits at least. *)
Theorem card_number_made_of text n :
  extractCardNumberFromText text = Some n ->
  made_of card_char n /\ 8 <= digit_count n.
Proof.
  unfold extractCardNumberFromText. intros H.
  apply first_pattern_some in H. destruct H as (p & I & H).
  unfold made_of, digit_count.
  destruct I as [<-|[<-|[<-|[<-|[]]]]]; cbn [fst snd] in H;
    match type of H with
    | match exec ?r _ with _ => _ end = _ =>
        destruct (exec r text) as [m|] eqn:E; [|discriminate]
    end.
  - (* Card Number, masked *)
    eapply card_group in E; [|reflexivity|vm_compute; lia].
    destruct E as (w & G & W & Le). rewrite G in H. injection H as <-.
    rewrite chars_pack. split.
    + apply (W card_char). vm_compute. reflexivity.
    + exact Le.
  - (* Card No, white space removed *)
    eapply card_group in E; [|reflexivity|vm_compute; lia].
    destruct E as (w & G & W & Le). rewrite G in H. injection H as <-.
    unfold space. rewrite replace_all_class, !chars_pack. split.
    + eapply (Forall_filter_both
                (fun c => Str.is_digit c || Str.is_space c || Ascii.eqb c "*")%bool).
      * intros c A B. unfold card_char.
        destruct (Str.is_space c); [discriminate|].
        now rewrite orb_false_r in A.
      * apply W. vm_compute. reflexivity.
    + rewrite filter_filter; [exact Le|].
      intros c Dc. now rewrite digit_not_space.
  - (* Card Number, sixteen digits *)
    eapply card_group in E; [|reflexivity|vm_compute; lia].
    destruct E as (w & G & W & Le). rewrite G in H. injection H as <-.
    unfold space_or_dash. rewrite replace_all_class, !chars_pack.
    assert (L8 : 8 <= 16) by lia. split.
    + eapply (Forall_filter_both
                (fun c => Str.is_digit c || Str.is_space c || Ascii.eqb c "-")%bool).
      * intros c A B. unfold card_char.
        rewrite <- orb_assoc in A.
        destruct (Str.is_space c || Ascii.eqb c "-")%bool; [discriminate|].
        rewrite orb_false_r in A. now rewrite A.
      * apply W. vm_compute. reflexivity.
    + rewrite filter_filter.
      * etransitivity; [exact L8|]. exact Le.
      * intros c Dc. now rewrite digit_not_space, digit_not_dash.
  - (* a masked number anywhere in the text *)
    rewrite (exec_plain _ _ _ 1 E) in H by reflexivity.
    change (non_empty None) with (@None string) in H. cbv beta iota in H.
    destruct (exec_whole _ _ _ E) as (w & G & W & Le & _). rewrite G in H.
    assert (N : w <> []).
    { specialize (Le Str.is_digit). apply (nonempty_filter Str.is_digit w 0).
      etransitivity; [|exact Le]. vm_compute. lia. }
    rewrite non_empty_pack in H by exact N. injection H as <-.
    rewrite chars_pack. split.
    + apply (W card_char). vm_compute. reflexivity.
    + etransitivity; [|apply (Le Str.is_digit)]. vm_compute. lia.
Qed.

End CardNumber.

Module Numbers.
Import JS Route Regex Semantics Matching Shapes Strings CardNumber.

Local Open Scope Z_scope.

(** The sign of a number is plus, and the number is no NaN. *)
Lemma non_negative_sign x :
  match x with
  | S754_zero s | S754_infinity s | S754_finite s _ _ => s = false
  | S754_nan => False
  end ->
  non_negative x = true.
Proof. destruct x as [s|s| |s m e]; cbn; intros H; now subst. Qed.

Lemma normalize_non_negative z :
  0 <= z ->
  non_negative (binary_normalize B64.prec B64.emax z 0 false) = true.
Proof.
  intros H. unfold binary_normalize.
  destruct z as [|p|p]; [reflexivity| |lia].
  unfold binary_round. destruct (shl_align _ _ _) as [mz ez].
  apply non_negative_sign, Lengths.binary_round_aux_sign. lia.
Qed.

Lemma div_core_nonneg d e :
  0 <= d -> 0 < e ->
  0 <= fst (fst (SFdiv_core_binary B64.prec B64.emax d 0 e 0)).
Proof.
  intros Hd He. unfold SFdiv_core_binary.
  set (s := 0 - 0 - _).
  set (m := match s with Z0 => d | Zpos _ => Z.shiftl d s | Zneg _ => 0 end).
  assert (Hm : 0 <= m).
  { unfold m. destruct s; try lia. apply Z.shiftl_nonneg. exact Hd. }
  pose proof (Z_div_mod m e ltac:(lia)) as D.
  destruct (Z.div_eucl m e) as [q r]. cbn [fst].
  destruct D as [D1 D2]. nia.
Qed.

(** A decimal literal without a sign is no NaN and is not negative. *)
Lemma of_decimal_non_negative d p :
  non_negative (B64.of_decimal false d p) = true.
Proof.
  unfold B64.of_decimal.
  destruct (d <=? 0) eqn:D; [reflexivity|]. apply Z.leb_gt in D.
  destruct (0 <=? p) eqn:P.
  - destruct (400 <? p); [reflexivity|]. cbn [cond_Zopp].
    apply normalize_non_negative. apply Z.leb_le in P.
    apply Z.mul_nonneg_nonneg; [lia|]. apply Z.pow_nonneg. lia.
  - destruct (_ <? -400); [reflexivity|]. apply Z.leb_gt in P.
    pose proof (div_core_nonneg d (10 ^ (- p)) ltac:(lia)
                  ltac:(apply Z.pow_pos_nonneg; lia)) as Q.
    destruct (SFdiv_core_binary _ _ d 0 (10 ^ (- p)) 0) as [[q e] l].
    cbn [fst] in Q.
    apply non_negative_sign, Lengths.binary_round_aux_sign. exact Q.
Qed.

Lemma plain_amount_sign c r :
  plain_amount_char c = true -> B64.take_sign (c :: r) = (false, c :: r).
Proof.
  unfold plain_amount_char, Str.is_digit, Str.between, Str.code.
  destruct c as [[] [] [] [] [] [] [] []]; cbn; intros H;
    try discriminate; reflexivity.
Qed.

Lemma plain_amount_no_infinity c r :
  plain_amount_char c = true ->
  B64.strip_prefix B64.infinity_chars (c :: r) = None.
Proof.
  unfold plain_amount_char, Str.is_digit, Str.between, Str.code.
  destruct c as [[] [] [] [] [] [] [] []]; cbn; intros H;
    try discriminate; reflexivity.
Qed.

Lemma plain_amount_not_space c :
  plain_amount_char c = true -> Str.is_space c = false.
Proof.
  unfold plain_amount_char. intros H. apply orb_prop in H.
  destruct H as [H|H]; [now apply digit_not_space|].
  apply Ascii.eqb_eq in H. now subst.
Qed.

(** [parseFloat] of digits and points is NaN or a number that is not
    negative. *)
Lemma parseFloat_plain s :
  made_of plain_amount_char s ->
  B64.is_nan (B64.parseFloat s) = true
  \/ non_negative (B64.parseFloat s) = true.
Proof.
  unfold made_of, B64.parseFloat. intros F.
  destruct (Str.chars s) as [|c r]; [now left|].
  assert (Pc : plain_amount_char c = true) by now inversion F.
  cbn [Str.drop_space]. rewrite (plain_amount_not_space _ Pc).
  unfold B64.scan_decimal.
  rewrite (plain_amount_sign _ _ Pc), (plain_amount_no_infinity _ _ Pc).
  destruct (B64.take_digits (c :: r)) as [ip l2].
  destruct (match l2 with
            | "."%char :: r0 =>
                let '(fp, r') := B64.take_digits r0 in
                match ip with
                | [] => match fp with [] => ([], l2) | _ :: _ => (fp, r') end
                | _ :: _ => (fp, r')
                end
            | _ => ([], l2)
            end) as [fp l3] eqn:E.
  destruct ip as [|i ip]; [destruct fp as [|f fp]|].
  - now left.
  - destruct (B64.take_exponent l3) as [ex l4]. right.
    apply of_decimal_non_negative.
  - destruct (B64.take_exponent l3) as [ex l4]. right.
    apply of_decimal_non_negative.
Qed.

(** A text of points alone holds no number. *)
Lemma parseFloat_points s :
  made_of (fun c => Ascii.eqb c ".") s -> B64.parseFloat s = S754_nan.
Proof.
  unfold made_of, B64.parseFloat. intros F.
  destruct (Str.chars s) as [|c r]; [reflexivity|].
  inversion F as [|? ? Hc Fr]; subst. apply Ascii.eqb_eq in Hc. subst c.
  cbn [Str.drop_space]. change (Str.is_space ".") with false. cbv iota.
  unfold B64.scan_decimal. cbn [B64.take_sign].
  change (B64.strip_prefix B64.infinity_chars ("."%char :: r)) with (@None (list ascii)).
  cbv iota. cbn [B64.take_digits].
  change (Str.is_digit ".") with false. cbv iota beta.
  destruct r as [|d r]; [reflexivity|].
  inversion Fr as [|? ? Hd _]; subst. apply Ascii.eqb_eq in Hd. subst d.
  cbn [B64.take_digits]. change (Str.is_digit ".") with false.
  reflexivity.
Qed.

(** *** [parseInt] of digits *)

Lemma digit_sign c r :
  Str.is_digit c = true -> B64.take_sign (c :: r) = (false, c :: r).
Proof.
  intros H. apply plain_amount_sign. unfold plain_amount_char.
  now rewrite H.
Qed.

Lemma digit_hex c :
  Str.is_digit c = true ->
  exists v, B64.hex_val c = Some v /\ 0 <= v < 10.
Proof.
  intros H. unfold B64.hex_val. rewrite H. eexists. split; [reflexivity|].
  unfold Str.is_digit, Str.between in H. apply andb_prop in H.
  destruct H as [H1 H2]. apply Z.leb_le in H1. apply Z.leb_le in H2. lia.
Qed.

Lemma take_radix_digits l :
  Forall (fun c => Str.is_digit c = true) l ->
  List.length (B64.take_radix 10 l) = List.length l
  /\ Forall (fun v => 0 <= v) (B64.take_radix 10 l).
Proof.
  intros F. induction F as [|c l Hc F IH]; cbn [B64.take_radix].
  - split; [reflexivity|constructor].
  - destruct (digit_hex _ Hc) as (v & -> & V).
    replace (v <? 10) with true by (symmetry; apply Z.ltb_lt; lia).
    destruct IH as [IH1 IH2]. cbn [List.length]. split; [now rewrite IH1|].
    constructor; [lia|exact IH2].
Qed.

Lemma fold_digits_nonneg ds : forall acc,
  0 <= acc -> Forall (fun v => 0 <= v) ds ->
  0 <= fold_left (fun a v => 10 * a + v) ds acc.
Proof.
  induction ds as [|v ds IH]; intros acc A F; cbn [fold_left]; [exact A|].
  inversion F; subst. apply IH; [lia|assumption].
Qed.

Lemma digit_not_x c :
  Str.is_digit c = true ->
  ((Str.code c =? 120) || (Str.code c =? 88))%bool = false.
Proof.
  unfold Str.is_digit, Str.between. intros H. apply andb_prop in H.
  destruct H as [H1 H2]. apply Z.leb_le in H1. apply Z.leb_le in H2.
  apply orb_false_intro; apply Z.eqb_neq; lia.
Qed.

Lemma radix10_non_negative l :
  l <> [] -> Forall (fun c => Str.is_digit c = true) l ->
  non_negative
    match B64.take_radix 10 l with
    | [] => S754_nan
    | ds =>
        let z := fold_left (fun acc v => 10 * acc + v) ds 0 in
        if z =? 0 then S754_zero false
        else binary_normalize B64.prec B64.emax (cond_Zopp false z) 0 false
    end = true.
Proof.
  intros N F. destruct (take_radix_digits _ F) as [L P].
  destruct (B64.take_radix 10 l) as [|v ds] eqn:E.
  - destruct l; [congruence|discriminate].
  - cbv zeta. destruct (_ =? 0); [reflexivity|].
    cbn [cond_Zopp]. apply normalize_non_negative.
    apply fold_digits_nonneg; [lia|exact P].
Qed.

(** [parseInt] of one digit or more is a number that is not negative. *)
Lemma parseInt_digits w :
  w <> [] -> Forall (fun c => Str.is_digit c = true) w ->
  non_negative (B64.parseInt (Str.pack w)) = true.
Proof.
  intros N F. unfold B64.parseInt. rewrite chars_pack.
  destruct w as [|c r]; [congruence|].
  assert (Hc : Str.is_digit c = true) by now inversion F.
  cbn [Str.drop_space]. rewrite (digit_not_space _ Hc), (digit_sign _ _ Hc).
  destruct r as [|d r'].
  - destruct c as [[] [] [] [] [] [] [] []]; try discriminate Hc;
      apply (radix10_non_negative [_] N F).
  - assert (Hd : Str.is_digit d = true).
    { inversion F as [|? ? _ Fr]; subst. now inversion Fr. }
    pose proof (digit_not_x _ Hd) as X.
    destruct c as [[] [] [] [] [] [] [] []]; try discriminate Hc;
      try apply (radix10_non_negative (_ :: _ :: _) N F).
    cbv beta iota. rewrite X.
    apply (radix10_non_negative (_ :: _ :: _) N F).
Qed.

End Numbers.

Module Amounts.
Import JS Route Regex Semantics Matching Model Records Shapes Rows Strings
  CardNumber Numbers.

Lemma without_commas_plain w :
  Forall (fun c => amount_char c = true) w ->
  made_of plain_amount_char (without_commas (Str.pack w)).
Proof.
  intros F. unfold without_commas, chr, made_of.
  rewrite replace_all_class, !chars_pack.
  eapply Forall_filter_both; [|exact F].
  intros c A B. unfold amount_char in A. unfold plain_amount_char.
  rewrite Ascii.eqb_sym in B.
  destruct (Ascii.eqb c ","); [discriminate|].
  now rewrite orb_false_r in A.
Qed.

(** What one amount pattern stores. *)
Lemma amount_found r text m g :
  In r (map snd amountPatterns) ->
  exec r text = Some m -> non_empty (group m 1) = Some g ->
  amount_value (VNum (B64.parseFloat (without_commas g)))
  /\ exists w, g = Str.pack w
               /\ Forall (fun c => amount_char c = true) w
               /\ exists x y, Str.chars text = (x ++ w ++ y)%list.
Proof.
  intros I E G. apply non_empty_some in G.
  assert (X : exists body, locate 1 r = Some body
                           /\ within amount_char body = true).
  { cbn in I.
    destruct I as [<-|[<-|[<-|[<-|[<-|[]]]]]];
      (eexists; split; [reflexivity|vm_compute; reflexivity]). }
  destruct X as (body & L & Wb).
  destruct (exec_group _ _ _ _ _ E L) as (w & Gw & T & W & _).
  rewrite Gw in G. injection G as <-.
  specialize (W _ Wb). split.
  - eexists. split; [reflexivity|].
    apply parseFloat_plain, without_commas_plain, W.
  - exists w. auto.
Qed.

Lemma has_set_cases (o : obj) k v f :
  has (set o k v) f = (String.eqb f k || has o f)%bool.
Proof.
  unfold has. destruct (String.eqb f k) eqn:E.
  - apply String.eqb_eq in E. subst. now rewrite lookup_set_same.
  - now rewrite lookup_set_other.
Qed.

(** The loop over the amount patterns: the record it builds. *)
Lemma amounts_loop text (Q : value -> Prop) :
  (forall r m g, In r (map snd amountPatterns) ->
                 exec r text = Some m -> non_empty (group m 1) = Some g ->
                 Q (VNum (B64.parseFloat (without_commas g)))) ->
  forall patterns acc,
    incl patterns amountPatterns ->
    (forall f, (has acc f = true -> In f amount_names /\ Q (get acc f))) ->
    forall f,
      has (fold_left
             (fun financialData entry =>
                match exec (snd entry) text with
                | Some m =>
                    match non_empty (group m 1) with
                    | Some g =>
                        set financialData (fst entry)
                          (VNum (B64.parseFloat (without_commas g)))
                    | None => financialData
                    end
                | None => financialData
                end) patterns acc) f = true ->
      In f amount_names
      /\ Q (get (fold_left
             (fun financialData entry =>
                match exec (snd entry) text with
                | Some m =>
                    match non_empty (group m 1) with
                    | Some g =>
                        set financialData (fst entry)
                          (VNum (B64.parseFloat (without_commas g)))
                    | None => financialData
                    end
                | None => financialData
                end) patterns acc) f).
Proof.
  intros Step. induction patterns as [|p ps IH]; intros acc I A f;
    cbn [fold_left]; [apply A|].
  apply IH.
  - intros x Hx. apply I. now right.
  - intros k. assert (Ip : In p amountPatterns) by (apply I; now left).
    destruct (exec (snd p) text) as [m|] eqn:E; [|apply A].
    destruct (non_empty (group m 1)) as [g|] eqn:G; [|apply A].
    rewrite has_set_cases, get_set.
    destruct (String.eqb_spec k (fst p)) as [->|N]; cbn [orb].
    + intros _. split.
      * unfold amount_names. now apply in_map.
      * eapply Step; [|exact E|exact G]. now apply in_map.
    + apply A.
Qed.

(** X3.  The amounts that the patterns read from a text: the five names of
    the patterns and no other; each amount a number that is NaN or not
    negative, but for an available credit computed as the credit limit
    minus the total. *)
Theorem financial_data_amounts text f :
  has (extractFinancialDataFromText text) f = true ->
  In f amount_names
  /\ exists x,
       get (extractFinancialDataFromText text) f = VNum x
       /\ (B64.is_nan x = true \/ non_negative x = true
           \/ (f = "available_credit_limit"
               /\ exists c t,
                    get (extractFinancialDataFromText text) "credit_limit"
                    = VNum c
                    /\ get (extractFinancialDataFromText text)
                         "total_amount_due" = VNum t
                    /\ x = B64.sub c t)).
Proof.
  unfold extractFinancialDataFromText.
  match goal with
  | |- context [fold_left ?step amountPatterns []] =>
      set (fd := fold_left step amountPatterns [])
  end.
  assert (A : forall k, has fd k = true ->
                        In k amount_names /\ amount_value (get fd k)).
  { apply (amounts_loop text amount_value).
    - intros r m g I E G. now apply (amount_found r text m g).
    - apply incl_refl.
    - intros k H. discriminate. }
  assert (U : forall k, is_undefined (get fd k) = false -> has fd k = true).
  { intros k. unfold get, has. now destruct (lookup k fd). }
  destruct (negb (is_undefined (get fd "credit_limit"))
            && negb (is_undefined (get fd "total_amount_due"))
            && is_undefined (get fd "available_credit_limit"))%bool eqn:C.
  - apply andb_prop in C. destruct C as [C Ua].
    apply andb_prop in C. destruct C as [Uc Ut].
    apply negb_true_iff in Uc. apply negb_true_iff in Ut.
    destruct (A _ (U _ Uc)) as [_ (c & Ec & _)].
    destruct (A _ (U _ Ut)) as [_ (t & Et & _)].
    rewrite Ec, Et. rewrite has_set_cases, !get_set.
    change (String.eqb "credit_limit" "available_credit_limit") with false.
    change (String.eqb "total_amount_due" "available_credit_limit") with false.
    cbv iota. rewrite Ec, Et.
    destruct (String.eqb_spec f "available_credit_limit") as [->|N];
      cbn [orb].
    + intros _. split; [cbn; tauto|].
      exists (B64.sub c t). split; [reflexivity|].
      right. right. split; [reflexivity|]. now exists c, t.
    + intros H. destruct (A _ H) as [I (x & Ex & [X|X])].
      * split; [exact I|]. exists x. auto.
      * split; [exact I|]. exists x. auto.
  - intros H. destruct (A _ H) as [I (x & Ex & [X|X])].
    + split; [exact I|]. exists x. auto.
    + split; [exact I|]. exists x. auto.
Qed.

End Amounts.

Module Rewards.
Import JS Route Regex Semantics Matching Model Records Shapes Rows Strings
  CardNumber Numbers.

(** The number read from a group of digits. *)
Lemma group_number_digits r text m n :
  exec r text = Some m -> locate n r = Some digits ->
  exists x, group_number m n = VNum x /\ non_negative x = true.
Proof.
  intros E L.
  destruct (exec_group _ _ _ _ _ E L) as (w & G & _ & W & Le & _).
  unfold group_number. rewrite G. eexists. split; [reflexivity|].
  apply parseInt_digits.
  - specialize (Le Str.is_digit). apply (nonempty_filter Str.is_digit w 0).
    etransitivity; [|exact Le]. vm_compute. lia.
  - apply W. vm_compute. reflexivity.
Qed.

(** The three numbers that a reward pattern reads. *)
Lemma reward_pattern_numbers p text m :
  In p rewardPatterns -> exec (fst p) text = Some m ->
  exists a b c,
    group_number m 1 = VNum a /\ group_number m 2 = VNum b
    /\ group_number m (snd p) = VNum c
    /\ non_negative a = true /\ non_negative b = true
    /\ non_negative c = true.
Proof.
  intros I E.
  assert (L : locate 1 (fst p) = Some digits
              /\ locate 2 (fst p) = Some digits
              /\ locate (snd p) (fst p) = Some digits).
  { destruct I as [<-|[<-|[<-|[]]]]; repeat split; reflexivity. }
  destruct L as (L1 & L2 & L3).
  destruct (group_number_digits _ text m 1 E L1) as (a & Ea & Na).
  destruct (group_number_digits _ text m 2 E L2) as (b & Eb & Nb).
  destruct (group_number_digits _ text m _ E L3) as (c & Ec & Nc).
  exists a, b, c. auto 10.
Qed.

(** X4.  The reward points read from a text: nothing, or three numbers that
    are not negative; the closing balance is then the number of the
    text, never the sum of the two others. *)
Theorem reward_points_read text :
  extractRewardPointsFromText text = triple VNull VNull VNull
  \/ exists ob ea cb,
       extractRewardPointsFromText text = triple (VNum ob) (VNum ea) (VNum cb)
       /\ non_negative ob = true /\ non_negative ea = true
       /\ non_negative cb = true.
Proof.
  unfold extractRewardPointsFromText.
  match goal with
  | |- context [first_pattern rewardPatterns ?f] =>
      destruct (first_pattern rewardPatterns f) as [[[ob ea] cb]|] eqn:FP
  end; [|now left].
  right. apply first_pattern_some in FP. destruct FP as (p & I & H).
  destruct (exec (fst p) text) as [m|] eqn:E; [|discriminate].
  destruct (reward_pattern_numbers p text m I E)
    as (a & b & c & Ea & Eb & Ec & Na & Nb & Nc).
  assert (T : Nat.leb 3 (snd p) = true).
  { destruct I as [<-|[<-|[<-|[]]]]; reflexivity. }
  rewrite T, Ea, Eb, Ec in H. injection H as <- <- <-.
  exists a, b, c. auto.
Qed.

End Rewards.

Module Dates.
Import JS Route Regex Semantics Matching Model Records Shapes Rows Strings
  CardNumber Numbers.

Local Open Scope nat_scope.

(** The pattern of the group of the date patterns. *)
Lemma date_found r text m g :
  In r (map snd datePatterns) ->
  exec r text = Some m -> non_empty (group m 1) = Some g ->
  date_value (VStr g).
Proof.
  intros I E G. apply non_empty_some in G.
  assert (X : exists body,
             locate 1 r = Some body /\ within date_char body = true
             /\ 8 <= least any_char body /\ most body = Some 10).
  { cbn in I. destruct I as [<-|[<-|[]]];
      (eexists; split; [reflexivity|]; split; [vm_compute; reflexivity|];
       split; [vm_compute; lia|reflexivity]). }
  destruct X as (body & L & Wb & Lb & Mb).
  destruct (exec_group _ _ _ _ _ E L) as (w & Gw & _ & W & Le & Mo).
  rewrite Gw in G. injection G as <-.
  exists (Str.pack w). split; [reflexivity|]. unfold made_of.
  rewrite chars_pack, <- length_chars, chars_pack.
  split; [now apply W|]. split.
  - specialize (Le any_char).
    assert (F : filter any_char w = w).
    { clear. induction w as [|c w IH]; cbn; [reflexivity|]. now rewrite IH. }
    rewrite F in Le. lia.
  - now apply Mo.
Qed.

Lemma date_found_nonempty r text m :
  In r (map snd datePatterns) -> exec r text = Some m ->
  exists g, non_empty (group m 1) = Some g.
Proof.
  intros I E.
  assert (X : exists body,
             locate 1 r = Some body /\ 8 <= least any_char body).
  { cbn in I. destruct I as [<-|[<-|[]]];
      (eexists; split; [reflexivity|vm_compute; lia]). }
  destruct X as (body & L & Lb).
  destruct (exec_group _ _ _ _ _ E L) as (w & Gw & _ & _ & Le & _).
  exists (Str.pack w). rewrite Gw. apply non_empty_pack.
  specialize (Le any_char). apply (nonempty_filter any_char w 0). lia.
Qed.

(** X6.  The dates read from a text: the record has its two keys, and each
    date is null or a text of digits and slashes, 8 to 10 characters
    long. *)
Theorem dates_read text :
  keys (extractDatesFromText text) = ["statement_date"; "payment_due_date"]
  /\ forall f, In f dateFields ->
       get (extractDatesFromText text) f = VNull
       \/ date_value (get (extractDatesFromText text) f).
Proof.
  unfold extractDatesFromText, datePatterns. cbn [fold_left fst snd].
  set (r1 := Seq (alt [lit_i "Statement Date"; lit_i "Date"]) date_tail).
  set (r2 := Seq (alt [lit_i "Payment Due Date"; lit_i "Due Date"]) date_tail).
  assert (I1 : In r1 (map snd datePatterns)) by (cbn; auto).
  assert (I2 : In r2 (map snd datePatterns)) by (cbn; auto).
  destruct (exec r1 text) as [m1|] eqn:E1;
    [destruct (non_empty (group m1 1)) as [g1|] eqn:G1|];
    (destruct (exec r2 text) as [m2|] eqn:E2;
       [destruct (non_empty (group m2 1)) as [g2|] eqn:G2|]);
    (split; [reflexivity|]);
    intros f [<-|[<-|[]]]; cbn;
    try (left; reflexivity);
    right; (eapply date_found; [| |eassumption]; [|eassumption]; assumption).
Qed.

Lemma matches_seq_app (l1 l2 : list re) : forall st st',
  matches (seq (l1 ++ l2)) st st' ->
  exists mid, matches (seq l1) st mid /\ matches (seq l2) mid st'.
Proof.
  induction l1 as [|a l1 IH]; intros st st' M.
  - exists st. split; [reflexivity|exact M].
  - destruct l1 as [|b l1].
    + cbn [app seq] in *. destruct l2 as [|c l2].
      * exists st'. split; [exact M|reflexivity].
      * cbn [matches] in M. exact M.
    + change (seq ((a :: b :: l1) ++ l2))
        with (Seq a (seq ((b :: l1) ++ l2))) in M.
      cbn [matches] in M. destruct M as (mid & A & B).
      destruct (IH _ _ B) as (mid' & B1 & B2).
      exists mid'. split; [|exact B2].
      change (seq (a :: b :: l1)) with (Seq a (seq (b :: l1))).
      cbn [matches]. now exists mid.
Qed.

Lemma plain_lit_i s : plain (lit_i s) = true.
Proof.
  unfold lit_i. induction (Str.chars s) as [|c l IH]; [reflexivity|].
  destruct l as [|d l]; [reflexivity|].
  change (seq (map chr_i (c :: d :: l)))
    with (Seq (chr_i c) (seq (map chr_i (d :: l)))).
  cbn [plain]. exact IH.
Qed.

(** A match of a label is a match of its first words, then of its last
    words. *)
Lemma matches_lit_i_app a b st st' :
  matches (lit_i (a ++ b)) st st' ->
  exists mid, matches (lit_i a) st mid /\ matches (lit_i b) mid st'.
Proof.
  unfold lit_i, Str.chars. intros M.
  assert (E : list_ascii_of_string (a ++ b)
              = (list_ascii_of_string a ++ list_ascii_of_string b)%list).
  { clear. induction a as [|c a IH]; cbn; [reflexivity|]. now rewrite IH. }
  rewrite E, map_app in M. now apply matches_seq_app in M.
Qed.

(** The position that a match without groups leads to, from the start
    of a match attempt. *)
Lemma plain_position r u l st :
  plain r = true -> matches r (start (rev u) l) st ->
  exists w, l = (w ++ rest st)%list /\ st = start (rev (u ++ w)) (rest st).
Proof.
  intros P M. destruct (matches_word _ _ _ M) as (w & [R B] & _).
  pose proof (matches_plain _ P _ _ M) as C.
  exists w. split; [exact R|]. destruct st as [b r' c]. cbn in *.
  unfold start. now rewrite rev_app_distr, B, C.
Qed.

(** X7.  A text in which the patterns find a due date gives a statement date
    as well: the label of the one ends with a label of the other. *)
Theorem due_date_gives_statement_date text :
  get (extractDatesFromText text) "payment_due_date" <> VNull ->
  get (extractDatesFromText text) "statement_date" <> VNull.
Proof.
  unfold extractDatesFromText, datePatterns. cbn [fold_left fst snd].
  set (r1 := Seq (alt [lit_i "Statement Date"; lit_i "Date"]) date_tail).
  set (r2 := Seq (alt [lit_i "Payment Due Date"; lit_i "Due Date"]) date_tail).
  assert (I1 : In r1 (map snd datePatterns)) by (cbn; auto).
  intros H.
  assert (E2 : exists m2, exec r2 text = Some m2).
  { destruct (exec r2 text) as [m2|]; [now exists m2|].
    exfalso. apply H.
    destruct (exec r1 text) as [m1|]; [|reflexivity].
    now destruct (non_empty (group m1 1)). }
  clear H. destruct E2 as (m2 & E2).
  assert (E1 : exec r1 text <> None).
  { apply exec_sound in E2.
    destruct E2 as (u & l & st' & T & M & _).
    unfold r2 in M. cbn [matches alt] in M.
    destruct M as (mid & A & B).
    assert (D : exists s w, matches (lit_i "Date") s mid
                            /\ l = (w ++ rest s)%list
                            /\ s = start (rev (u ++ w)) (rest s)).
    { destruct A as [A|A].
      - apply (matches_lit_i_app "Payment Due " "Date") in A.
        destruct A as (s & A0 & A1).
        destruct (plain_position _ _ _ _ (plain_lit_i _) A0) as (w & R & S).
        exists s, w. auto.
      - apply (matches_lit_i_app "Due " "Date") in A.
        destruct A as (s & A0 & A1).
        destruct (plain_position _ _ _ _ (plain_lit_i _) A0) as (w & R & S).
        exists s, w. auto. }
    destruct D as (s & w & A' & R & S).
    apply (exec_complete r1 text (u ++ w) (rest s) st').
    - now rewrite T, R, app_assoc.
    - rewrite <- S. unfold r1. cbn [matches alt]. exists mid. auto. }
  destruct (exec r1 text) as [m1|] eqn:X; [|congruence].
  destruct (date_found_nonempty _ _ _ I1 X) as (g & ->).
  destruct (exec r2 text) as [m|]; [destruct (non_empty (group m 1))|];
    cbn; discriminate.
Qed.

End Dates.

Module Transactions.
Import JS Route Regex Semantics Matching Model Records Shapes Rows Strings
  CardNumber Numbers.

Local Open Scope nat_scope.

Lemma date_char_not_space c : date_char c = true -> Str.is_space c = false.
Proof.
  unfold date_char. intros H. apply orb_prop in H.
  destruct H as [H|H]; [now apply digit_not_space|].
  apply Ascii.eqb_eq in H. now subst.
Qed.

Lemma Forall_last {A} (P : A -> Prop) c (l : list A) :
  Forall P (c :: l) -> P (last (c :: l) c).
Proof.
  assert (G : forall (l : list A) d, Forall P l -> P d -> P (last l d)).
  { clear. induction l as [|x l IH]; intros d F D; [exact D|].
    inversion F; subst. destruct l as [|y l]; [assumption|].
    change (last (x :: y :: l) d) with (last (y :: l) d). now apply IH. }
  intros F. apply G; [exact F|]. now inversion F.
Qed.

(** A text of date characters has no white space to trim. *)
Lemma trim_date w :
  Forall (fun c => date_char c = true) w -> Str.trim (Str.pack w) = Str.pack w.
Proof.
  intros F. unfold Str.trim. rewrite chars_pack. f_equal.
  apply trim_chars_fixed. destruct w as [|c w]; [exact I|]. split.
  - apply date_char_not_space. now inversion F.
  - apply date_char_not_space.
    apply (Forall_last (fun c => date_char c = true)), F.
Qed.

(** The row made of one match of the transaction pattern. *)
Lemma transaction_row_shaped m row :
  (exists st st', matches transactionPattern st st' /\ captures m = caps st') ->
  transaction_row m = Some row -> transaction_shaped row.
Proof.
  intros (st & st' & M & C) H. unfold transaction_row in H.
  destruct (non_empty (group m 1)) as [date|] eqn:G1; [|discriminate].
  destruct (non_empty (group m 2)) as [description|] eqn:G2; [|discriminate].
  destruct (non_empty (group m 3)) as [amountStr|] eqn:G3; [|discriminate].
  injection H as <-. apply non_empty_some in G1.
  destruct (caps_group _ _ _ _ 1 _ M C eq_refl) as (w & Gw & W & Le & Mo).
  rewrite Gw in G1. injection G1 as <-.
  specialize (W date_char ltac:(vm_compute; reflexivity)).
  specialize (Le any_char). specialize (Mo 10 eq_refl).
  assert (F : filter any_char w = w).
  { clear. induction w as [|c w IH]; cbn; [reflexivity|]. now rewrite IH. }
  rewrite F in Le. change (least any_char _) with 10 in Le.
  do 3 eexists. split; [reflexivity|]. rewrite (trim_date _ W).
  unfold made_of. rewrite <- length_chars, chars_pack.
  split; [exact W|]. split; [lia|]. apply trim_trim.
Qed.

Lemma rows_loop (l : list result) : forall acc,
  Forall transaction_shaped acc ->
  (forall m row, In m l -> transaction_row m = Some row ->
                 transaction_shaped row) ->
  Forall transaction_shaped
    (fold_left
       (fun transactions m =>
          match transaction_row m with
          | Some row => (transactions ++ [row])%list
          | None => transactions
          end) l acc).
Proof.
  induction l as [|m l IH]; intros acc A H; cbn [fold_left]; [exact A|].
  apply IH.
  - destruct (transaction_row m) as [row|] eqn:E; [|exact A].
    apply Forall_app. split; [exact A|]. constructor; [|constructor].
    eapply H; [now left|exact E].
  - intros x row I. apply H. now right.
Qed.

(** X5.  The transactions read from a text are a list of rows, each with a
    date of the form dd/dd/dddd, a trimmed description and a number for
    its amount. *)
Theorem transactions_read text :
  exists rows,
    extractTransactionsFromText text = VArr rows []
    /\ Forall transaction_shaped rows.
Proof.
  unfold extractTransactionsFromText. eexists. split; [reflexivity|].
  destruct (exec transactionSection text) as [section|]; [|constructor].
  destruct (non_empty (group section 1)) as [transactionText|]; [|constructor].
  apply rows_loop; [constructor|].
  intros m row I. apply transaction_row_shaped.
  unfold exec_all in I. eapply search_all_sound, I.
Qed.

End Transactions.

Module CustomerName.
Import JS Route Regex Semantics Matching Model Records Shapes Rows Strings
  CardNumber Numbers.

Local Open Scope nat_scope.

(** Removing one match keeps characters of the text only. *)
Lemma replace_removed_made_of (P : ascii -> bool) r s :
  made_of P s -> made_of P (Regex.replace r removed s).
Proof.
  unfold made_of, Regex.replace. intros F.
  destruct (exec r s) as [m|] eqn:E; [|exact F].
  rewrite chars_pack. destruct (exec_after _ _ _ E) as (x & X).
  rewrite X in F. apply Forall_app in F. destruct F as [F1 F2].
  apply Forall_app in F2. destruct F2 as [_ F2].
  apply Forall_app. split; [exact F1|]. exact F2.
Qed.

Lemma trim_made_of (P : ascii -> bool) s :
  made_of P s -> made_of P (Str.trim s).
Proof.
  unfold made_of, Str.trim. rewrite chars_pack. apply Forall_trim_chars.
Qed.

(** X2.  A customer name returned by the extractor is made of letters, white
    space and points, and has no white space at its ends. *)
Theorem customer_name_made_of text n :
  customer_name_of text = Some n ->
  made_of name_char n /\ Str.trim n = n.
Proof.
  unfold customer_name_of. intros H.
  apply first_pattern_some in H. destruct H as (p & I & H).
  destruct (exec p text) as [m|] eqn:E; [|discriminate].
  destruct (non_empty (group m 1)) as [g|] eqn:G; [|discriminate].
  injection H as <-. split; [|apply trim_trim].
  apply trim_made_of, replace_removed_made_of, trim_made_of.
  apply non_empty_some in G.
  assert (L : locate 1 p = Some (Seq name_chars not_email)).
  { destruct I as [<-|[<-|[<-|[<-|[]]]]]; reflexivity. }
  destruct (exec_group _ _ _ _ _ E L) as (w & Gw & _ & W & _).
  rewrite Gw in G. injection G as <-. unfold made_of. rewrite chars_pack.
  apply W. vm_compute. reflexivity.
Qed.

End CustomerName.

Module DigitFree.
Import JS Route Regex Semantics Matching Model Records Shapes Rows Strings
  CardNumber Numbers Amounts.

Local Open Scope nat_scope.

Lemma first_pattern_none {P A} (l : list P) (f : P -> option A) :
  (forall p, In p l -> f p = None) -> first_pattern l f = None.
Proof.
  induction l as [|p l IH]; intros H; cbn; [reflexivity|].
  rewrite (H p) by now left. apply IH. intros q I. apply H. now right.
Qed.

Lemma part_digit_free (x w y l : list ascii) :
  l = (x ++ w ++ y)%list ->
  Forall (fun c => Str.is_digit c = false) l ->
  Forall (fun c => Str.is_digit c = false) w.
Proof.
  intros -> F. apply Forall_app in F. destruct F as [_ F].
  apply Forall_app in F. tauto.
Qed.

(** An amount captured in a text without a digit is no number. *)
Lemma amount_without_digit r text m g :
  Forall (fun c => Str.is_digit c = false) (Str.chars text) ->
  In r (map snd amountPatterns) ->
  exec r text = Some m -> non_empty (group m 1) = Some g ->
  B64.parseFloat (without_commas g) = S754_nan.
Proof.
  intros D I E G.
  destruct (amount_found _ _ _ _ I E G) as [_ (w & -> & F & x & y & T)].
  pose proof (part_digit_free _ _ _ _ T D) as Dw.
  apply parseFloat_points. unfold without_commas, chr, made_of.
  rewrite replace_all_class, !chars_pack.
  clear - F Dw. induction w as [|c w IH]; cbn [filter]; [constructor|].
  inversion F as [|? ? Fc Fw]; inversion Dw as [|? ? Dc Dw']; subst.
  unfold amount_char in Fc. rewrite Dc in Fc. cbn [orb] in Fc.
  rewrite (Ascii.eqb_sym "," c).
  destruct (Ascii.eqb c ","); cbn [negb]; [now apply IH|].
  constructor; [exact Fc|now apply IH].
Qed.

(** X8.  From a text without a digit the patterns read no card number, no
    reward points, no transaction and no date, and every amount they
    store is NaN. *)
Theorem text_without_digit text :
  Forall (fun c => Str.is_digit c = false) (Str.chars text) ->
  extractCardNumberFromText text = None
  /\ extractRewardPointsFromText text = triple VNull VNull VNull
  /\ extractTransactionsFromText text = VArr [] []
  /\ extractDatesFromText text
     = [("statement_date", VNull); ("payment_due_date", VNull)]
  /\ forall f, has (extractFinancialDataFromText text) f = true ->
               get (extractFinancialDataFromText text) f = VNum S754_nan.
Proof.
  intros D.
  assert (N : forall r, requires Str.is_digit r = true -> exec r text = None).
  { intros r Q. now apply (exec_requires Str.is_digit). }
  split; [|split; [|split; [|split]]].
  - unfold extractCardNumberFromText. apply first_pattern_none.
    intros p [<-|[<-|[<-|[<-|[]]]]]; cbn [fst]; now rewrite N.
  - unfold extractRewardPointsFromText. rewrite first_pattern_none;
      [reflexivity|].
    intros p [<-|[<-|[<-|[]]]]; cbn [fst]; now rewrite N.
  - unfold extractTransactionsFromText.
    destruct (exec transactionSection text) as [section|] eqn:E;
      [|reflexivity].
    destruct (non_empty (group section 1)) as [transactionText|] eqn:G;
      [|reflexivity].
    apply non_empty_some in G.
    destruct (exec_group _ _ _ 1 _ E eq_refl) as (w & Gw & (x & y & T) & _).
    rewrite Gw in G. injection G as <-.
    pose proof (part_digit_free _ _ _ _ T D) as Dw.
    unfold exec_all. cbn [search_all].
    change (search transactionPattern [] (Str.chars (Str.pack w)))
      with (exec transactionPattern (Str.pack w)).
    rewrite (exec_requires Str.is_digit); [reflexivity|reflexivity|].
    now rewrite chars_pack.
  - unfold extractDatesFromText, datePatterns. cbn [fold_left fst snd].
    now rewrite !N.
  - unfold extractFinancialDataFromText.
    match goal with
    | |- context [fold_left ?step amountPatterns []] =>
        set (fd := fold_left step amountPatterns [])
    end.
    assert (A : forall k, has fd k = true ->
                          In k amount_names /\ get fd k = VNum S754_nan).
    { apply (amounts_loop text (fun v => v = VNum S754_nan)).
      - intros r m g I E G. f_equal.
        now apply (amount_without_digit r text m g).
      - apply incl_refl.
      - intros k H. discriminate. }
    assert (U : forall k, is_undefined (get fd k) = false -> has fd k = true).
    { intros k. unfold get, has. now destruct (lookup k fd). }
    destruct (negb (is_undefined (get fd "credit_limit"))
              && negb (is_undefined (get fd "total_amount_due"))
              && is_undefined (get fd "available_credit_limit"))%bool eqn:C.
    + apply andb_prop in C. destruct C as [C Ua].
      apply andb_prop in C. destruct C as [Uc Ut].
      apply negb_true_iff in Uc. apply negb_true_iff in Ut.
      destruct (A _ (U _ Uc)) as [_ Ec].
      destruct (A _ (U _ Ut)) as [_ Et].
      rewrite Ec, Et. intros f. rewrite has_set_cases, get_set.
      destruct (String.eqb f "available_credit_limit"); cbn [orb].
      * reflexivity.
      * intros H. now apply A.
    + intros f H. now apply A.
Qed.

End DigitFree.

Module MergeFrames.
Import JS Route Model Records Validation Finalization Merging
  MergeProperties FinalizationProperties Idempotence Frames.

(** Finalization reads the eleven fields of the data model, and no
    other. *)
Lemma finalize_ext_keys d1 d2 :
  (forall k, In k model_keys -> get d1 k = get d2 k) ->
  finalValidationAndCalculation d1 = finalValidationAndCalculation d2.
Proof.
  intros H. rewrite !finalize_closed.
  unfold finalize_spec, finalized, field.
  rewrite !H by (cbn; tauto). reflexivity.
Qed.

(** X9.  Finalizing a finalized record changes nothing. *)
Theorem finalize_twice data :
  (r <- finalValidationAndCalculation data ;;
   finalValidationAndCalculation r)
  = finalValidationAndCalculation data.
Proof.
  destruct (finalValidationAndCalculation data) as [r|e] eqn:E;
    cbn [bind]; [|reflexivity].
  exact (finalize_fixpoint _ _ E).
Qed.

Lemma merge_get_ext llm1 pat1 llm2 pat2 longer s k :
  get llm1 k = get llm2 k -> get pat1 k = get pat2 k ->
  merge_get llm1 pat1 longer s k = merge_get llm2 pat2 longer s k.
Proof. unfold merge_get. now intros -> ->. Qed.

Lemma merge_then_finalize_ext llm1 pat1 llm2 pat2 :
  (forall k, In k model_keys -> get llm1 k = get llm2 k) ->
  (forall k, In k model_keys -> get pat1 k = get pat2 k) ->
  merge_then_finalize llm1 pat1 = merge_then_finalize llm2 pat2.
Proof.
  intros L P. unfold merge_then_finalize.
  pose proof (merge_spec llm1 pat1) as S1.
  pose proof (merge_spec llm2 pat2) as S2.
  assert (E : merge_effects llm1 pat1 = merge_effects llm2 pat2).
  { unfold merge_effects. now rewrite !L, !P by (cbn; tauto). }
  rewrite E in S1.
  destruct (merge_effects llm2 pat2) as [[longer s]|e].
  - destruct S1 as (m1 & -> & G1). destruct S2 as (m2 & -> & G2).
    cbn [bind]. apply finalize_ext_keys. intros k I.
    rewrite G1, G2. apply merge_get_ext; auto.
  - now rewrite S1, S2.
Qed.

(** X10.  A property outside the data model, in the llm record or in the
    pattern record, has no part in the result of merge and
    finalization. *)
Theorem other_keys_ignored llm pat k v :
  ~ In k model_keys ->
  merge_then_finalize (set llm k v) pat = merge_then_finalize llm pat
  /\ merge_then_finalize llm (set pat k v) = merge_then_finalize llm pat.
Proof.
  intros N.
  assert (G : forall (o : obj) j, In j model_keys -> get (set o k v) j = get o j).
  { intros o j I. apply get_set_other.
    destruct (String.eqb_spec j k) as [->|]; [contradiction|reflexivity]. }
  split; apply merge_then_finalize_ext; intros j I; auto.
Qed.

(** X11.  Merge leaves the llm record as it is when no field of the pattern
    record is truthy and usable. *)
Theorem merge_without_pattern_data llm pat :
  (forall f, In f merged_fields -> assignable (get pat f) = false) ->
  (forall f, In f rewardFields ->
             assignable (prop (get pat "reward_points_summary") f) = false) ->
  robustDataMerging llm pat = Normal llm.
Proof.
  intros T R. unfold robustDataMerging.
  assert (HP : forall acc f, In f merged_fields ->
                             high_priority_step pat acc f = Normal acc).
  { intros acc f I. unfold high_priority_step.
    specialize (T f I). unfold assignable in T. now rewrite T. }
  assert (FS : forall acc f, In f merged_fields -> fill_step pat acc f = acc).
  { intros acc f I. unfold fill_step.
    specialize (T f I). unfold assignable in T. now rewrite T. }
  cbv zeta. unfold highPriorityFields.
  do 4 (cbn [for_of]; rewrite HP by (cbn; tauto); cbn [bind]).
  cbn [for_of bind fold_left financialFields dateFields].
  rewrite !FS by (cbn; tauto).
  destruct (truthy (get pat "reward_points_summary")) eqn:Tr; [|reflexivity].
  assert (RS : forall acc f, In f rewardFields ->
                             reward_step pat acc f = Normal acc).
  { intros acc f I. unfold reward_step.
    rewrite (member_truthy _ _ Tr). cbn [bind].
    specialize (R f I). unfold assignable in R. now rewrite R. }
  unfold rewardFields.
  do 3 (cbn [for_of]; rewrite RS by (cbn; tauto); cbn [bind]).
  reflexivity.
Qed.

(** X12.  For the customer name, the card number and the bank name, merge
    takes the pattern value whenever it is truthy and usable, whatever
    the llm record holds. *)
Theorem merge_prefers_pattern_names llm pat m f :
  robustDataMerging llm pat = Normal m ->
  In f name_fields ->
  get m f = if assignable (get pat f) then get pat f else get llm f.
Proof.
  intros H I. destruct (merge_inv _ _ _ H) as (longer & s & _ & _ & G).
  rewrite G. destruct I as [<-|[<-|[<-|[]]]]; reflexivity.
Qed.

(** *** A summary on which no property can be set *)

Lemma reward_value_step_throws prps s f :
  truthy_primitive s = true -> In f rewardFields ->
  assignable (prop prps f) = true -> truthy prps = true ->
  reward_value_step prps s f = Throws TypeError.
Proof.
  intros P I A T. unfold reward_value_step.
  rewrite (member_truthy _ _ T). cbn [bind]. rewrite A.
  unfold truthy_primitive in P. apply andb_prop in P. destruct P as [P Ts].
  rewrite Ts. cbn [negb].
  assert (M : member s f = Normal VUndefined).
  { destruct s as [| |b|x|t|elems props|props]; try discriminate;
      try reflexivity.
    cbn [member]. destruct I as [<-|[<-|[<-|[]]]]; reflexivity. }
  rewrite M. cbn [bind truthy negb orb].
  now destruct s.
Qed.

Lemma reward_value_step_keeps prps s f :
  truthy prps = true -> assignable (prop prps f) = false ->
  reward_value_step prps s f = Normal s.
Proof.
  intros T A. unfold reward_value_step.
  rewrite (member_truthy _ _ T). cbn [bind]. now rewrite A.
Qed.

Lemma summary_value_throws prps s f :
  truthy_primitive s = true -> truthy prps = true ->
  In f rewardFields -> assignable (prop prps f) = true ->
  summary_value prps s = Throws TypeError.
Proof.
  intros P T I A. unfold summary_value. rewrite T.
  cbn [for_of rewardFields].
  destruct (assignable (prop prps "opening_balance")) eqn:A1.
  { rewrite reward_value_step_throws; cbn; auto. }
  rewrite (reward_value_step_keeps _ _ _ T A1). cbn [bind].
  destruct (assignable (prop prps "earned")) eqn:A2.
  { rewrite reward_value_step_throws; cbn; auto. }
  rewrite (reward_value_step_keeps _ _ _ T A2). cbn [bind].
  destruct (assignable (prop prps "closing_balance")) eqn:A3.
  { rewrite reward_value_step_throws; cbn; auto. }
  exfalso. destruct I as [<-|[<-|[<-|[]]]]; congruence.
Qed.

(** Merge throws when the llm record's summary is a truthy boolean,
    number or text and the pattern summary has a sub-field to assign:
    no property can be set on such a value.  The pipeline then drops
    the whole llm record and returns the finalized pattern-matched
    data. *)
Lemma merge_throws_on_primitive_summary llm pat f :
  truthy_primitive (get llm "reward_points_summary") = true ->
  truthy (get pat "reward_points_summary") = true ->
  In f rewardFields ->
  assignable (prop (get pat "reward_points_summary") f) = true ->
  exists e, robustDataMerging llm pat = Throws e.
Proof.
  intros P T I A. pose proof (merge_spec llm pat) as S.
  unfold merge_effects in S.
  destruct (tx_longer _ _) as [longer|e]; cbn [bind] in S; [|eauto].
  rewrite (summary_value_throws _ _ _ P T I A) in S. cbn [bind] in S. eauto.
Qed.

End MergeFrames.

Module Handlers.
Import JS Route Model Records Validation Finalization Merging
  MergeProperties FinalizationProperties Idempotence RegexFacts Recovery
  Pipeline Service Requests.

Lemma configured_false key :
  configured key = false ->
  match key with Some k => String.eqb k "" | None => true end = true.
Proof. destruct key as [k|]; cbn; [|reflexivity]. now destruct (String.eqb k ""). Qed.

Lemma configured_true key :
  configured key = true ->
  match key with Some k => String.eqb k "" | None => true end = false.
Proof. destruct key as [k|]; cbn; [|discriminate]. now destruct (String.eqb k ""). Qed.

Lemma truthy_or_else v s : s <> "" -> truthy (or_else v (VStr s)) = true.
Proof.
  intros N. unfold or_else. destruct (truthy v) eqn:T; [exact T|].
  cbn. now apply String.eqb_neq in N as ->.
Qed.

Lemma call_without_key key fetch :
  configured key = false ->
  callGeminiApi key fetch = Throws (Error "GEMINI_API_KEY is not configured").
Proof. intros C. unfold callGeminiApi. now rewrite (configured_false _ C). Qed.

Lemma call_returns_truthy key fetch :
  configured key = true ->
  exists v, callGeminiApi key fetch = Normal v /\ truthy v = true.
Proof.
  intros C. unfold callGeminiApi. rewrite (configured_true _ C).
  destruct fetch as [r|e]; cbn [bind try_catch]; [|eexists; split; reflexivity].
  destruct (ok r); cbn [negb].
  - destruct (json_outcome r) as [result|e]; cbn [bind try_catch];
      [|eexists; split; reflexivity].
    destruct (candidate_text result) as [text|e]; cbn [bind try_catch];
      [|eexists; split; reflexivity].
    eexists. split; [reflexivity|]. now apply truthy_or_else.
  - destruct (text_outcome r) as [t|e]; cbn [bind try_catch];
      eexists; split; reflexivity.
Qed.

Lemma call_rejected key fetch e :
  configured key = true -> fetch = Throws e ->
  callGeminiApi key fetch
  = Normal (VStr ("API call failed: " ++ message_of e)).
Proof.
  intros C ->. unfold callGeminiApi. now rewrite (configured_true _ C).
Qed.

(** X15.  The request to the language model.  Without a key it throws, whatever
    the network does.  With a key it never throws and returns a truthy
    value: when the request is rejected, is answered with a status that
    is not ok, or has a body that is no JSON with a first candidate, the
    value is a text that starts with "API call failed: ". *)
Theorem api_call_outcome key fetch :
  (configured key = false ->
   callGeminiApi key fetch = Throws (Error "GEMINI_API_KEY is not configured"))
  /\ (configured key = true ->
      (exists v, callGeminiApi key fetch = Normal v /\ truthy v = true)
      /\ (forall e, fetch = Throws e ->
            callGeminiApi key fetch
            = Normal (VStr ("API call failed: " ++ message_of e)))
      /\ (forall r, fetch = Normal r -> ok r = false ->
            exists message,
              callGeminiApi key fetch
              = Normal (VStr ("API call failed: " ++ message)))
      /\ (forall r e, fetch = Normal r -> ok r = true ->
            (result <- json_outcome r ;; candidate_text result) = Throws e ->
            callGeminiApi key fetch
            = Normal (VStr ("API call failed: " ++ message_of e)))
      /\ (forall r text, fetch = Normal r -> ok r = true ->
            (result <- json_outcome r ;; candidate_text result) = Normal text ->
            callGeminiApi key fetch
            = Normal (or_else text (VStr "No response from AI")))).
Proof.
  split; [apply call_without_key|]. intros C.
  split; [now apply call_returns_truthy|].
  split; [intros e; now apply call_rejected|].
  unfold callGeminiApi. rewrite (configured_true _ C). split; [|split].
  - intros r -> O. cbn [bind]. rewrite O. cbn [bind negb].
    destruct (text_outcome r) as [t|e]; cbn [bind try_catch];
      eexists; reflexivity.
  - intros r e -> O J. cbn [bind]. rewrite O. cbn [bind negb].
    destruct (json_outcome r) as [result|e']; cbn [bind try_catch] in *.
    + now rewrite J.
    + now injection J as ->.
  - intros r text -> O J. cbn [bind]. rewrite O. cbn [bind negb].
    destruct (json_outcome r) as [result|e']; cbn [bind try_catch] in *;
      [|discriminate].
    now rewrite J.
Qed.

(** X16.  The handler of the general chat answers with status 200 and
    [success: true] exactly when the body of the request is read, the
    question is converted to a string and a key is configured, and with
    status 500 and [success: false] otherwise.  A request to the language
    model that is rejected is then no error: it is a status 200 whose
    answer is the text of the failure. *)
Theorem general_chat_outcome request key fetch :
  (status (handleGeneralChat request key fetch) = 200
   \/ status (handleGeneralChat request key fetch) = 500)
  /\ get (body (handleGeneralChat request key fetch)) "success"
     = VBool (status (handleGeneralChat request key fetch) =? 200)
  /\ (status (handleGeneralChat request key fetch) = 200
      <-> (exists asked, question_text request = Normal asked)
          /\ configured key = true)
  /\ (forall e,
        status (handleGeneralChat request key fetch) = 200 ->
        fetch = Throws e ->
        get (body (handleGeneralChat request key fetch)) "answer"
        = VStr ("API call failed: " ++ message_of e)).
Proof.
  unfold handleGeneralChat, question_text.
  destruct request as [parsed|e0]; cbn [bind].
  2:{ split; [now right|]. split; [reflexivity|]. split.
      - split; [discriminate|]. intros [(a & A) _]. discriminate.
      - discriminate. }
  destruct (member parsed "question") as [question|e0]; cbn [bind].
  2:{ split; [now right|]. split; [reflexivity|]. split.
      - split; [discriminate|]. intros [(a & A) _]. discriminate.
      - discriminate. }
  destruct (ToString question) as [asked|e0]; cbn [bind].
  2:{ split; [now right|]. split; [reflexivity|]. split.
      - split; [discriminate|]. intros [(a & A) _]. discriminate.
      - discriminate. }
  destruct (configured key) eqn:C.
  - destruct (call_returns_truthy key fetch C) as (v & E & T).
    rewrite E. cbn [status body]. split; [now left|].
    split; [reflexivity|]. split.
    + split; [|reflexivity]. intros _. split; [now exists asked|reflexivity].
    + intros e _ Ef. rewrite (call_rejected key fetch e C Ef) in E.
      now injection E as <-.
  - rewrite (call_without_key key fetch C). cbn [status body]. split; [now right|].
    split; [reflexivity|]. split.
    + split; [discriminate|]. intros [_ D]. discriminate.
    + discriminate.
Qed.

(** *** The store of sessions *)

Lemma find_put_same id c store :
  find_session id (put_session id c store) = Some c.
Proof.
  induction store as [|[k c'] r IH]; cbn.
  - now rewrite String.eqb_refl.
  - destruct (String.eqb id k) eqn:E; cbn; now rewrite E.
Qed.

Lemma find_put_other id other c store :
  other <> id ->
  find_session other (put_session id c store) = find_session other store.
Proof.
  intros N. apply String.eqb_neq in N.
  induction store as [|[k c'] r IH]; cbn.
  - now rewrite N.
  - destruct (String.eqb id k) eqn:E; cbn.
    + apply String.eqb_eq in E. subst k. now rewrite N.
    + now rewrite IH.
Qed.

Lemma digits36_nonempty fuel : forall z acc,
  acc <> [] -> digits36 fuel z acc <> [].
Proof.
  induction fuel as [|f IH]; intros z acc N; cbn [digits36]; [exact N|].
  destruct (z <? 36); [discriminate|]. apply IH. discriminate.
Qed.

Lemma to_base36_nonempty z : to_base36 z <> "".
Proof.
  unfold to_base36. destruct (z <? 0); [discriminate|].
  cbn [digits36]. destruct (z <? 36); [discriminate|].
  pose proof (digits36_nonempty (Z.to_nat (Z.log2 z)) (z / 36)
                [digit36 (z mod 36)] ltac:(discriminate)) as N.
  destruct (digits36 _ _ _); [congruence|discriminate].
Qed.

Lemma append_nonempty a b : b <> "" -> a ++ b <> "".
Proof. destruct a; cbn; [auto|discriminate]. Qed.

Lemma mock_text_nonempty name : mockExtractedText name <> "".
Proof. unfold mockExtractedText. cbn. discriminate. Qed.

(** The extraction returns a record, whatever the request to the
    language model gives. *)
Lemma extraction_returns gemini text :
  exists r, extract10DataPointsWithGemini gemini text = Normal r.
Proof.
  unfold extract10DataPointsWithGemini, try_catch. rewrite fallback_loop.
  destruct (pattern_only_returns _ (patternMatchedData_typed text))
    as (r & Er).
  destruct (bind gemini _) as [x|e]; eauto.
Qed.

(** X17.  A document that [?action=ocr] has processed is found afterwards: the
    response holds the identifier under which the text is stored, and
    with that identifier [?action=ocr10] answers with status 200 and
    [?action=chatwithpdf] never answers that the session is not
    found. *)
Theorem processed_session_is_found store form random now :
  status (snd (handleOCR store form random now)) = 200 ->
  exists sessionId name,
    get (body (snd (handleOCR store form random now))) "session_id"
    = VStr sessionId
    /\ find_session sessionId (fst (handleOCR store form random now))
       = Some {| text := mockExtractedText name; extracted_10_data := None |}
    /\ (forall gemini,
          status (snd (handleOCR10 (fst (handleOCR store form random now))
                         sessionId gemini)) = 200)
    /\ (forall question key fetch,
          status (handleChatWithPDF (fst (handleOCR store form random now))
                    (Normal (chat_request question sessionId)) key fetch)
          <> 404).
Proof.
  unfold handleOCR. destruct form as [file|e]; [|discriminate].
  destruct (match file with
            | NoEntry => true
            | TextEntry s => String.eqb s ""
            | FileEntry _ _ => false
            end); [discriminate|].
  destruct (processPDF file) as [result|e] eqn:P; [|discriminate].
  intros _. cbn [fst snd body].
  set (sessionId := substring_from 2 random ++ to_base36 now).
  assert (N : sessionId <> "") by apply append_nonempty, to_base36_nonempty.
  assert (T : exists name, pdf_text result = mockExtractedText name).
  { unfold processPDF, try_catch in P.
    destruct file as [|s|name [u|e]]; cbn [bind] in P; try discriminate.
    injection P as <-. now exists name. }
  destruct T as (name & T). rewrite T.
  exists sessionId, name. split; [reflexivity|].
  split; [apply find_put_same|]. split.
  - intros gemini. unfold handleOCR10.
    apply String.eqb_neq in N. rewrite N, find_put_same. cbn [text].
    pose proof (mock_text_nonempty name) as M.
    apply String.eqb_neq in M. rewrite M.
    destruct (extraction_returns gemini (mockExtractedText name)) as (r & ->).
    reflexivity.
  - intros question key fetch. unfold handleChatWithPDF, chat_request.
    cbn [member get lookup String.eqb Ascii.eqb Bool.eqb bind ToString].
    unfold no_content. rewrite find_put_same.
    destruct (ToString question) as [asked|e]; cbn [bind]; [|discriminate].
    destruct (callGeminiApi key fetch); cbn; discriminate.
Qed.

(** X18.  The handlers that write to the store touch the session of the
    request alone: [?action=ocr10] keeps the text of its session and
    every other session, and [?action=ocr] keeps every session but the
    one it creates. *)
Theorem other_sessions_kept store other :
  (forall session_id gemini,
     other <> session_id ->
     find_session other (fst (handleOCR10 store session_id gemini))
     = find_session other store)
  /\ (forall session_id gemini content,
        find_session session_id store = Some content ->
        exists content',
          find_session session_id (fst (handleOCR10 store session_id gemini))
          = Some content'
          /\ text content' = text content)
  /\ (forall form random now,
        other <> substring_from 2 random ++ to_base36 now ->
        find_session other (fst (handleOCR store form random now))
        = find_session other store).
Proof.
  split; [|split].
  - intros id gemini N. unfold handleOCR10.
    destruct (String.eqb id ""); [reflexivity|].
    destruct (find_session id store) as [c|]; [|reflexivity].
    destruct (String.eqb (text c) ""); [reflexivity|].
    destruct (extract10DataPointsWithGemini _ _); cbn [fst]; [|reflexivity].
    now apply find_put_other.
  - intros id gemini c F. unfold handleOCR10.
    destruct (String.eqb id ""); [now exists c|]. rewrite F.
    destruct (String.eqb (text c) ""); [now exists c|].
    destruct (extract10DataPointsWithGemini _ _); cbn [fst]; [|now exists c].
    eexists. split; [apply find_put_same|reflexivity].
  - intros form random now N. unfold handleOCR.
    destruct form as [file|e]; [|reflexivity].
    destruct (match file with
              | NoEntry => true
              | TextEntry s => String.eqb s ""
              | FileEntry _ _ => false
              end); [reflexivity|].
    destruct (processPDF file); cbn [fst]; [|reflexivity].
    now apply find_put_other.
Qed.

Lemma length_append a b :
  String.length (a ++ b) = (String.length a + String.length b)%nat.
Proof. induction a as [|c a IH]; cbn; [reflexivity|]. now rewrite IH. Qed.

Lemma length_pack l : String.length (Str.pack l) = List.length l.
Proof.
  unfold Str.pack. induction l as [|c l IH]; cbn; [reflexivity|].
  now rewrite IH.
Qed.

(** X19.  The text that [?action=ocr] returns is the first 1000 characters of
    the text it stores, followed by three points when the text is
    longer: 1003 characters at most. *)
Theorem ocr_preview_bounded store form random now preview :
  get (body (snd (handleOCR store form random now))) "extracted_text"
  = VStr preview ->
  (String.length preview <= 1003)%nat
  /\ forall content,
       status (snd (handleOCR store form random now)) = 200 ->
       find_session (substring_from 2 random ++ to_base36 now)
         (fst (handleOCR store form random now)) = Some content ->
       (String.length (text content) <= 1000)%nat ->
       preview = text content.
Proof.
  unfold handleOCR. destruct form as [file|e].
  2:{ cbn. intros [= <-]. split; [cbn; lia|discriminate]. }
  destruct (match file with
            | NoEntry => true
            | TextEntry s => String.eqb s ""
            | FileEntry _ _ => false
            end).
  { cbn. intros [= <-]. split; [cbn; lia|discriminate]. }
  destruct (processPDF file) as [result|e].
  2:{ cbn. intros [= <-]. split; [cbn; lia|discriminate]. }
  cbn [snd fst body get lookup String.eqb Ascii.eqb Bool.eqb status].
  intros [= <-]. split.
  - rewrite length_append. unfold Str.substring_to. rewrite length_pack.
    pose proof (firstn_le_length 1000 (Str.chars (pdf_text result))) as L.
    destruct (Nat.ltb _ _); cbn [String.length]; lia.
  - intros content _. rewrite find_put_same. intros [= <-]. cbn [text].
    intros L. apply Nat.ltb_ge in L. rewrite L.
    unfold Str.substring_to. rewrite firstn_all2.
    + rewrite Strings.pack_chars. clear.
      induction (pdf_text result) as [|c s IH]; cbn; [reflexivity|].
      now rewrite IH.
    + apply Nat.ltb_ge in L. rewrite Strings.length_chars. lia.
Qed.

(** X20.  How the request to the language model and the extraction compose.
    Without a key the request throws, and the extraction returns the
    finalized pattern-matched data.  With a key, a request that the
    network rejects becomes a text without JSON, and the extraction
    returns the fallback record merged with the pattern-matched data,
    finalized. *)
Theorem extraction_after_failed_request key fetch text :
  (configured key = false ->
   extract10DataPointsWithGemini (response_text (callGeminiApi key fetch)) text
   = finalValidationAndCalculation (pattern_only (patternMatchedData text)))
  /\ (forall e,
        configured key = true -> fetch = Throws e ->
        ~ In "{"%char (Str.chars (message_of e)) ->
        extract10DataPointsWithGemini
          (response_text (callGeminiApi key fetch)) text
        = merge_then_finalize createCompleteFallbackData
            (patternMatchedData text)).
Proof.
  split.
  - intros C. rewrite (call_without_key key fetch C). unfold response_text.
    unfold extract10DataPointsWithGemini, try_catch. cbn [bind].
    now rewrite fallback_loop.
  - intros e C F B. rewrite (call_rejected key fetch e C F).
    unfold response_text. cbn [bind].
    unfold extract10DataPointsWithGemini, try_catch. cbn [bind].
    rewrite no_brace_no_json.
    + destruct (merge_fallback_returns _ (patternMatchedData_typed text))
        as (r & Er).
      unfold merge_then_finalize in *. now rewrite Er.
    + intros I. apply B.
      assert (A : forall a b, Str.chars (a ++ b)
                              = (Str.chars a ++ Str.chars b)%list).
      { clear. intros a b. induction a as [|c a IH]; cbn; [reflexivity|].
        unfold Str.chars in IH. now rewrite IH. }
      rewrite A in I. apply in_app_or in I. destruct I as [I|I]; [|exact I].
      exfalso. cbn in I.
      repeat (destruct I as [I|I]; [discriminate|]). exact I.
Qed.

End Handlers.

Module Results.
Import JS Route Model Records Validation Finalization Merging
  MergeProperties FinalizationProperties Idempotence RegexFacts Recovery
  Pipeline Frames MergeFrames Handlers.

(** The result of the extraction is a finalized record. *)
Lemma extraction_finalizes gemini text r :
  extract10DataPointsWithGemini gemini text = Normal r ->
  (exists response m,
     gemini = Normal response
     /\ robustDataMerging (extractJsonFromResponse response)
          (patternMatchedData text) = Normal m
     /\ finalValidationAndCalculation m = Normal r)
  \/ finalValidationAndCalculation (pattern_only (patternMatchedData text))
     = Normal r.
Proof.
  unfold extract10DataPointsWithGemini, try_catch. rewrite fallback_loop.
  destruct gemini as [response|e]; cbn [bind]; [|now right].
  destruct (robustDataMerging _ _) as [m|e] eqn:M; cbn [bind]; [|now right].
  destruct (finalValidationAndCalculation m) as [x|e] eqn:F; [|now right].
  intros [= <-]. left. now exists response, m.
Qed.

(** X21.  Whatever the language model answers, the record that the extraction
    returns has the eleven keys of the data model, in the order of the
    fallback record. *)
Theorem extraction_result_keys gemini text :
  exists r,
    extract10DataPointsWithGemini gemini text = Normal r
    /\ keys r = model_keys.
Proof.
  destruct (extraction_returns gemini text) as (r & E). exists r.
  split; [exact E|].
  assert (K : forall data, finalValidationAndCalculation data = Normal r ->
                           keys r = model_keys).
  { intros data F. destruct (finalize_inv _ _ F) as (a & s & m & _ & _ & _ & ->).
    reflexivity. }
  destruct (extraction_finalizes _ _ _ E) as [(response & m & _ & _ & F)|F];
    eapply K; exact F.
Qed.

Lemma get_pattern_only pat f :
  In f name_fields -> get (pattern_only pat) f = pick (get pat f) VNull.
Proof. intros [<-|[<-|[<-|[]]]]; reflexivity. Qed.

Lemma finalized_name data r f :
  finalValidationAndCalculation data = Normal r -> In f name_fields ->
  get r f = pick (get data f) VNull.
Proof.
  intros F I. destruct (finalize_inv _ _ F) as (a & s & m & _ & _ & _ & ->).
  rewrite get_finalized. unfold field.
  destruct I as [<-|[<-|[<-|[]]]]; reflexivity.
Qed.

(** X14.  A customer name, a card number or a bank name that the patterns
    find, truthy and usable, is the one of the record that the extraction
    returns, whatever the language model answers. *)
Theorem pattern_names_reach_the_result gemini text r f :
  extract10DataPointsWithGemini gemini text = Normal r ->
  In f name_fields ->
  assignable (get (patternMatchedData text) f) = true ->
  get r f = get (patternMatchedData text) f.
Proof.
  intros E I A. pose proof (assignable_valid _ A) as V.
  destruct (extraction_finalizes _ _ _ E) as [(response & m & _ & M & F)|F].
  - rewrite (finalized_name _ _ _ F I).
    destruct (merge_inv _ _ _ M) as (longer & s & _ & _ & G). rewrite G.
    assert (N : merge_get (extractJsonFromResponse response)
                  (patternMatchedData text) longer s f
                = if assignable (get (patternMatchedData text) f)
                  then get (patternMatchedData text) f
                  else get (extractJsonFromResponse response) f).
    { destruct I as [<-|[<-|[<-|[]]]]; reflexivity. }
    rewrite N, A. now apply valid_pick.
  - rewrite (finalized_name _ _ _ F I), (get_pattern_only _ _ I).
    rewrite (valid_pick _ _ V). now apply valid_pick.
Qed.

(** X13.  When the summary of the llm record is a truthy boolean, number or
    text and the patterns find reward points to assign, merge throws:
    no property can be set on such a value.  The extraction then drops
    the whole llm record and returns what it returns when the request
    to the language model throws. *)
Theorem primitive_summary_drops_llm_record response text f e :
  truthy_primitive
    (get (extractJsonFromResponse response) "reward_points_summary") = true ->
  In f rewardFields ->
  assignable (prop (extractRewardPointsFromText text) f) = true ->
  (exists e', robustDataMerging (extractJsonFromResponse response)
                (patternMatchedData text) = Throws e')
  /\ extract10DataPointsWithGemini (Normal response) text
     = extract10DataPointsWithGemini (Throws e) text.
Proof.
  intros P I A.
  assert (G : get (patternMatchedData text) "reward_points_summary"
              = extractRewardPointsFromText text).
  { unfold patternMatchedData. apply get_set_same. }
  assert (T : truthy (extractRewardPointsFromText text) = true).
  { destruct (rewards_triple text) as (ob & ea & cb & -> & _). reflexivity. }
  assert (X : exists e', robustDataMerging (extractJsonFromResponse response)
                           (patternMatchedData text) = Throws e').
  { apply (merge_throws_on_primitive_summary _ _ f); rewrite ?G; auto. }
  split; [exact X|]. destruct X as (e' & X).
  unfold extract10DataPointsWithGemini, try_catch. cbn [bind].
  now rewrite X.
Qed.

End Results.

Module Counting.
Import JS Route Model Records Lengths.

Lemma shr_1_lower mrs k : 2 * k <= shr_m mrs -> 0 <= k -> k <= shr_m (shr_1 mrs).
Proof.
  destruct mrs as [m r s]. cbn [shr_m shr_1]. intros H K.
  destruct m as [|p|p]; [cbn; lia| |lia].
  destruct p; cbn [shr_m]; lia.
Qed.

Lemma pow_xI p : 2 ^ Zpos p~1 = 2 * (2 ^ Zpos p * 2 ^ Zpos p).
Proof.
  replace (Zpos p~1) with (1 + (Zpos p + Zpos p)) by lia.
  rewrite !Z.pow_add_r by lia. reflexivity.
Qed.

Lemma pow_xO p : 2 ^ Zpos p~0 = 2 ^ Zpos p * 2 ^ Zpos p.
Proof.
  replace (Zpos p~0) with (Zpos p + Zpos p) by lia.
  now rewrite Z.pow_add_r by lia.
Qed.

(** A mantissa of at least [2 ^ p * k] is at least [k] after [p]
    shifts. *)
Lemma iter_shr_lower p : forall mrs k,
  2 ^ Zpos p * k <= shr_m mrs -> 0 <= k ->
  k <= shr_m (iter_pos shr_1 p mrs).
Proof.
  induction p as [p IH|p IH|]; intros mrs k H K; cbn [iter_pos].
  - rewrite pow_xI in H. pose proof (Z.pow_pos_nonneg 2 (Zpos p)) as P.
    apply IH; [|exact K]. apply IH; [|nia]. apply shr_1_lower; nia.
  - rewrite pow_xO in H. pose proof (Z.pow_pos_nonneg 2 (Zpos p)) as P.
    apply IH; [|exact K]. apply IH; nia.
  - apply shr_1_lower; [|exact K]. exact H.
Qed.

Lemma digits2_lower p : 2 ^ (Zpos (digits2_pos p) - 1) <= Zpos p.
Proof.
  induction p as [p IH|p IH|]; cbn [digits2_pos]; [| |cbn; lia].
  - rewrite Pos2Z.inj_succ.
    replace (Z.succ (Zpos (digits2_pos p)) - 1)
      with (Zpos (digits2_pos p) - 1 + 1) by lia.
    rewrite Z.pow_add_r by lia. lia.
  - rewrite Pos2Z.inj_succ.
    replace (Z.succ (Zpos (digits2_pos p)) - 1)
      with (Zpos (digits2_pos p) - 1 + 1) by lia.
    rewrite Z.pow_add_r by lia. lia.
Qed.

(** The shift that brings a mantissa to the precision keeps it above
    zero, when the exponent is not below the least one. *)
Lemma shr_fexp_positive m e l :
  0 < m -> emin B64.prec B64.emax <= e ->
  0 < shr_m (fst (shr_fexp B64.prec B64.emax m e l))
  /\ emin B64.prec B64.emax <= snd (shr_fexp B64.prec B64.emax m e l).
Proof.
  intros M E. unfold shr_fexp, shr.
  assert (R : shr_m (shr_record_of_loc m l) = m).
  { now destruct l as [|[| |]]. }
  destruct (fexp B64.prec B64.emax (Zdigits2 m + e) - e) as [|p|p] eqn:F;
    cbn [fst snd]; rewrite ?R; try (split; lia).
  destruct m as [|q|q]; try lia. cbn [Zdigits2] in F.
  unfold fexp in F. change (emin B64.prec B64.emax) with (-1074) in *.
  change B64.prec with 53 in F.
  pose proof (digits2_lower q) as D.
  split; [|lia].
  assert (P : Zpos p <= Zpos (digits2_pos q) - 1) by lia.
  assert (L : 1 <= shr_m (iter_pos shr_1 p (shr_record_of_loc (Zpos q) l))).
  { apply iter_shr_lower; [|lia]. rewrite R, Z.mul_1_r.
    etransitivity; [|exact D]. apply Z.pow_le_mono_r; lia. }
  lia.
Qed.

Lemma round_nearest_even_positive m l : 0 < m -> 0 < round_nearest_even m l.
Proof.
  intros H. unfold round_nearest_even.
  destruct l as [|[| |]]; try lia. destruct (Z.even m); lia.
Qed.

(** Rounding a mantissa above zero gives a number above zero. *)
Lemma binary_round_aux_positive mx ex lx :
  0 < mx -> emin B64.prec B64.emax <= ex ->
  B64.ltb (S754_zero false)
    (binary_round_aux B64.prec B64.emax false mx ex lx) = true.
Proof.
  intros M E. unfold binary_round_aux.
  destruct (shr_fexp_positive mx ex lx M E) as [H1 E1].
  destruct (shr_fexp _ _ mx ex lx) as [mrs' e']. cbn [fst snd] in H1, E1.
  pose proof (round_nearest_even_positive _ (loc_of_shr_record mrs') H1) as H2.
  destruct (shr_fexp_positive _ e' loc_Exact H2 E1) as [H3 _].
  destruct (shr_fexp _ _ _ e' loc_Exact) as [mrs'' e'']. cbn [fst] in H3.
  destruct (shr_m mrs'') as [|p|p]; try lia.
  now destruct (_ <=? _).
Qed.

(** The number of a natural number that is not zero is above zero. *)
Lemma of_Z_positive p : B64.ltb (S754_zero false) (B64.of_Z (Zpos p)) = true.
Proof.
  unfold B64.of_Z, binary_normalize, binary_round, shl_align.
  destruct (fexp B64.prec B64.emax (Zpos (digits2_pos p) + 0) - 0)
    as [|d|d] eqn:F.
  - apply binary_round_aux_positive; [lia|]. now vm_compute.
  - apply binary_round_aux_positive; [lia|]. now vm_compute.
  - apply binary_round_aux_positive; [lia|].
    unfold fexp. lia.
Qed.

(** Against the empty list of the fallback record, the pattern list is
    the longer one exactly when it has a row. *)
Lemma tx_longer_empty rows :
  tx_longer (VArr [] []) (VArr rows [])
  = Normal (negb (Nat.eqb (List.length rows) 0)).
Proof.
  destruct rows as [|row rows]; [reflexivity|].
  unfold tx_longer.
  change (assignable (VArr (row :: rows) [])) with true.
  cbn [Array_isArray member optional_member bind String.eqb Ascii.eqb
       Bool.eqb length_of List.length Nat.eqb negb].
  change (or_else (VNat 0) (num 0)) with (VNum (S754_zero false)).
  unfold gt, VNat. cbn [ToPrimitive ToNumber bind].
  f_equal. rewrite Nat2Z.inj_succ, <- Zpos_P_of_succ_nat.
  apply of_Z_positive.
Qed.

End Counting.

Module Agreement.
Import JS Route Regex Model Records Validation Finalization Merging
  MergeProperties FinalizationProperties Idempotence RegexFacts Recovery
  Pipeline Shapes Rows Frames Paths Strings Rewards MergeFrames Counting.

Lemma every_get (Q : value -> Prop) (o : obj) k :
  Q VUndefined -> Forall (fun kv => Q (snd kv)) o -> Q (get o k).
Proof.
  unfold get. intros U F.
  induction F as [|[k' v] r H _ IH]; cbn [lookup]; [exact U|].
  destruct (String.eqb k k'); [exact H|exact IH].
Qed.

Lemma every_set (Q : value -> Prop) (o : obj) k v :
  Forall (fun kv => Q (snd kv)) o -> Q v ->
  Forall (fun kv => Q (snd kv)) (set o k v).
Proof.
  intros F P. induction F as [|[k' v'] r H F IH]; cbn [set].
  - now repeat constructor.
  - destruct (String.eqb k k'); constructor; auto.
Qed.

Lemma every_spread (Q : value -> Prop) (a b : obj) :
  Forall (fun kv => Q (snd kv)) a -> Forall (fun kv => Q (snd kv)) b ->
  Forall (fun kv => Q (snd kv)) (spread a b).
Proof.
  unfold spread. intros Fa Fb. revert a Fa.
  induction Fb as [|[k v] r H _ IH]; intros a Fa; cbn [fold_left]; auto.
  apply IH. now apply every_set.
Qed.

(** A text is truthy whenever it is usable, and so is null. *)
Lemma text_usable_is_truthy o : usable_is_truthy (of_option o) = true.
Proof.
  destruct o as [[|c s]|]; [reflexivity| |reflexivity].
  unfold usable_is_truthy, of_option. apply implb_true_r.
Qed.

Lemma customer_usable_is_truthy text :
  Forall (fun kv => usable_is_truthy (snd kv) = true)
    (extractCustomerInfoFromText text).
Proof.
  unfold extractCustomerInfoFromText.
  repeat constructor; apply text_usable_is_truthy.
Qed.

Lemma dates_usable_is_truthy text :
  Forall (fun kv => usable_is_truthy (snd kv) = true)
    (extractDatesFromText text).
Proof.
  unfold extractDatesFromText.
  match goal with
  | |- Forall ?Q (fold_left ?f ?l ?o) =>
      assert (G : forall l' o', Forall Q o' -> Forall Q (fold_left f l' o'))
  end.
  { induction l' as [|x l' IH]; intros o' F; cbn [fold_left]; [exact F|].
    apply IH. destruct (exec _ _); [|exact F].
    destruct (non_empty _) as [g|]; [|exact F].
    apply (every_set (fun v => usable_is_truthy v = true)); [exact F|].
    apply (text_usable_is_truthy (Some g)). }
  apply G. now repeat constructor.
Qed.

(** Every property of the pattern-matched data is truthy whenever it is
    usable, when the amounts are. *)
Lemma pattern_usable_is_truthy text k :
  Forall (fun kv => usable_is_truthy (snd kv) = true)
    (extractFinancialDataFromText text) ->
  usable_is_truthy (get (patternMatchedData text) k) = true.
Proof.
  intros F. apply (every_get (fun v => usable_is_truthy v = true));
    [reflexivity|].
  unfold patternMatchedData.
  repeat apply (every_set (fun v => usable_is_truthy v = true)).
  - repeat apply (every_spread (fun v => usable_is_truthy v = true));
      auto using customer_usable_is_truthy, dates_usable_is_truthy.
  - apply text_usable_is_truthy.
  - destruct (transactions_list text) as (rows & ->).
    unfold usable_is_truthy. apply implb_true_r.
  - destruct (rewards_triple text) as (ob & ea & cb & -> & _).
    unfold usable_is_truthy. apply implb_true_r.
Qed.

Lemma hp_rule_null p :
  usable_is_truthy p = true -> hp_rule VNull p = pick p VNull.
Proof.
  unfold usable_is_truthy, hp_rule, pick, assignable.
  destruct (isValidData p), (truthy p); cbn; congruence.
Qed.

Lemma fill_rule_null p :
  usable_is_truthy p = true -> fill_rule VNull p = pick p VNull.
Proof.
  unfold usable_is_truthy, fill_rule, pick, assignable.
  destruct (isValidData p), (truthy p); cbn; congruence.
Qed.

(** A reward point is null or a number that is not negative. *)
Lemma reward_sub_fields text :
  exists ob ea cb,
    extractRewardPointsFromText text = triple ob ea cb
    /\ Forall (fun v => v = VNull
                        \/ exists x, v = VNum x /\ non_negative x = true)
         [ob; ea; cb].
Proof.
  unfold extractRewardPointsFromText.
  match goal with
  | |- context [first_pattern rewardPatterns ?f] =>
      destruct (first_pattern rewardPatterns f) as [[[ob ea] cb]|] eqn:FP
  end.
  2:{ do 3 eexists. split; [reflexivity|]. repeat constructor; now left. }
  apply first_pattern_some in FP. destruct FP as (p & I & H).
  destruct (exec (fst p) text) as [m|] eqn:E; [|discriminate].
  destruct (reward_pattern_numbers p text m I E)
    as (a & b & c & Ea & Eb & Ec & Na & Nb & Nc).
  assert (T : Nat.leb 3 (snd p) = true).
  { destruct I as [<-|[<-|[<-|[]]]]; reflexivity. }
  rewrite T, Ea, Eb, Ec in H. injection H as <- <- <-.
  do 3 eexists. split; [reflexivity|].
  constructor; [right; eauto|]. constructor; [right; eauto|].
  constructor; [right; eauto|constructor].
Qed.

Lemma hp_rule_reward v :
  v = VNull \/ (exists x, v = VNum x /\ non_negative x = true) ->
  usable_is_truthy v = true -> hp_rule VNull v = v.
Proof.
  intros [->|(x & -> & N)] U; [reflexivity|].
  unfold hp_rule, assignable. unfold usable_is_truthy in U.
  assert (V : isValidData (VNum x) = true).
  { destruct x as [[]|[]| |[] m e]; try reflexivity; discriminate. }
  rewrite V in *. cbn [implb] in U. now rewrite U.
Qed.

(** Against the fallback record, merge and the loop of the [catch]
    block build records that finalization does not tell apart. *)
Lemma fallback_merge_is_pattern_only pat rows ob ea cb :
  (forall k, usable_is_truthy (get pat k) = true) ->
  get pat "transactions" = VArr rows [] ->
  get pat "reward_points_summary" = triple ob ea cb ->
  hp_rule VNull ob = ob -> hp_rule VNull ea = ea -> hp_rule VNull cb = cb ->
  merge_then_finalize createCompleteFallbackData pat
  = finalValidationAndCalculation (pattern_only pat).
Proof.
  intros Q T R Ho He Hc. unfold merge_then_finalize.
  pose proof (merge_spec createCompleteFallbackData pat) as S.
  unfold merge_effects in S. rewrite T, R in S.
  change (get createCompleteFallbackData "transactions")
    with (VArr [] []) in S.
  change (get createCompleteFallbackData "reward_points_summary")
    with (triple VNull VNull VNull) in S.
  rewrite tx_longer_empty, summary_value_fallback in S. cbn [bind] in S.
  destruct S as (m & -> & G). cbn [bind].
  apply finalize_ext_keys. intros k I. rewrite G.
  unfold model_keys, keys, createCompleteFallbackData in I.
  cbn [map fst] in I.
  repeat (destruct I as [<-|I]);
    [..|destruct I];
    unfold merge_get, pattern_only;
    cbn [map createCompleteFallbackData get lookup String.eqb Ascii.eqb
         Bool.eqb Str.includes existsb app orb financialFields dateFields];
    try (apply hp_rule_null, Q); try (apply fill_rule_null, Q).
  - rewrite T. now destruct rows.
  - rewrite R, Ho, He, Hc. reflexivity.
Qed.

(** X22.  The two ways out of a failure of the language model.  When the
    answer holds no JSON, the extraction merges the fallback record with
    the pattern-matched data; when the call throws, it copies the usable
    pattern-matched data into the fallback record.  The two results are
    the same whenever no amount and no reward point that the patterns
    read is usable and falsy, that is the number 0. *)
Theorem recovery_paths_agree response text e :
  extractJsonFromResponse response = createCompleteFallbackData ->
  Forall (fun kv => usable_is_truthy (snd kv) = true)
    (extractFinancialDataFromText text) ->
  (forall f, In f rewardFields ->
     usable_is_truthy (prop (extractRewardPointsFromText text) f) = true) ->
  extract10DataPointsWithGemini (Normal response) text
  = extract10DataPointsWithGemini (Throws e) text.
Proof.
  intros J F W.
  assert (A : merge_then_finalize createCompleteFallbackData
                (patternMatchedData text)
              = finalValidationAndCalculation
                  (pattern_only (patternMatchedData text))).
  { destruct (transactions_list text) as (rows & T).
    destruct (reward_sub_fields text) as (ob & ea & cb & R & S).
    rewrite R in W.
    pose proof (W "opening_balance" ltac:(cbn; tauto)) as Wo.
    pose proof (W "earned" ltac:(cbn; tauto)) as We.
    pose proof (W "closing_balance" ltac:(cbn; tauto)) as Wc.
    inversion S as [|? ? So S1]; inversion S1 as [|? ? Se S2];
      inversion S2 as [|? ? Sc _]; subst.
    apply (fallback_merge_is_pattern_only _ rows ob ea cb).
    - intros k. now apply pattern_usable_is_truthy.
    - unfold patternMatchedData. rewrite !get_set.
      cbn [String.eqb Ascii.eqb Bool.eqb]. exact T.
    - unfold patternMatchedData. rewrite get_set_same. exact R.
    - now apply hp_rule_reward.
    - now apply hp_rule_reward.
    - now apply hp_rule_reward. }
  unfold extract10DataPointsWithGemini, try_catch. cbn [bind].
  rewrite fallback_loop, J. unfold merge_then_finalize in A. rewrite A.
  now destruct (finalValidationAndCalculation _).
Qed.

(** The condition is needed: with a total of 0, the answer without JSON
    loses the total that the [catch] block keeps. *)
Lemma recovery_paths_differ_on_zero :
  extractJsonFromResponse prose = createCompleteFallbackData
  /\ extract10DataPointsWithGemini (Normal prose) zero_due_text
     <> extract10DataPointsWithGemini (Throws TypeError) zero_due_text.
Proof. split; [vm_compute; reflexivity|]. vm_compute. discriminate. Qed.

End Agreement.

Module Instances.
Import JS Route Model Records Service Requests Shapes Rows Frames Samples
  Paths CardNumber CustomerName Amounts Dates DigitFree MergeFrames Handlers
  Results Agreement.

Lemma card_number_made_of_witness :
  made_of card_char "1234****5678" /\ (8 <= digit_count "1234****5678")%nat.
Proof.
  apply (card_number_made_of card_text). vm_compute. reflexivity.
Defined.

Lemma customer_name_made_of_witness :
  made_of name_char "John Doe" /\ Str.trim "John Doe" = "John Doe".
Proof.
  apply (customer_name_made_of sample_text). vm_compute. reflexivity.
Defined.

Lemma financial_data_amounts_witness :
  In "available_credit_limit" amount_names
  /\ exists x,
       get (extractFinancialDataFromText sample_text) "available_credit_limit"
       = VNum x
       /\ (B64.is_nan x = true \/ non_negative x = true
           \/ ("available_credit_limit" = "available_credit_limit"
               /\ exists c t,
                    get (extractFinancialDataFromText sample_text)
                      "credit_limit" = VNum c
                    /\ get (extractFinancialDataFromText sample_text)
                         "total_amount_due" = VNum t
                    /\ x = B64.sub c t)).
Proof.
  apply (financial_data_amounts sample_text "available_credit_limit").
  vm_compute. reflexivity.
Defined.

Lemma dates_read_witness :
  get (extractDatesFromText dates_text) "payment_due_date" = VNull
  \/ date_value (get (extractDatesFromText dates_text) "payment_due_date").
Proof.
  apply (proj2 (dates_read dates_text)). right. now left.
Defined.

Lemma due_date_gives_statement_date_witness :
  get (extractDatesFromText dates_text) "payment_due_date" <> VNull
  /\ get (extractDatesFromText dates_text) "statement_date" <> VNull.
Proof.
  assert (H : get (extractDatesFromText dates_text) "payment_due_date"
              <> VNull) by (vm_compute; discriminate).
  split; [exact H|]. exact (due_date_gives_statement_date dates_text H).
Defined.

Lemma text_without_digit_witness :
  extractCardNumberFromText words_text = None
  /\ extractRewardPointsFromText words_text = triple VNull VNull VNull
  /\ extractTransactionsFromText words_text = VArr [] []
  /\ extractDatesFromText words_text
     = [("statement_date", VNull); ("payment_due_date", VNull)]
  /\ forall f, has (extractFinancialDataFromText words_text) f = true ->
               get (extractFinancialDataFromText words_text) f
               = VNum S754_nan.
Proof.
  apply (text_without_digit words_text). vm_compute. repeat constructor.
Defined.

Lemma other_keys_ignored_witness :
  merge_then_finalize (set sample_llm "note" (VStr "draft")) sample_pat
  = merge_then_finalize sample_llm sample_pat
  /\ merge_then_finalize sample_llm (set sample_pat "note" (VStr "draft"))
     = merge_then_finalize sample_llm sample_pat.
Proof.
  apply (other_keys_ignored sample_llm sample_pat "note" (VStr "draft")).
  vm_compute. intuition discriminate.
Defined.

Lemma merge_without_pattern_data_witness :
  robustDataMerging named_llm [] = Normal named_llm.
Proof.
  apply (merge_without_pattern_data named_llm []); intros f _; reflexivity.
Defined.

Lemma merge_prefers_pattern_names_witness :
  get named_pat "customer_name"
  = if assignable (get named_pat "customer_name")
    then get named_pat "customer_name"
    else get named_llm "customer_name".
Proof.
  apply (merge_prefers_pattern_names named_llm named_pat named_pat
           "customer_name"); [vm_compute; reflexivity|cbn; tauto].
Defined.

Lemma primitive_summary_drops_llm_record_witness :
  (exists e', robustDataMerging (extractJsonFromResponse summary_answer)
                (patternMatchedData rewards_text) = Throws e')
  /\ extract10DataPointsWithGemini (Normal summary_answer) rewards_text
     = extract10DataPointsWithGemini (Throws TypeError) rewards_text.
Proof.
  apply (primitive_summary_drops_llm_record summary_answer rewards_text
           "earned" TypeError);
    [vm_compute; reflexivity|cbn; tauto|vm_compute; reflexivity].
Defined.

Lemma pattern_names_reach_the_result_witness :
  exists r,
    extract10DataPointsWithGemini (Normal prose) sample_text = Normal r
    /\ get r "customer_name"
       = get (patternMatchedData sample_text) "customer_name".
Proof.
  eexists. split; [vm_compute; reflexivity|].
  apply (pattern_names_reach_the_result (Normal prose) sample_text _
           "customer_name");
    [vm_compute; reflexivity|cbn; tauto|vm_compute; reflexivity].
Defined.

Lemma api_call_outcome_witness :
  callGeminiApi None offline
  = Throws (Error "GEMINI_API_KEY is not configured")
  /\ callGeminiApi (Some "key") offline
     = Normal (VStr "API call failed: offline").
Proof.
  split.
  - destruct (api_call_outcome None offline) as [No _]. now apply No.
  - destruct (api_call_outcome (Some "key") offline) as [_ Yes].
    destruct (Yes eq_refl) as (_ & Rejected & _).
    exact (Rejected (Error "offline") eq_refl).
Defined.

Lemma general_chat_outcome_witness :
  status (handleGeneralChat asked_body (Some "key") offline) = 200%Z
  /\ get (body (handleGeneralChat asked_body (Some "key") offline)) "answer"
     = VStr "API call failed: offline".
Proof.
  assert (S : status (handleGeneralChat asked_body (Some "key") offline)
              = 200%Z) by reflexivity.
  split; [exact S|].
  destruct (general_chat_outcome asked_body (Some "key") offline)
    as (_ & _ & _ & Rejected).
  exact (Rejected (Error "offline") S eq_refl).
Defined.

Lemma processed_session_is_found_witness :
  exists sessionId name,
    get (body (snd (handleOCR [] file_form random_text now_number)))
      "session_id" = VStr sessionId
    /\ find_session sessionId
         (fst (handleOCR [] file_form random_text now_number))
       = Some {| text := mockExtractedText name; extracted_10_data := None |}
    /\ (forall gemini,
          status (snd (handleOCR10
                         (fst (handleOCR [] file_form random_text now_number))
                         sessionId gemini)) = 200%Z)
    /\ (forall question key fetch,
          status (handleChatWithPDF
                    (fst (handleOCR [] file_form random_text now_number))
                    (Normal (chat_request question sessionId)) key fetch)
          <> 404%Z).
Proof.
  apply (processed_session_is_found [] file_form random_text now_number).
  vm_compute. reflexivity.
Defined.

Lemma other_sessions_kept_witness :
  find_session "s1" (fst (handleOCR10 one_session "s2" (Throws TypeError)))
  = find_session "s1" one_session
  /\ find_session "s1"
       (fst (handleOCR one_session file_form random_text now_number))
     = find_session "s1" one_session.
Proof.
  destruct (other_sessions_kept one_session "s1") as (Others & _ & Created).
  split.
  - apply Others. discriminate.
  - apply Created. vm_compute. discriminate.
Defined.

Lemma ocr_preview_bounded_witness :
  (String.length (mockExtractedText "a.pdf") <= 1003)%nat
  /\ forall content,
       status (snd (handleOCR [] file_form random_text now_number)) = 200%Z ->
       find_session (substring_from 2 random_text ++ to_base36 now_number)
         (fst (handleOCR [] file_form random_text now_number))
       = Some content ->
       (String.length (text content) <= 1000)%nat ->
       mockExtractedText "a.pdf" = text content.
Proof.
  apply (ocr_preview_bounded [] file_form random_text now_number).
  vm_compute. reflexivity.
Defined.

Lemma extraction_after_failed_request_witness :
  extract10DataPointsWithGemini
    (response_text (callGeminiApi None offline)) sample_text
  = finalValidationAndCalculation
      (pattern_only (patternMatchedData sample_text))
  /\ extract10DataPointsWithGemini
       (response_text (callGeminiApi (Some "key") offline)) sample_text
     = merge_then_finalize createCompleteFallbackData
         (patternMatchedData sample_text).
Proof.
  split.
  - apply (proj1 (extraction_after_failed_request None offline sample_text)).
    reflexivity.
  - apply (proj2 (extraction_after_failed_request (Some "key") offline
                    sample_text) (Error "offline"));
      [reflexivity|reflexivity|].
    vm_compute. intuition discriminate.
Defined.

Lemma recovery_paths_agree_witness :
  extract10DataPointsWithGemini (Normal prose) sample_text
  = extract10DataPointsWithGemini (Throws TypeError) sample_text.
Proof.
  apply (recovery_paths_agree prose sample_text TypeError);
    [vm_compute; reflexivity|vm_compute; repeat constructor|].
  intros f [<-|[<-|[<-|[]]]]; reflexivity.
Defined.

End Instances.
